(** * Work-time analysis: session segmentation, summary, pivot and filter

    A shallow embedding of [analyze_work_time.py] (and of the filter block
    that [app.py] shares with it), with the properties of its specification
    stated and settled against the embedding.

    Modelling conventions
    - A data frame is the list of its rows, in row order.  The frame with no
      rows is taken with its columns present.
    - [pd.to_datetime] has succeeded: a timestamp is a whole number of
      seconds ([Z]); a [timedelta] is a number of seconds.
    - An hours or minutes figure is carried as the exact rational ([Q]) it
      stands for; what Python stores is the binary64 nearest to it
      ([binary64]).  [round(2)] is rounding to the nearest hundredth; the
      embedding sends a half to the even side, and what is stated of a
      rounded figure is stated so as to hold whichever way a half goes
      ([rounded_to_2], or a bound with room for it).
    - [groupby] visits its keys in ascending order and keeps the rows of a
      group in frame order.
    - [sort_values] on several columns is a stable sort; on one column it
      runs the default quicksort, of which only the contract is known: the
      result is an ordered permutation of the rows.
    - A pivot is modelled twice: with the labels of the two TOTAL entries
      kept apart from the developers and dates ([pivot_hours_by_day]), and
      as the sheet holds it, where TOTAL is one more string among the column
      labels ([sheet_hours_by_day]).

    The file has three parts: the embedding of the program, the properties
    of its specification, and further properties of the program. *)

From Stdlib Require Import String Ascii.
From Stdlib Require Import List ZArith QArith Qround Qabs Lia Lqa Bool.
From Stdlib Require Import Permutation Sorted OrderedTypeEx Setoid Morphisms.
From Stdlib Require Import DecimalString.
From Corelib Require Import PrimFloat.
Import ListNotations.
Open Scope Z_scope.

(** * Part I: the program *)

(** ** Frames: sorting, distinct keys, sums, rounding *)

(** Insertion into an ordered list, before the first element that is not
    smaller: equal keys keep their order. *)
Fixpoint insert_sorted {A} (leb : A -> A -> bool) (x : A) (l : list A)
  : list A :=
  match l with
  | [] => [x]
  | y :: l' => if leb x y then x :: l else y :: insert_sorted leb x l'
  end.

Definition stable_sort {A} (leb : A -> A -> bool) (l : list A) : list A :=
  fold_right (insert_sorted leb) [] l.


(** The distinct keys of a string column, ascending. *)
Definition unique_sorted (l : list string) : list string :=
  stable_sort String.leb (nodup string_dec l).

Definition unique_sorted_Z (l : list Z) : list Z :=
  stable_sort Z.leb (nodup Z.eq_dec l).

Definition Zsum (l : list Z) : Z := fold_right Z.add 0 l.

Definition Qsum (l : list Q) : Q := fold_right Qplus 0%Q l.

(** Nearest integer, halves to even. *)
Definition rint (x : Q) : Z :=
  let f := Qfloor x in
  match Qcompare (x - inject_Z f) (1 # 2) with
  | Lt => f
  | Gt => f + 1
  | Eq => if Z.even f then f else f + 1
  end.

(** [round(2)] on a float column. *)
Definition round2 (x : Q) : Q := Qmake (rint (x * 100)) 100.

(** ** Data model *)

(** A log row after [pd.to_datetime]: the [User] column ([None] for a
    missing value), the parsed [DateTime], and the rest of the row, here the
    [_source_file] column that [load_logs] adds. *)
Record Event := {
  User : option string;
  DateTime : Z;
  source_file : string
}.

(** A row of the chunk frame.  [End_] is the column [End]; the two
    duration columns and [Gap_to_Next] are quotients of whole seconds. *)
Record WorkChunk := {
  Developer : string;
  Start : Z;
  End_ : Z;
  Duration_min : Q;
  Duration_hours : Q;
  Log_Count : Z;
  Gap_to_Next : option Q
}.

(** [td.total_seconds() / n] *)
Definition total_seconds_div (td : Z) (n : positive) : Q := Qmake td n.

(** ** process_work_chunks *)

(** [df['User'].notna() & (df['User'] != '')] *)
Definition valid_User (e : Event) : bool :=
  match User e with
  | Some u => negb (String.eqb u "")
  | None => false
  end.

(** Missing users sort last. *)
Definition User_compare (a b : option string) : comparison :=
  match a, b with
  | Some x, Some y => String.compare x y
  | Some _, None => Lt
  | None, Some _ => Gt
  | None, None => Eq
  end.

(** The order of [sort_values(['User', 'DateTime'])]. *)
Definition row_leb (e1 e2 : Event) : bool :=
  match User_compare (User e1) (User e2) with
  | Lt => true
  | Eq => DateTime e1 <=? DateTime e2
  | Gt => false
  end.

Definition sort_values_User_DateTime (df : list Event) : list Event :=
  stable_sort row_leb df.

Definition has_User (u : string) (e : Event) : bool :=
  match User e with
  | Some v => String.eqb v u
  | None => false
  end.

Definition User_column (df : list Event) : list string :=
  flat_map (fun e => match User e with Some u => [u] | None => [] end) df.

(** [df.groupby('User')]: the keys ascending, missing users dropped, each
    with its rows in frame order. *)
Definition groupby_User (df : list Event) : list (string * list Event) :=
  map (fun u => (u, filter (has_User u) df)) (unique_sorted (User_column df)).

Definition make_chunk (user : string) (chunk_start chunk_end : Z)
           (chunk_logs_count : Z) (gap : option Q) : WorkChunk :=
  let duration := chunk_end - chunk_start in
  {| Developer := user;
     Start := chunk_start;
     End_ := chunk_end;
     Duration_min := total_seconds_div duration 60;
     Duration_hours := total_seconds_div duration 3600;
     Log_Count := chunk_logs_count;
     Gap_to_Next := gap |}.

(** The running chunk: [chunk_start], [chunk_end], [chunk_logs_count];
    [None] while [chunk_start is None]. *)
Definition open_chunk : Type := option (Z * Z * Z).

(** The body of the loop over a user's rows.  The list [chunks] is the one
    shared by all users. *)
Definition scan_row (inactivity_threshold : Z) (user : string)
           (st : open_chunk * list WorkChunk) (current_time : Z)
  : open_chunk * list WorkChunk :=
  let '(cur, chunks) := st in
  match cur with
  | None => (Some (current_time, current_time, 1), chunks)
  | Some (chunk_start, chunk_end, chunk_logs_count) =>
      let time_diff := current_time - chunk_end in
      if time_diff >? inactivity_threshold
      then (Some (current_time, current_time, 1),
            chunks ++ [make_chunk user chunk_start chunk_end chunk_logs_count
                                  (Some (total_seconds_div time_diff 60))])
      else (Some (chunk_start, current_time, chunk_logs_count + 1), chunks)
  end.

(** The body of the loop over the groups. *)
Definition scan_user (inactivity_threshold : Z) (chunks : list WorkChunk)
           (g : string * list Event) : list WorkChunk :=
  let '(user, user_logs) := g in
  let '(cur, chunks') :=
    fold_left (scan_row inactivity_threshold user)
              (map DateTime user_logs) (None, chunks) in
  match cur with
  | Some (chunk_start, chunk_end, chunk_logs_count) =>
      chunks' ++ [make_chunk user chunk_start chunk_end chunk_logs_count None]
  | None => chunks'
  end.

Definition process_work_chunks (df : list Event) (inactivity_minutes : Z)
  : list WorkChunk :=
  let df := filter valid_User df in
  let df := sort_values_User_DateTime df in
  let inactivity_threshold := 60 * inactivity_minutes in
  fold_left (scan_user inactivity_threshold) (groupby_User df) [].

(** ** generate_summary *)

(** The rows of a chunk frame that belong to one developer. *)
Definition chunks_of (u : string) (chunks : list WorkChunk) : list WorkChunk :=
  filter (fun c => String.eqb (Developer c) u) chunks.

(** A row of the summary frame; [sm_Developer] is its index. *)
Record SummaryRow := {
  sm_Developer : string;
  sm_Duration_hours : Q;
  sm_Log_Count : Z;
  sm_Chunk_Count : Z
}.

(** [chunks_df.groupby('Developer').agg({...})] *)
Definition groupby_Developer_agg (chunks_df : list WorkChunk)
  : list SummaryRow :=
  map (fun u =>
         let g := chunks_of u chunks_df in
         {| sm_Developer := u;
            sm_Duration_hours := Qsum (map Duration_hours g);
            sm_Log_Count := Zsum (map Log_Count g);
            sm_Chunk_Count := Z.of_nat (length g) |})
      (unique_sorted (map Developer chunks_df)).

(** [summary.round(2)]: the whole-number columns are unchanged. *)
Definition round_summary (r : SummaryRow) : SummaryRow :=
  {| sm_Developer := sm_Developer r;
     sm_Duration_hours := round2 (sm_Duration_hours r);
     sm_Log_Count := sm_Log_Count r;
     sm_Chunk_Count := sm_Chunk_Count r |}.

Definition hours_desc (r1 r2 : SummaryRow) : Prop :=
  (sm_Duration_hours r2 <= sm_Duration_hours r1)%Q.

(** [sort_values('Duration (hours)', ascending=False)], default quicksort:
    [out] holds the rows of [rows], by descending hours.  The order of rows
    with equal hours is whatever the library sort leaves. *)
Definition sort_values_hours_desc (rows out : list SummaryRow) : Prop :=
  Permutation rows out /\ StronglySorted hours_desc out.

(** [generate_summary chunks_df summary]: [summary] is a frame the function
    may return on [chunks_df]. *)
Definition generate_summary (chunks_df : list WorkChunk)
           (summary : list SummaryRow) : Prop :=
  sort_values_hours_desc (map round_summary (groupby_Developer_agg chunks_df))
                         summary.

(** One sort that meets the contract: the stable one. *)
Definition hours_desc_leb (r1 r2 : SummaryRow) : bool :=
  Qle_bool (sm_Duration_hours r2) (sm_Duration_hours r1).

Definition generate_summary_stable (chunks_df : list WorkChunk)
  : list SummaryRow :=
  stable_sort hours_desc_leb
              (map round_summary (groupby_Developer_agg chunks_df)).

(** ** The daily pivot of export_excel *)

(** [Start.dt.date], as a day number. *)
Definition Date (c : WorkChunk) : Z := Start c / 86400.

(** A row of [pivot_by_day]. *)
Record DayRow := {
  d_Date : Z;
  d_Developer : string;
  d_Duration_hours : Q;
  d_Log_Count : Z;
  d_Chunk_Count : Z
}.

Definition day_key_eqb (k1 k2 : Z * string) : bool :=
  (fst k1 =? fst k2) && String.eqb (snd k1) (snd k2).

Definition day_key_leb (k1 k2 : Z * string) : bool :=
  (fst k1 <? fst k2) || ((fst k1 =? fst k2) && String.leb (snd k1) (snd k2)).

Definition day_key_dec (k1 k2 : Z * string) : {k1 = k2} + {k1 <> k2}.
Proof. decide equality; [apply string_dec|apply Z.eq_dec]. Defined.

Definition in_day (k : Z * string) (c : WorkChunk) : bool :=
  day_key_eqb (Date c, Developer c) k.

(** [groupby(['Date', 'Developer']).agg({...}).reset_index()] *)
Definition groupby_Date_Developer_agg (chunks_df : list WorkChunk)
  : list DayRow :=
  map (fun k =>
         let g := filter (in_day k) chunks_df in
         {| d_Date := fst k;
            d_Developer := snd k;
            d_Duration_hours := Qsum (map Duration_hours g);
            d_Log_Count := Zsum (map Log_Count g);
            d_Chunk_Count := Z.of_nat (length g) |})
      (stable_sort day_key_leb
         (nodup day_key_dec (map (fun c => (Date c, Developer c)) chunks_df))).

Definition round_day (r : DayRow) : DayRow :=
  {| d_Date := d_Date r;
     d_Developer := d_Developer r;
     d_Duration_hours := round2 (d_Duration_hours r);
     d_Log_Count := d_Log_Count r;
     d_Chunk_Count := d_Chunk_Count r |}.

(** [pivot_by_day], after [round(2)] and [sort_values(['Date', 'Developer'])] *)
Definition pivot_by_day (chunks_df : list WorkChunk) : list DayRow :=
  stable_sort (fun r1 r2 => day_key_leb (d_Date r1, d_Developer r1)
                                        (d_Date r2, d_Developer r2))
              (map round_day (groupby_Date_Developer_agg chunks_df)).

(** A frame of hours addressed by labels. *)
Record Frame (R C : Type) := {
  index : list R;
  columns : list C;
  value : R -> C -> Q
}.
Arguments index {R C} _.
Arguments columns {R C} _.
Arguments value {R C} _ _ _.

(** [pivot_by_day.pivot_table(index='Date', columns='Developer',
    values='Duration (hours)', aggfunc='sum', fill_value=0).round(2)] *)
Definition pivot_table (rows : list DayRow) : Frame Z string :=
  {| index := unique_sorted_Z (map d_Date rows);
     columns := unique_sorted (map d_Developer rows);
     value := fun d u =>
       round2 match filter (fun r => day_key_eqb (d_Date r, d_Developer r) (d, u))
                           rows with
              | [] => 0%Q
              | g => Qsum (map d_Duration_hours g)
              end |}.

Inductive column_label := Dev (u : string) | TOTAL_column.
Inductive row_label := Day (d : Z) | TOTAL_row.

(** [pivot_table['TOTAL'] = pivot_table.sum(axis=1).round(2)] *)
Definition add_TOTAL_column (p : Frame Z string) : Frame Z column_label :=
  {| index := index p;
     columns := map Dev (columns p) ++ [TOTAL_column];
     value := fun d c =>
       match c with
       | Dev u => value p d u
       | TOTAL_column => round2 (Qsum (map (value p d) (columns p)))
       end |}.

(** [pivot_table.loc['TOTAL'] = pivot_table.sum(axis=0).round(2)] *)
Definition add_TOTAL_row (p : Frame Z column_label)
  : Frame row_label column_label :=
  {| index := map Day (index p) ++ [TOTAL_row];
     columns := columns p;
     value := fun r c =>
       match r with
       | Day d => value p d c
       | TOTAL_row => round2 (Qsum (map (fun d => value p d c) (index p)))
       end |}.

(** The sheet 'Pivot - Hours by Day'. *)
Definition pivot_hours_by_day (chunks_df : list WorkChunk)
  : Frame row_label column_label :=
  add_TOTAL_row (add_TOTAL_column (pivot_table (pivot_by_day chunks_df))).

(** ** The minimum-hours filter and main *)

Definition nunique_Developer (chunks_df : list WorkChunk) : Z :=
  Z.of_nat (length (nodup string_dec (map Developer chunks_df))).

(** [chunks_df.groupby('Developer')['Duration (hours)'].sum()], at one key. *)
Definition dev_hours (chunks_df : list WorkChunk) (u : string) : Q :=
  Qsum (map Duration_hours (chunks_of u chunks_df)).

Definition Qgtb (a b : Q) : bool := negb (Qle_bool a b).

(** The block [if min_hours > 0: ...] of both [main]s: the chunk frame it
    leaves and [filtered_count]. *)
Definition min_hours_filter (chunks_df : list WorkChunk) (min_hours : Q)
  : list WorkChunk * Z :=
  if Qgtb min_hours 0 then
    let valid_developers :=
      filter (fun u => Qle_bool min_hours (dev_hours chunks_df u))
             (unique_sorted (map Developer chunks_df)) in
    let chunks_df_original := chunks_df in
    let chunks_df :=
      filter (fun c => existsb (String.eqb (Developer c)) valid_developers)
             chunks_df in
    (chunks_df,
     nunique_Developer chunks_df_original - nunique_Developer chunks_df)
  else (chunks_df, 0).




(** ** Notions the statements use

    What the loops of [process_work_chunks] read and produce, written as
    recursive functions, and the predicates of the properties. *)

(** The rows of one group, in frame order. *)
Definition group {A K} (key : A -> K) (eqb : K -> K -> bool) (k : K)
           (l : list A) : list A :=
  filter (fun x => eqb (key x) k) l.

Definition row (u : string) (t : Z) (f : string) : Event :=
  {| User := Some u; DateTime := t; source_file := f |}.

Definition at_time (h m : Z) : Z := 3600 * h + 60 * m.

(** The frame the loops run over, and what they read of it. *)
Definition sorted_valid (df : list Event) : list Event :=
  sort_values_User_DateTime (filter valid_User df).

Definition owners (df : list Event) : list string :=
  unique_sorted (User_column (sorted_valid df)).

Definition user_times (df : list Event) (u : string) : list Z :=
  map DateTime (filter (has_User u) (sorted_valid df)).

Definition user_key (e : Event) : string :=
  match User e with Some u => u | None => EmptyString end.

(** [close_from] is the scan of one user's rows once a chunk is open, and
    [segment] the scan from the start; the two folds of the code compute
    them, as [scan_user_segment] and [process_work_chunks_flat] show. *)
Fixpoint close_from (T : Z) (u : string) (s e n : Z) (ts : list Z)
  : list WorkChunk :=
  match ts with
  | [] => [make_chunk u s e n None]
  | t :: ts' =>
      if t - e >? T
      then make_chunk u s e n (Some (total_seconds_div (t - e) 60))
             :: close_from T u t t 1 ts'
      else close_from T u s t (n + 1) ts'
  end.

Definition segment (T : Z) (u : string) (ts : list Z) : list WorkChunk :=
  match ts with
  | [] => []
  | t :: ts' => close_from T u t t 1 ts'
  end.

(** Each chunk but the last records the gap to its successor, which
    exceeds the threshold; the last records none. *)
Fixpoint gap_chain (T : Z) (l : list WorkChunk) : Prop :=
  match l with
  | [] => True
  | c :: rest =>
      match rest with
      | [] => Gap_to_Next c = None
      | c' :: _ =>
          Gap_to_Next c = Some (total_seconds_div (Start c' - End_ c) 60)
          /\ T < Start c' - End_ c
      end /\ gap_chain T rest
  end.

(** A chunk boundary after the first [k] rows of an owner: the chunks split
    into a front part that absorbed exactly those rows, and a rest. *)
Definition boundary_after (k : Z) (chunks : list WorkChunk) : Prop :=
  exists pre post,
    chunks = pre ++ post /\ pre <> [] /\ post <> []
    /\ Zsum (map Log_Count pre) = k.

(** The developers that pass the threshold on [chunks_df]. *)
Definition passes (chunks_df : list WorkChunk) (h : Q) (c : WorkChunk) : bool :=
  existsb (String.eqb (Developer c))
          (filter (fun u => Qle_bool h (dev_hours chunks_df u))
                  (unique_sorted (map Developer chunks_df))).

(** The order the specification asks of the summary of [chunks_df]: by
    descending total hours, the total of an owner being the sum of the hours
    of the owner's chunks, and by ascending owner among owners of equal
    total. *)
Definition total_hours_desc_owner_asc (chunks_df : list WorkChunk)
           (r1 r2 : SummaryRow) : Prop :=
  (dev_hours chunks_df (sm_Developer r2)
   < dev_hours chunks_df (sm_Developer r1))%Q
  \/ ((dev_hours chunks_df (sm_Developer r1)
       == dev_hours chunks_df (sm_Developer r2))%Q
      /\ String.ltb (sm_Developer r1) (sm_Developer r2) = true).

(** The keys of [groupby(['Date', 'Developer'])]. *)
Definition day_keys (chunks_df : list WorkChunk) : list (Z * string) :=
  stable_sort day_key_leb
    (nodup day_key_dec (map (fun c => (Date c, Developer c)) chunks_df)).

(** A cell of the daily pivot, from the chunks: the full-precision sum of
    the hours of one developer on one day, rounded. *)
Definition day_cell (chunks_df : list WorkChunk) (d : Z) (u : string) : Q :=
  round2 (Qsum (map Duration_hours (filter (in_day (d, u)) chunks_df))).

(** The day total that an independent full-precision sum would give. *)
Definition full_precision_day_total (chunks_df : list WorkChunk) (d : Z) : Q :=
  round2 (Qsum (map Duration_hours
                    (filter (fun c => Date c =? d) chunks_df))).

(** The developer total that an independent full-precision sum would give;
    it is the figure of the summary. *)
Definition full_precision_developer_total (chunks_df : list WorkChunk)
           (u : string) : Q :=
  round2 (dev_hours chunks_df u).

(** ** Further notions

    Predicates of the properties that go beyond the specification, the
    floats as they are stored, and the pivot sheets as they are held. *)

(** The order of the chunk frame: by developer, and for one developer a
    chunk ends before the next one starts. *)
Definition chunk_order (c1 c2 : WorkChunk) : Prop :=
  String.ltb (Developer c1) (Developer c2) = true
  \/ (Developer c1 = Developer c2 /\ End_ c1 <= Start c2).

(** An owner that has a chunk in a frame. *)
Definition has_chunks (chunks_df : list WorkChunk) (u : string) : bool :=
  existsb (String.eqb u) (map Developer chunks_df).

(** A whole number of hundredths. *)
Definition hundredths (y : Q) : Prop := exists k : Z, (y == k # 100)%Q.

(** [y] is [x] rounded to 2 decimals: a whole number of hundredths, half a
    hundredth away from [x] at most.  A value halfway between two
    hundredths may go either way. *)
Definition rounded_to_2 (x y : Q) : Prop :=
  hundredths y /\ (Qabs (y - x) <= 1 # 200)%Q.

(** ** The stored floats

    A whole number below 2^53 is a binary64 as it is, and the division of
    two such numbers returns the binary64 nearest to their quotient: this
    is what [duration.total_seconds() / 60] and [/ 3600] store. *)
Fixpoint binary64_of_pos (p : positive) : float :=
  match p with
  | xH => 1%float
  | xO p' => (2 * binary64_of_pos p')%float
  | xI p' => (2 * binary64_of_pos p' + 1)%float
  end.

Definition binary64_of_Z (z : Z) : float :=
  match z with
  | Z0 => 0%float
  | Zpos p => binary64_of_pos p
  | Zneg p => (- binary64_of_pos p)%float
  end.

(** The float that stores the quotient [Qnum q / Qden q]. *)
Definition binary64 (q : Q) : float :=
  (binary64_of_Z (Qnum q) / binary64_of_pos (Qden q))%float.

(** [numpy.rint] on a binary64 from 0 to 2^51: adding and taking away 2^52
    leaves the nearest whole number, a half going to the even side. *)
Definition np_rint (x : float) : float :=
  ((x + 4503599627370496) - 4503599627370496)%float.

(** [round(2)] as numpy carries it out on a binary64:
    [rint(x * 100) / 100]. *)
Definition np_round2 (x : float) : float := (np_rint (x * 100) / 100)%float.

(** ** The pivot sheets as they are held

    The column index of a pivot table is made of the developers' names, and
    [pivot_table['TOTAL'] = ...] writes the column of that name: it is added
    after the others when no developer bears it, and it replaces the column
    of a developer named TOTAL otherwise.  The row index is made of dates,
    which the label of the TOTAL row never equals. *)

(** [frame[label] = f] *)
Definition set_column {R} (label : string) (f : R -> Q) (p : Frame R string)
  : Frame R string :=
  {| index := index p;
     columns := if existsb (String.eqb label) (columns p)
                then columns p
                else columns p ++ [label];
     value := fun r c => if String.eqb c label then f r else value p r c |}.

(** [frame.loc['TOTAL'] = frame.sum(axis=0).round(2)] *)
Definition set_TOTAL_row (p : Frame Z string) : Frame row_label string :=
  {| index := map Day (index p) ++ [TOTAL_row];
     columns := columns p;
     value := fun r c =>
       match r with
       | Day d => value p d c
       | TOTAL_row => round2 (Qsum (map (fun d => value p d c) (index p)))
       end |}.

(** The two statements that add the totals to a pivot table. *)
Definition with_totals (pivot_table : Frame Z string)
  : Frame row_label string :=
  let pivot_table :=
    set_column "TOTAL"
      (fun d => round2 (Qsum (map (value pivot_table d)
                                  (columns pivot_table))))
      pivot_table in
  set_TOTAL_row pivot_table.

(** The sheet 'Pivot - Hours by Day', as it is held. *)
Definition sheet_hours_by_day (chunks_df : list WorkChunk)
  : Frame row_label string :=
  with_totals (pivot_table (pivot_by_day chunks_df)).

(** The daily pivot that [main] of [app.py] shows: the groups are summed and
    go to [pivot_table] unrounded, and no totals are added.  The frame
    there has the hours column only; [pivot_table] reads no other. *)
Definition app_pivot_table_by_day (chunks_df : list WorkChunk)
  : Frame Z string :=
  pivot_table (groupby_Date_Developer_agg chunks_df).

(** ** format_timedelta, the file names of export_csv, the sheet names of
    export_excel *)

(** [str(n)] on an integer. *)
Definition str_of_int (n : Z) : string := NilZero.string_of_int (Z.to_int n).

(** [int(x)] on a float: the whole part, the fraction cut off towards
    zero. *)
Definition int_of_float (x : Q) : Z := Z.quot (Qnum x) (Zpos (Qden x)).

(** [format_timedelta]; [None] is a missing value, [Some x] a duration of
    [x = td.total_seconds()] seconds. *)
Definition format_timedelta (td : option Q) : string :=
  match td with
  | None => EmptyString
  | Some x =>
      let total_seconds := int_of_float x in
      let hours := total_seconds / 3600 in
      let minutes := (total_seconds mod 3600) / 60 in
      (str_of_int hours ++ "h " ++ str_of_int minutes ++ "min")%string
  end.

(** [old in s] *)
Fixpoint str_in (old s : string) : bool :=
  String.prefix old s
  || match s with
     | EmptyString => false
     | String _ s' => str_in old s'
     end.

(** [s.replace(old, new)] for a non-empty [old]: left to right, each
    occurrence found is replaced and skipped. *)
Fixpoint replace_from (old new : string) (skip : nat) (s : string) : string :=
  match s with
  | EmptyString => EmptyString
  | String c s' =>
      match skip with
      | S k => replace_from old new k s'
      | O =>
          if String.prefix old s
          then (new ++ replace_from old new (String.length old - 1) s')%string
          else String c (replace_from old new 0 s')
      end
  end.

Definition str_replace (old new s : string) : string :=
  replace_from old new 0 s.

(** The two paths [export_csv] writes to. *)
Definition chunks_file (base_filename : string) : string :=
  str_replace ".txt" "_chunks.csv" base_filename.

Definition summary_file (base_filename : string) : string :=
  str_replace ".txt" "_summary.csv" base_filename.

(** [s.split('@')[0]] *)
Fixpoint before_at (s : string) : string :=
  match s with
  | EmptyString => EmptyString
  | String c s' =>
      if Ascii.eqb c "@" then EmptyString else String c (before_at s')
  end.

(** [s[:n]], on a string of one-byte characters. *)
Fixpoint str_take (n : nat) (s : string) : string :=
  match n, s with
  | S k, String c s' => String c (str_take k s')
  | _, _ => EmptyString
  end.

(** The name of a developer's sheet in [export_excel]. *)
Definition sheet_name (developer : string) : string :=
  str_take 31 (before_at developer).

(** ** find_log_files, load_logs and the files of main *)

(** How a run ends early: [sys.exit(code)], or the [IndexError] of
    [all_dfs[0]] on an empty list. *)
Inductive Stop := SystemExit (code : Z) | IndexError.

(** [find_log_files], from what the file system answers: whether the folder
    exists, whether it is a folder, and the two globs. *)
Definition find_log_files (path_exists path_is_dir : bool)
           (txt_files csv_files : list string) : Stop + list string :=
  if negb path_exists then inl (SystemExit 1)
  else if negb path_is_dir then inl (SystemExit 1)
  else
    let all_files := txt_files ++ csv_files in
    match all_files with
    | [] => inl (SystemExit 1)
    | _ => inr (stable_sort String.leb all_files)
    end.

(** The loop of [load_logs]: each file is read and tagged with its name; a
    file that cannot be read ends the run.  [read_csv] answers [None] when
    [pd.read_csv] raises; [Path_name] is [Path(p).name]. *)
Fixpoint load_each {R} (read_csv : string -> option (list R))
         (Path_name : string -> string) (file_paths : list string)
  : Stop + list (list (R * string)) :=
  match file_paths with
  | [] => inr []
  | file_path :: rest =>
      match read_csv file_path with
      | None => inl (SystemExit 1)
      | Some df =>
          match load_each read_csv Path_name rest with
          | inl e => inl e
          | inr all_dfs =>
              inr (map (fun r => (r, Path_name file_path)) df :: all_dfs)
          end
      end
  end.

Definition load_logs {R} (read_csv : string -> option (list R))
           (Path_name : string -> string) (file_paths : string + list string)
  : Stop + list (R * string) :=
  let file_paths :=
    match file_paths with inl p => [p] | inr l => l end in
  match load_each read_csv Path_name file_paths with
  | inl e => inl e
  | inr all_dfs =>
      match all_dfs with
      | [] => inl IndexError
      | [df] => inr df
      | _ => inr (concat all_dfs)
      end
  end.

(** The files [main] loads: those of the command line if any, else those
    found in the logs folder. *)
Definition files_to_process (input_files : list string)
           (found : Stop + list string) : Stop + list string :=
  match input_files with
  | [] => found
  | _ => inr input_files
  end.

(** ** The weekly pivot of export_excel

    The column [Week] is [Start.dt.strftime('%Y-W%U')]; the calendar behind
    it is the library's, and the pivot is modelled for any such labelling
    [Week] of timestamps. *)

(** [Start.dt.to_period('W').dt.start_time], as the day number of the
    Monday that opens the week of the chunk's date (day 0 is a Thursday). *)
Definition Week_Start (c : WorkChunk) : Z := Date c - (Date c + 3) mod 7.

(** A row of [pivot_by_week]. *)
Record WeekRow := {
  w_Week : string;
  w_Week_Start : Z;
  w_Developer : string;
  w_Duration_hours : Q;
  w_Log_Count : Z;
  w_Chunk_Count : Z
}.

Definition week_key_eqb (k1 k2 : string * Z * string) : bool :=
  String.eqb (fst (fst k1)) (fst (fst k2))
  && (snd (fst k1) =? snd (fst k2))
  && String.eqb (snd k1) (snd k2).

Definition week_key_leb (k1 k2 : string * Z * string) : bool :=
  match String.compare (fst (fst k1)) (fst (fst k2)) with
  | Lt => true
  | Gt => false
  | Eq => day_key_leb (snd (fst k1), snd k1) (snd (fst k2), snd k2)
  end.

Definition week_key_dec (k1 k2 : string * Z * string) : {k1 = k2} + {k1 <> k2}.
Proof.
  decide equality; [apply string_dec|].
  decide equality; [apply Z.eq_dec|apply string_dec].
Defined.

Definition week_key (Week : Z -> string) (c : WorkChunk)
  : string * Z * string :=
  (Week (Start c), Week_Start c, Developer c).

Definition in_week (Week : Z -> string) (k : string * Z * string)
           (c : WorkChunk) : bool :=
  week_key_eqb (week_key Week c) k.

(** [groupby(['Week', 'Week_Start', 'Developer']).agg({...}).reset_index()] *)
Definition groupby_Week_agg (Week : Z -> string) (chunks_df : list WorkChunk)
  : list WeekRow :=
  map (fun k =>
         let g := filter (in_week Week k) chunks_df in
         {| w_Week := fst (fst k);
            w_Week_Start := snd (fst k);
            w_Developer := snd k;
            w_Duration_hours := Qsum (map Duration_hours g);
            w_Log_Count := Zsum (map Log_Count g);
            w_Chunk_Count := Z.of_nat (length g) |})
      (stable_sort week_key_leb
         (nodup week_key_dec (map (week_key Week) chunks_df))).

Definition round_week (r : WeekRow) : WeekRow :=
  {| w_Week := w_Week r;
     w_Week_Start := w_Week_Start r;
     w_Developer := w_Developer r;
     w_Duration_hours := round2 (w_Duration_hours r);
     w_Log_Count := w_Log_Count r;
     w_Chunk_Count := w_Chunk_Count r |}.

(** [pivot_by_week], after [round(2)]. *)
Definition pivot_by_week (Week : Z -> string) (chunks_df : list WorkChunk)
  : list WeekRow :=
  map round_week (groupby_Week_agg Week chunks_df).

Definition in_week_cell (ws : Z) (u : string) (r : WeekRow) : bool :=
  (w_Week_Start r =? ws) && String.eqb (w_Developer r) u.

(** [pivot_by_week.pivot_table(index='Week_Start', columns='Developer',
    values='Duration (hours)', aggfunc='sum', fill_value=0).round(2)] *)
Definition pivot_table_week (rows : list WeekRow) : Frame Z string :=
  {| index := unique_sorted_Z (map w_Week_Start rows);
     columns := unique_sorted (map w_Developer rows);
     value := fun ws u =>
       round2 match filter (in_week_cell ws u) rows with
              | [] => 0%Q
              | g => Qsum (map w_Duration_hours g)
              end |}.

(** The sheet 'Pivot - Hours by Week', as it is held; the label [Day ws] of
    a row is the Monday [ws]. *)
Definition sheet_hours_by_week (Week : Z -> string)
           (chunks_df : list WorkChunk) : Frame row_label string :=
  with_totals (pivot_table_week (pivot_by_week Week chunks_df)).

(** The keys of the weekly groups. *)
Definition week_keys (Week : Z -> string) (chunks_df : list WorkChunk)
  : list (string * Z * string) :=
  stable_sort week_key_leb
    (nodup week_key_dec (map (week_key Week) chunks_df)).

(** The groups that make one cell of the weekly pivot. *)
Definition keys_of_week_cell (ws : Z) (u : string) (k : string * Z * string)
  : bool :=
  (snd (fst k) =? ws) && String.eqb (snd k) u.

(** The chunks that fall in one cell of the weekly pivot. *)
Definition in_week_of (ws : Z) (u : string) (c : WorkChunk) : bool :=
  (Week_Start c =? ws) && String.eqb (Developer c) u.

(** * Part II: the facts *)

(** ** Sorting *)

Section StableSortFacts.
Context {A : Type}.
Variable leb : A -> A -> bool.

Lemma insert_sorted_perm x l : Permutation (x :: l) (insert_sorted leb x l).
Proof.
  induction l as [|y l IH]; simpl; auto.
  destruct (leb x y); auto.
  rewrite perm_swap. now constructor.
Qed.

Lemma stable_sort_perm l : Permutation l (stable_sort leb l).
Proof.
  induction l as [|x l IH]; simpl; auto.
  rewrite <- insert_sorted_perm. now constructor.
Qed.

Lemma stable_sort_In x l : In x (stable_sort leb l) <-> In x l.
Proof.
  split; apply Permutation_in;
    [apply Permutation_sym|]; apply stable_sort_perm.
Qed.

Lemma stable_sort_length l : length (stable_sort leb l) = length l.
Proof. symmetry. apply Permutation_length, stable_sort_perm. Qed.

Hypothesis leb_total : forall x y, leb x y = true \/ leb y x = true.
Hypothesis leb_trans :
  forall x y z, leb x y = true -> leb y z = true -> leb x z = true.

Let le x y := leb x y = true.

Lemma insert_sorted_sorted x l :
  StronglySorted le l -> StronglySorted le (insert_sorted leb x l).
Proof.
  induction 1 as [|y l Hs IH Hall]; simpl.
  - repeat constructor.
  - destruct (leb x y) eqn:E.
    + constructor; [now constructor|].
      constructor; [exact E|].
      eapply Forall_impl; [|exact Hall].
      intros z Hz. now apply leb_trans with y.
    + constructor; [exact IH|].
      eapply Permutation_Forall; [apply insert_sorted_perm|].
      constructor; [|exact Hall].
      destruct (leb_total x y) as [H|H]; [congruence|exact H].
Qed.

Lemma stable_sort_sorted l : StronglySorted le (stable_sort leb l).
Proof.
  induction l as [|x l IH]; simpl; [constructor|].
  now apply insert_sorted_sorted.
Qed.

(** A list that is already in order is left as it is. *)
Lemma stable_sort_id l : StronglySorted le l -> stable_sort leb l = l.
Proof.
  induction 1 as [|x l Hs IH Hall]; simpl; auto.
  rewrite IH. destruct l as [|y l]; simpl; auto.
  inversion Hall as [|? ? Hxy _]; subst.
  unfold le in Hxy. now rewrite Hxy.
Qed.

End StableSortFacts.

(** Two ordered lists with the same elements are the same list, when the
    order is antisymmetric. *)
Lemma sorted_perm_unique {A} (R : A -> A -> Prop) :
  (forall x y, R x y -> R y x -> x = y) ->
  forall l1 l2, StronglySorted R l1 -> StronglySorted R l2 ->
                Permutation l1 l2 -> l1 = l2.
Proof.
  intros Hanti l1.
  induction l1 as [|a l1 IH]; intros l2 H1 H2 P.
  - apply Permutation_nil in P. now subst.
  - destruct l2 as [|b l2].
    + apply Permutation_sym, Permutation_nil in P. discriminate.
    + inversion H1 as [|? ? H1s H1a]; inversion H2 as [|? ? H2s H2a]; subst.
      assert (a = b) as ->.
      { assert (Ha : In a (b :: l2))
          by (eapply Permutation_in; [exact P|now left]).
        assert (Hb : In b (a :: l1))
          by (eapply Permutation_in; [apply Permutation_sym; exact P|now left]).
        destruct Ha as [Ha|Ha]; [now symmetry|].
        destruct Hb as [Hb|Hb]; [exact Hb|].
        rewrite Forall_forall in H1a, H2a. apply Hanti; auto. }
      f_equal. apply IH; auto.
      now apply Permutation_cons_inv in P.
Qed.

Lemma StronglySorted_filter {A} (R : A -> A -> Prop) (f : A -> bool) l :
  StronglySorted R l -> StronglySorted R (filter f l).
Proof.
  induction 1 as [|x l Hs IH Hall]; simpl; [constructor|].
  destruct (f x); auto.
  constructor; auto.
  rewrite Forall_forall in *. intros y Hy.
  apply filter_In in Hy. now apply Hall.
Qed.

Lemma StronglySorted_map {A B} (R : A -> A -> Prop) (S : B -> B -> Prop)
      (g : A -> B) l :
  (forall x y, In x l -> In y l -> R x y -> S (g x) (g y)) ->
  StronglySorted R l -> StronglySorted S (map g l).
Proof.
  intros Hg Hs. induction Hs as [|x l Hs IH Hall]; simpl; constructor.
  - apply IH. intros; apply Hg; simpl; auto.
  - rewrite Forall_forall in *. intros y Hy.
    apply in_map_iff in Hy as (z & <- & Hz).
    apply Hg; simpl; auto.
Qed.

Lemma StronglySorted_impl {A} (R S : A -> A -> Prop) l :
  (forall x y, R x y -> S x y) -> StronglySorted R l -> StronglySorted S l.
Proof.
  intros H. induction 1 as [|x l Hs IH Hall]; constructor; auto.
  eapply Forall_impl; [|exact Hall]. intros y. apply H.
Qed.

Lemma filter_perm {A} (f : A -> bool) l1 l2 :
  Permutation l1 l2 -> Permutation (filter f l1) (filter f l2).
Proof.
  induction 1 as [|x l1 l2 P IH|x y l|l1 l2 l3 P1 IH1 P2 IH2]; simpl.
  - constructor.
  - destruct (f x); auto.
  - destruct (f x), (f y); auto. apply perm_swap.
  - now transitivity (filter f l2).
Qed.

Lemma filter_all {A} (f : A -> bool) l :
  (forall x, In x l -> f x = true) -> filter f l = l.
Proof.
  induction l as [|x l IH]; simpl; intros H; auto.
  rewrite (H x) by now left. f_equal. apply IH. intros; apply H; now right.
Qed.

Lemma filter_filter_sub {A} (f g : A -> bool) l :
  (forall x, f x = true -> g x = true) ->
  filter f (filter g l) = filter f l.
Proof.
  intros H. induction l as [|x l IH]; simpl; auto.
  destruct (g x) eqn:G; simpl.
  - now rewrite IH.
  - destruct (f x) eqn:F; auto. rewrite (H x F) in G. discriminate.
Qed.

Lemma filter_map_comm {A B} (f : B -> bool) (g : A -> B) l :
  filter f (map g l) = map g (filter (fun x => f (g x)) l).
Proof.
  induction l as [|x l IH]; simpl; auto.
  destruct (f (g x)); simpl; now rewrite IH.
Qed.

(** ** The order on strings *)

Lemma String_compare_refl s : String.compare s s = Eq.
Proof.
  pose proof (String.compare_antisym s s) as H.
  destruct (String.compare s s); simpl in H; congruence.
Qed.

Lemma String_compare_lt_trans a b c :
  String.compare a b = Lt -> String.compare b c = Lt ->
  String.compare a c = Lt.
Proof.
  intros H1 H2.
  apply String_as_OT.cmp_lt. apply String_as_OT.cmp_lt in H1, H2.
  eapply String_as_OT.lt_trans; eassumption.
Qed.

Lemma String_leb_trans a b c :
  String.leb a b = true -> String.leb b c = true -> String.leb a c = true.
Proof.
  unfold String.leb. intros H1 H2.
  destruct (String.compare a b) eqn:E1; try discriminate;
    destruct (String.compare b c) eqn:E2; try discriminate.
  - apply String.compare_eq_iff in E1, E2. subst.
    now rewrite String_compare_refl.
  - apply String.compare_eq_iff in E1. subst. now rewrite E2.
  - apply String.compare_eq_iff in E2. subst. now rewrite E1.
  - now rewrite (String_compare_lt_trans _ _ _ E1 E2).
Qed.

(** ** Grouping rows by a key *)

Section GroupByFacts.
Context {A K : Type}.
Variable key : A -> K.
Variable eqb : K -> K -> bool.
Hypothesis eqb_spec : forall x y, reflect (x = y) (eqb x y).

Lemma group_key k l x : In x (group key eqb k l) -> key x = k.
Proof.
  unfold group. rewrite filter_In. intros [_ H].
  now destruct (eqb_spec (key x) k).
Qed.

Lemma group_absent k l : ~ In k (map key l) -> group key eqb k l = [].
Proof.
  induction l as [|x l IH]; simpl; auto.
  intros H. destruct (eqb_spec (key x) k) as [E|E].
  - exfalso. apply H. now left.
  - apply IH. intros H'. apply H. now right.
Qed.

Lemma flat_map_group_skip x l ks :
  ~ In (key x) ks ->
  flat_map (fun k => group key eqb k (x :: l)) ks
  = flat_map (fun k => group key eqb k l) ks.
Proof.
  induction ks as [|k ks IH]; simpl; auto.
  intros H. destruct (eqb_spec (key x) k) as [E|E].
  - exfalso. apply H. now left.
  - f_equal. apply IH. intros H'. apply H. now right.
Qed.

(** The groups of a frame, taken over all its keys, hold each row once. *)
Lemma groups_partition keys l :
  NoDup keys -> (forall x, In x l -> In (key x) keys) ->
  Permutation (flat_map (fun k => group key eqb k l) keys) l.
Proof.
  intros Hnd. induction l as [|x l IH]; intros Hin.
  - clear Hnd Hin. induction keys as [|k ks IHk]; simpl; auto.
  - destruct (in_split (key x) keys) as (ks1 & ks2 & E).
    { apply Hin. now left. }
    assert (Hnot : ~ In (key x) (ks1 ++ ks2)).
    { rewrite E in Hnd. now apply NoDup_remove_2 in Hnd. }
    assert (IH' : Permutation (flat_map (fun k => group key eqb k l) keys) l)
      by (apply IH; intros; apply Hin; now right).
    rewrite E in IH' |- *. rewrite flat_map_app in IH' |- *.
    cbn [flat_map] in IH' |- *.
    rewrite !flat_map_group_skip
      by (intros H; apply Hnot, in_or_app; tauto).
    assert (Hx : group key eqb (key x) (x :: l)
                 = x :: group key eqb (key x) l).
    { unfold group. simpl.
      destruct (eqb_spec (key x) (key x)) as [_|N]; [reflexivity|congruence]. }
    rewrite Hx. simpl.
    apply Permutation_sym, Permutation_cons_app, Permutation_sym, IH'.
Qed.

End GroupByFacts.

Lemma unique_sorted_In u l : In u (unique_sorted l) <-> In u l.
Proof. unfold unique_sorted. now rewrite stable_sort_In, nodup_In. Qed.

Lemma unique_sorted_NoDup l : NoDup (unique_sorted l).
Proof.
  unfold unique_sorted.
  eapply Permutation_NoDup; [apply stable_sort_perm|apply NoDup_nodup].
Qed.

Lemma unique_sorted_sorted l :
  StronglySorted (fun a b => String.leb a b = true) (unique_sorted l).
Proof.
  apply stable_sort_sorted; [apply String.leb_total|apply String_leb_trans].
Qed.

Lemma unique_sorted_same l1 l2 :
  (forall x, In x l1 <-> In x l2) -> unique_sorted l1 = unique_sorted l2.
Proof.
  intros H.
  apply (sorted_perm_unique (fun a b => String.leb a b = true)).
  - apply String.leb_antisym.
  - apply unique_sorted_sorted.
  - apply unique_sorted_sorted.
  - apply NoDup_Permutation; try apply unique_sorted_NoDup.
    intros u. now rewrite !unique_sorted_In.
Qed.

Lemma unique_sorted_perm l1 l2 :
  Permutation l1 l2 -> unique_sorted l1 = unique_sorted l2.
Proof.
  intros P. apply unique_sorted_same. intros u.
  split; apply Permutation_in; [|apply Permutation_sym]; exact P.
Qed.

Lemma unique_sorted_Z_In d l : In d (unique_sorted_Z l) <-> In d l.
Proof. unfold unique_sorted_Z. now rewrite stable_sort_In, nodup_In. Qed.

Lemma unique_sorted_Z_same l1 l2 :
  (forall x, In x l1 <-> In x l2) -> unique_sorted_Z l1 = unique_sorted_Z l2.
Proof.
  intros H.
  assert (Hs : forall l, StronglySorted (fun a b => Z.leb a b = true)
                                        (unique_sorted_Z l)).
  { intros l. apply stable_sort_sorted.
    - intros x y. rewrite !Z.leb_le. lia.
    - intros x y z. rewrite !Z.leb_le. lia. }
  assert (Hn : forall l, NoDup (unique_sorted_Z l)).
  { intros l. eapply Permutation_NoDup; [apply stable_sort_perm|].
    apply NoDup_nodup. }
  apply (sorted_perm_unique (fun a b => Z.leb a b = true)); auto.
  - intros x y. rewrite !Z.leb_le. lia.
  - apply NoDup_Permutation; auto.
    intros d. now rewrite !unique_sorted_Z_In.
Qed.

(** ** Rounding and sums of hours *)

Lemma Zsum_app l1 l2 : Zsum (l1 ++ l2) = Zsum l1 + Zsum l2.
Proof. induction l1; simpl; lia. Qed.

Lemma rint_comp x y : (x == y)%Q -> rint x = rint y.
Proof.
  intros E. unfold rint.
  rewrite (Qfloor_comp _ _ E).
  assert (E' : (x - inject_Z (Qfloor y) == y - inject_Z (Qfloor y))%Q)
    by now rewrite E.
  now rewrite (Qcompare_comp _ _ E' _ _ (Qeq_refl (1 # 2))).
Qed.

Lemma round2_comp x y : (x == y)%Q -> round2 x = round2 y.
Proof.
  intros E. unfold round2. f_equal. apply rint_comp. now rewrite E.
Qed.

Lemma rint_inject_Z z : rint (inject_Z z) = z.
Proof.
  unfold rint. rewrite Qfloor_Z.
  assert (E : (inject_Z z - inject_Z z ?= 1 # 2)%Q = Lt).
  { rewrite <- Qlt_alt. lra. }
  now rewrite E.
Qed.

Lemma round2_idem x : round2 (round2 x) = round2 x.
Proof.
  unfold round2 at 1 3. f_equal.
  transitivity (rint (inject_Z (rint (x * 100)))); [|apply rint_inject_Z].
  apply rint_comp. unfold round2, Qeq. simpl. lia.
Qed.

Lemma rint_error x : (Qabs (inject_Z (rint x) - x) <= 1 # 2)%Q.
Proof.
  pose proof (Qfloor_le x) as Hlo. pose proof (Qlt_floor x) as Hhi.
  rewrite inject_Z_plus in Hhi. change (inject_Z 1) with 1%Q in Hhi.
  apply Qabs_Qle_condition. unfold rint.
  destruct (Qcompare_spec (x - inject_Z (Qfloor x)) (1 # 2)) as [E|E|E].
  - destruct (Z.even (Qfloor x)).
    + split; lra.
    + rewrite inject_Z_plus. change (inject_Z 1) with 1%Q. split; lra.
  - split; lra.
  - rewrite inject_Z_plus. change (inject_Z 1) with 1%Q. split; lra.
Qed.

Lemma round2_error x : (Qabs (round2 x - x) <= 1 # 200)%Q.
Proof.
  pose proof (rint_error (x * 100)) as H.
  apply Qabs_Qle_condition in H. apply Qabs_Qle_condition.
  assert (E : (round2 x == inject_Z (rint (x * 100)) * (1 # 100))%Q).
  { unfold round2, Qeq. simpl. lia. }
  rewrite E. revert H. generalize (inject_Z (rint (x * 100))).
  intros r H. split; lra.
Qed.

Lemma hundredths_round2 x : hundredths (round2 x).
Proof. exists (rint (x * 100)). reflexivity. Qed.

(** The rounding of the embedding is one of those [rounded_to_2] allows. *)
Lemma round2_rounded x : rounded_to_2 x (round2 x).
Proof. split; [apply hundredths_round2|apply round2_error]. Qed.

Lemma hundredths_Qsum l : Forall hundredths l -> hundredths (Qsum l).
Proof.
  induction 1 as [|x l [kx Hx] _ [kl Hl]].
  - exists 0. reflexivity.
  - exists (kx + kl). cbn [Qsum fold_right]. fold (Qsum l).
    rewrite Hx, Hl. unfold Qeq, Qplus. simpl. lia.
Qed.

(** Rounding a whole number of hundredths changes nothing. *)
Lemma round2_hundredths y : hundredths y -> (round2 y == y)%Q.
Proof.
  intros [k E]. rewrite (round2_comp _ _ E). rewrite E.
  assert (H : rint ((k # 100) * 100) = k).
  { rewrite <- (rint_inject_Z k) at 2. apply rint_comp.
    unfold Qeq. simpl. lia. }
  unfold round2. rewrite H. reflexivity.
Qed.

Lemma Qsum_map_Qeq {A} (f g : A -> Q) l :
  (forall x, In x l -> (f x == g x)%Q) ->
  (Qsum (map f l) == Qsum (map g l))%Q.
Proof.
  induction l as [|x l IH]; intros H; [reflexivity|].
  cbn [map Qsum fold_right]. fold (Qsum (map f l)). fold (Qsum (map g l)).
  rewrite (H x) by now left. rewrite IH; [reflexivity|].
  intros y Hy. apply H. now right.
Qed.

Lemma Qsum_app l1 l2 : (Qsum (l1 ++ l2) == Qsum l1 + Qsum l2)%Q.
Proof.
  induction l1 as [|x l1 IH]; simpl; [lra|]. rewrite IH. lra.
Qed.

Lemma Qsum_perm l1 l2 : Permutation l1 l2 -> (Qsum l1 == Qsum l2)%Q.
Proof.
  induction 1 as [|x l1 l2 P IH|x y l|l1 l2 l3 P1 IH1 P2 IH2]; simpl.
  - reflexivity.
  - now rewrite IH.
  - lra.
  - now rewrite IH1.
Qed.

Lemma Qsum_flat_map {A} (f : A -> list Q) l :
  (Qsum (flat_map f l) == Qsum (map (fun k => Qsum (f k)) l))%Q.
Proof.
  induction l as [|k l IH]; simpl; [reflexivity|].
  now rewrite Qsum_app, IH.
Qed.

Lemma Qsum_map_flat_map {A B} (f : B -> Q) (g : A -> list B) l :
  (Qsum (map f (flat_map g l)) == Qsum (map (fun k => Qsum (map f (g k))) l))%Q.
Proof.
  induction l as [|k l IH]; simpl; [reflexivity|].
  now rewrite map_app, Qsum_app, IH.
Qed.

Lemma round_error_sum {A} (f : A -> Q) l :
  (Qabs (Qsum (map (fun k => round2 (f k)) l) - Qsum (map f l))
   <= inject_Z (Z.of_nat (length l)) * (1 # 200))%Q.
Proof.
  apply Qabs_Qle_condition.
  induction l as [|k l IH].
  - simpl. split; discriminate.
  - cbn [map Qsum fold_right length]. fold (Qsum (map f l)).
    fold (Qsum (map (fun k => round2 (f k)) l)).
    rewrite Nat2Z.inj_succ, <- Z.add_1_r, inject_Z_plus.
    change (inject_Z 1) with 1%Q.
    pose proof (round2_error (f k)) as Hk.
    apply Qabs_Qle_condition in Hk.
    revert IH Hk.
    generalize (Qsum (map (fun k => round2 (f k)) l)) (Qsum (map f l))
               (round2 (f k)) (f k) (inject_Z (Z.of_nat (length l))).
    intros S1 S2 r x n IH Hk. split; lra.
Qed.

(** ** The floats against the quotients

    Two places where the last bit of a binary64 shows.  What is stated
    below of rounded figures, and of the owners the filter keeps, is stated
    so that it holds on either side of them. *)

(** A half at the second decimal: 1962 seconds are 0.545 hours.  The
    binary64 nearest to it lies above, and numpy rounds it to 0.55; the
    quotient itself is halfway, and a half taken to the even side gives
    0.54.  Either figure is the quotient rounded to 2 decimals. *)
Example a_half_goes_either_way :
  round2 (1962 # 3600) = (54 # 100)%Q
  /\ PrimFloat.eqb (np_round2 (binary64 (1962 # 3600))) (binary64 (55 # 100))
     = true
  /\ rounded_to_2 (1962 # 3600) (54 # 100)
  /\ rounded_to_2 (1962 # 3600) (55 # 100).
Proof.
  split; [reflexivity|]. split; [vm_compute; reflexivity|].
  split; (split; [eexists; reflexivity|vm_compute; discriminate]).
Qed.

(** A total at the threshold: chunks of 4 and of 356 seconds make a tenth
    of an hour, and their floats add up to less than the float of 0.1; the
    floats of two chunks of 180 seconds add up to it. *)
Example a_total_at_the_threshold :
  ((4 # 3600) + (356 # 3600) == 1 # 10)%Q
  /\ PrimFloat.ltb (binary64 (4 # 3600) + binary64 (356 # 3600))%float
                   (binary64 (1 # 10))
     = true
  /\ PrimFloat.leb (binary64 (1 # 10))
                   (binary64 (180 # 3600) + binary64 (180 # 3600))%float
     = true.
Proof.
  split; [reflexivity|]. split; vm_compute; reflexivity.
Qed.

(** ** The two examples of the specification *)

Example spec_example_a :
  process_work_chunks
    [ row "a" (at_time 9 0) "";
      row "a" (at_time 9 10) "";
      row "a" (at_time 10 5) "" ]
    30
  = [ make_chunk "a" (at_time 9 0) (at_time 9 10) 2 (Some (3300 # 60)%Q);
      make_chunk "a" (at_time 10 5) (at_time 10 5) 1 None ].
Proof. reflexivity. Qed.

Example spec_example_b :
  process_work_chunks
    [ row "b" (at_time 9 58) "";
      row "b" (at_time 9 0) "";
      {| User := None; DateTime := at_time 9 15; source_file := "" |};
      row "b" (at_time 9 29) "" ]
    30
  = [ make_chunk "b" (at_time 9 0) (at_time 9 58) 3 None ].
Proof. reflexivity. Qed.

(** ** The loops of process_work_chunks, unfolded *)

Lemma fold_scan_row T u ts : forall s e n chunks,
  (let '(cur, chunks') :=
     fold_left (scan_row T u) ts (Some (s, e, n), chunks) in
   match cur with
   | Some (s', e', n') => chunks' ++ [make_chunk u s' e' n' None]
   | None => chunks'
   end) = chunks ++ close_from T u s e n ts.
Proof.
  induction ts as [|t ts IH]; intros s e n chunks; simpl.
  - reflexivity.
  - destruct (t - e >? T).
    + rewrite IH. now rewrite <- app_assoc.
    + apply IH.
Qed.

Lemma scan_user_segment T chunks u user_logs :
  scan_user T chunks (u, user_logs)
  = chunks ++ segment T u (map DateTime user_logs).
Proof.
  unfold scan_user. destruct user_logs as [|r rs]; simpl.
  - now rewrite app_nil_r.
  - apply fold_scan_row.
Qed.

Lemma fold_scan_user T (g : string -> list Event) keys : forall chunks,
  fold_left (scan_user T) (map (fun u => (u, g u)) keys) chunks
  = chunks ++ flat_map (fun u => segment T u (map DateTime (g u))) keys.
Proof.
  induction keys as [|k keys IH]; intros chunks; cbn [map fold_left flat_map].
  - now rewrite app_nil_r.
  - rewrite scan_user_segment, IH. now rewrite app_assoc.
Qed.

Lemma process_work_chunks_flat df m :
  process_work_chunks df m
  = flat_map (fun u => segment (60 * m) u (user_times df u)) (owners df).
Proof.
  unfold process_work_chunks, groupby_User.
  now rewrite fold_scan_user.
Qed.

Lemma close_from_Developer T u ts : forall s e n c,
  In c (close_from T u s e n ts) -> Developer c = u.
Proof.
  induction ts as [|t ts IH]; intros s e n c; simpl.
  - intros [<-|[]]. reflexivity.
  - destruct (t - e >? T); simpl; [intros [<-|H]|intros H]; eauto.
Qed.

Lemma segment_Developer T u ts c : In c (segment T u ts) -> Developer c = u.
Proof. destruct ts; simpl; [tauto|apply close_from_Developer]. Qed.

Lemma chunks_of_all u l :
  (forall c, In c l -> Developer c = u) -> chunks_of u l = l.
Proof.
  induction l as [|c l IH]; simpl; intros H; auto.
  rewrite (H c) by now left. rewrite String.eqb_refl.
  f_equal. apply IH. intros; apply H; now right.
Qed.

Lemma chunks_of_none u l :
  (forall c, In c l -> Developer c <> u) -> chunks_of u l = [].
Proof.
  induction l as [|c l IH]; simpl; intros H; auto.
  destruct (String.eqb_spec (Developer c) u) as [E|E].
  - exfalso. apply (H c); auto.
  - apply IH. intros; apply H; now right.
Qed.

Lemma chunks_of_app u l1 l2 :
  chunks_of u (l1 ++ l2) = chunks_of u l1 ++ chunks_of u l2.
Proof. apply filter_app. Qed.

Lemma chunks_of_flat_map u (f : string -> list WorkChunk) keys :
  (forall k c, In c (f k) -> Developer c = k) ->
  NoDup keys ->
  chunks_of u (flat_map f keys) = if in_dec string_dec u keys then f u else [].
Proof.
  intros Hf. induction keys as [|k keys IH]; intros Hnd; simpl; auto.
  inversion Hnd as [|? ? Hk Hnd']; subst.
  rewrite chunks_of_app, IH by exact Hnd'.
  destruct (string_dec k u) as [->|N].
  - rewrite chunks_of_all by (intros; eapply Hf; eauto).
    destruct (in_dec string_dec u keys); [contradiction|apply app_nil_r].
  - rewrite chunks_of_none.
    + simpl. destruct (in_dec string_dec u keys); reflexivity.
    + intros c Hc E. apply N. rewrite <- E. symmetry. eapply Hf; eauto.
Qed.

Lemma User_column_In u df :
  In u (User_column df) <-> exists e, In e df /\ User e = Some u.
Proof.
  unfold User_column. rewrite in_flat_map. split.
  - intros (e & He & Hu). exists e. split; auto.
    destruct (User e); simpl in Hu; [|tauto].
    destruct Hu as [->|[]]. reflexivity.
  - intros (e & He & Hu). exists e. split; auto. rewrite Hu. now left.
Qed.

Lemma has_User_true u e : has_User u e = true <-> User e = Some u.
Proof.
  unfold has_User. destruct (User e) as [v|].
  - rewrite String.eqb_eq. split; congruence.
  - split; discriminate.
Qed.

Lemma user_times_absent df u : ~ In u (owners df) -> user_times df u = [].
Proof.
  unfold owners, user_times. rewrite unique_sorted_In, User_column_In.
  intros H.
  assert (E : filter (has_User u) (sorted_valid df) = []).
  { induction (sorted_valid df) as [|e l IH]; simpl; auto.
    destruct (has_User u e) eqn:Eu.
    - exfalso. apply H. exists e. split; [now left|].
      now apply has_User_true.
    - apply IH. intros (e' & He' & Hu). apply H. exists e'. split; auto.
      now right. }
  now rewrite E.
Qed.

(** The chunks of one owner in the output are the scan of that owner's
    rows. *)
Lemma chunks_of_process df m u :
  chunks_of u (process_work_chunks df m)
  = segment (60 * m) u (user_times df u).
Proof.
  rewrite process_work_chunks_flat, chunks_of_flat_map.
  - destruct (in_dec string_dec u (owners df)) as [H|H]; auto.
    now rewrite (user_times_absent _ _ H).
  - intros k c. apply segment_Developer.
  - apply unique_sorted_NoDup.
Qed.

Lemma process_work_chunks_In df m c :
  In c (process_work_chunks df m) ->
  In c (segment (60 * m) (Developer c) (user_times df (Developer c))).
Proof.
  rewrite process_work_chunks_flat, in_flat_map.
  intros (u & _ & Hc).
  now rewrite (segment_Developer _ _ _ _ Hc).
Qed.

(** ** The sorted frame *)

Lemma User_compare_antisym a b :
  User_compare a b = CompOpp (User_compare b a).
Proof.
  destruct a, b; simpl; auto. apply String.compare_antisym.
Qed.

Lemma User_compare_eq a b : User_compare a b = Eq -> a = b.
Proof.
  destruct a, b; simpl; try discriminate; auto.
  intros H. f_equal. now apply String.compare_eq_iff.
Qed.

Lemma User_compare_refl a : User_compare a a = Eq.
Proof. destruct a; simpl; auto. apply String_compare_refl. Qed.

Lemma User_compare_lt_trans a b c :
  User_compare a b = Lt -> User_compare b c = Lt -> User_compare a c = Lt.
Proof.
  destruct a, b, c; simpl; try discriminate; auto.
  apply String_compare_lt_trans.
Qed.

Lemma row_leb_total e1 e2 : row_leb e1 e2 = true \/ row_leb e2 e1 = true.
Proof.
  unfold row_leb. rewrite (User_compare_antisym (User e2)).
  destruct (User_compare (User e1) (User e2)); simpl; auto.
  rewrite !Z.leb_le. lia.
Qed.

Lemma row_leb_trans e1 e2 e3 :
  row_leb e1 e2 = true -> row_leb e2 e3 = true -> row_leb e1 e3 = true.
Proof.
  unfold row_leb.
  destruct (User_compare (User e1) (User e2)) eqn:E12; try discriminate;
    destruct (User_compare (User e2) (User e3)) eqn:E23; try discriminate;
    intros H1 H2.
  - apply User_compare_eq in E12, E23. rewrite E12, E23, User_compare_refl.
    rewrite Z.leb_le in *. lia.
  - apply User_compare_eq in E12. now rewrite E12, E23.
  - apply User_compare_eq in E23. now rewrite <- E23, E12.
  - now rewrite (User_compare_lt_trans _ _ _ E12 E23).
Qed.

Lemma sorted_valid_sorted df :
  StronglySorted (fun x y => row_leb x y = true) (sorted_valid df).
Proof.
  apply stable_sort_sorted; [apply row_leb_total|apply row_leb_trans].
Qed.

Lemma sorted_valid_perm df :
  Permutation (filter valid_User df) (sorted_valid df).
Proof. apply stable_sort_perm. Qed.

Lemma sorted_valid_valid df e : In e (sorted_valid df) -> valid_User e = true.
Proof.
  intros H. apply (Permutation_in _ (Permutation_sym (sorted_valid_perm df))) in H.
  now apply filter_In in H.
Qed.

(** The times of one owner come out in ascending order. *)
Lemma user_times_sorted df u : StronglySorted Z.le (user_times df u).
Proof.
  unfold user_times.
  apply StronglySorted_map with (R := fun x y => row_leb x y = true).
  - intros x y Hx Hy. apply filter_In in Hx as [_ Hx], Hy as [_ Hy].
    apply has_User_true in Hx, Hy. unfold row_leb.
    rewrite Hx, Hy, User_compare_refl. apply Z.leb_le.
  - apply StronglySorted_filter, sorted_valid_sorted.
Qed.

(** Only the multiset of rows matters to what the loops read. *)
Lemma user_times_perm df1 df2 u :
  Permutation df1 df2 -> user_times df1 u = user_times df2 u.
Proof.
  intros P.
  apply (sorted_perm_unique Z.le);
    [intros; lia|apply user_times_sorted|apply user_times_sorted|].
  unfold user_times. apply Permutation_map, filter_perm.
  rewrite <- !sorted_valid_perm. now apply filter_perm.
Qed.

Lemma owners_perm df1 df2 : Permutation df1 df2 -> owners df1 = owners df2.
Proof.
  intros P. unfold owners, User_column. apply unique_sorted_perm.
  apply Permutation_flat_map.
  rewrite <- !sorted_valid_perm. now apply filter_perm.
Qed.

Lemma user_groups_partition df :
  Permutation
    (flat_map (fun u => filter (has_User u) (sorted_valid df)) (owners df))
    (sorted_valid df).
Proof.
  assert (E : flat_map (fun u => filter (has_User u) (sorted_valid df))
                       (owners df)
              = flat_map (fun k => group user_key String.eqb k (sorted_valid df))
                         (owners df)).
  { apply flat_map_ext. intros u. unfold group. apply filter_ext_in.
    intros e He. apply sorted_valid_valid in He. unfold valid_User in He.
    unfold has_User, user_key. destruct (User e); [reflexivity|discriminate]. }
  rewrite E. apply groups_partition.
  - apply String.eqb_spec.
  - apply unique_sorted_NoDup.
  - intros e He. unfold owners. rewrite unique_sorted_In, User_column_In.
    exists e. split; auto.
    apply sorted_valid_valid in He. unfold valid_User in He.
    unfold user_key. destruct (User e); [reflexivity|discriminate].
Qed.

(** ** What the scan produces *)

Lemma close_from_head T u ts : forall s e n,
  exists c rest, close_from T u s e n ts = c :: rest
                 /\ Start c = s /\ n <= Log_Count c.
Proof.
  induction ts as [|t ts IH]; intros s e n; simpl.
  - eexists _, _. split; [reflexivity|]. simpl. lia.
  - destruct (t - e >? T).
    + eexists _, _. split; [reflexivity|]. simpl. lia.
    + destruct (IH s t (n + 1)) as (c & rest & E & Hs & Hn).
      exists c, rest. repeat split; auto. lia.
Qed.

Lemma close_from_nonempty T u s e n ts : close_from T u s e n ts <> [].
Proof.
  destruct (close_from_head T u ts s e n) as (c & rest & E & _).
  rewrite E. discriminate.
Qed.

Lemma close_from_counts T u ts : forall s e n,
  Zsum (map Log_Count (close_from T u s e n ts)) = n + Z.of_nat (length ts).
Proof.
  induction ts as [|t ts IH]; intros s e n; simpl length; simpl close_from.
  - simpl. lia.
  - destruct (t - e >? T); simpl; rewrite IH; lia.
Qed.

Lemma segment_counts T u ts :
  Zsum (map Log_Count (segment T u ts)) = Z.of_nat (length ts).
Proof.
  destruct ts as [|t ts]; [reflexivity|].
  simpl segment. rewrite close_from_counts. simpl length. lia.
Qed.

Lemma close_from_count_pos T u ts : forall s e n c,
  0 < n -> In c (close_from T u s e n ts) -> 0 < Log_Count c.
Proof.
  induction ts as [|t ts IH]; intros s e n c Hn; simpl.
  - intros [<-|[]]. exact Hn.
  - destruct (t - e >? T); simpl.
    + intros [<-|H]; [exact Hn|]. apply (IH t t 1); auto. lia.
    + apply IH. lia.
Qed.

(** With the rows in ascending order a chunk never ends before it starts. *)
Lemma close_from_span T u ts : forall s e n c,
  s <= e -> StronglySorted Z.le (e :: ts) ->
  In c (close_from T u s e n ts) -> Start c <= End_ c.
Proof.
  induction ts as [|t ts IH]; intros s e n c Hse Hs; simpl.
  - intros [<-|[]]. exact Hse.
  - inversion Hs as [|? ? Hs' Hall]; subst.
    inversion Hall as [|? ? Het _]; subst.
    destruct (t - e >? T); simpl.
    + intros [<-|H]; [exact Hse|]. apply (IH t t 1); auto. lia.
    + apply IH; auto. lia.
Qed.

Lemma close_from_fields T u ts : forall s e n c,
  In c (close_from T u s e n ts) ->
  Duration_min c = total_seconds_div (End_ c - Start c) 60
  /\ Duration_hours c = total_seconds_div (End_ c - Start c) 3600.
Proof.
  induction ts as [|t ts IH]; intros s e n c; simpl.
  - intros [<-|[]]. split; reflexivity.
  - destruct (t - e >? T); simpl; [intros [<-|H]|intros H]; eauto.
Qed.

Lemma close_from_gap_chain T u ts : forall s e n,
  gap_chain T (close_from T u s e n ts).
Proof.
  induction ts as [|t ts IH]; intros s e n; simpl close_from.
  - simpl. auto.
  - destruct (t - e >? T) eqn:G; [|apply IH].
    specialize (IH t t 1).
    destruct (close_from_head T u ts t t 1) as (c & rest & E & Hs & _).
    rewrite E in *. cbn [gap_chain]. split; [|exact IH].
    simpl. rewrite Hs. split; [reflexivity|]. now apply Z.gtb_lt in G.
Qed.

Lemma gap_chain_split T pre : forall c post,
  gap_chain T (pre ++ c :: post) ->
  match post with
  | [] => Gap_to_Next c = None
  | c' :: _ =>
      Gap_to_Next c = Some (total_seconds_div (Start c' - End_ c) 60)
      /\ T < Start c' - End_ c
  end.
Proof.
  induction pre as [|p pre IH]; intros c post H.
  - simpl in H. tauto.
  - apply IH. change ((p :: pre) ++ c :: post) with (p :: (pre ++ c :: post)) in H.
    cbn [gap_chain] in H. tauto.
Qed.

Lemma prefix_count_lower (l pre post : list WorkChunk) c rest :
  l = c :: rest -> (forall x, In x l -> 0 < Log_Count x) ->
  l = pre ++ post -> pre <> [] ->
  Log_Count c <= Zsum (map Log_Count pre).
Proof.
  intros E Hpos Epp Hne. destruct pre as [|p pre]; [congruence|].
  rewrite E in Epp. injection Epp as <- Er.
  assert (H : forall q, (forall x, In x q -> 0 < Log_Count x) ->
                        0 <= Zsum (map Log_Count q)).
  { induction q as [|x q IHq]; simpl; intros Hq; [lia|].
    specialize (Hq x (or_introl eq_refl)) as Hx.
    assert (0 <= Zsum (map Log_Count q)) by (apply IHq; intros; apply Hq; now right).
    lia. }
  simpl. specialize (H pre). 
  assert (0 <= Zsum (map Log_Count pre)).
  { apply H. intros x Hx. apply Hpos. rewrite E, Er. right.
    apply in_or_app. now left. }
  lia.
Qed.

Lemma close_from_boundary T u ts : forall s e n k,
  0 < n ->
  boundary_after (n + Z.of_nat k) (close_from T u s e n ts)
  <-> (k < length ts)%nat /\ T < nth (S k) (e :: ts) 0 - nth k (e :: ts) 0.
Proof.
  induction ts as [|t ts IH]; intros s e n k Hn.
  - split.
    + intros (pre & post & E & Hpre & Hpost & _). exfalso.
      simpl in E. destruct pre as [|p pre]; [congruence|].
      injection E as _ E. symmetry in E. apply app_eq_nil in E as [_ E].
      congruence.
    + simpl. intros [H _]. lia.
  - simpl close_from. destruct (t - e >? T) eqn:G.
    + apply Z.gtb_lt in G. split.
      * intros (pre & post & E & Hpre & Hpost & Hsum).
        destruct pre as [|p pre]; [congruence|].
        injection E as <- E. simpl in Hsum.
        destruct k as [|k].
        -- simpl. split; lia.
        -- assert (Hb : boundary_after (1 + Z.of_nat k) (close_from T u t t 1 ts)).
           { exists pre, post. refine (conj E (conj _ (conj Hpost _))); [|lia].
             intros ->. simpl in Hsum. lia. }
           apply IH in Hb as [Hk Hg]; [|lia].
           split; [simpl; lia|exact Hg].
      * intros [Hk Hg]. destruct k as [|k].
        -- eexists [_], _. split; [reflexivity|].
           refine (conj _ (conj _ _));
             [discriminate|apply close_from_nonempty|simpl; lia].
        -- assert (Hb : boundary_after (1 + Z.of_nat k) (close_from T u t t 1 ts)).
           { apply IH; [lia|]. split; [simpl in Hk; lia|exact Hg]. }
           destruct Hb as (pre & post & E & Hpre & Hpost & Hsum).
           eexists (_ :: pre), post. rewrite E.
           split; [reflexivity|].
           refine (conj _ (conj Hpost _)); [discriminate|simpl; lia].
    + assert (G' : t - e <= T).
      { destruct (Z.gtb_spec (t - e) T); [discriminate|lia]. }
      destruct k as [|k].
      * split.
        -- intros (pre & post & E & Hpre & Hpost & Hsum). exfalso.
           destruct (close_from_head T u ts s t (n + 1)) as (c & rest & Ec & _ & Hc).
           pose proof (prefix_count_lower _ pre post c rest Ec) as Hlow.
           assert (Log_Count c <= Zsum (map Log_Count pre)).
           { apply Hlow; auto. intros x Hx.
             apply (close_from_count_pos T u ts s t (n + 1)); [lia|exact Hx]. }
           simpl in Hsum. lia.
        -- simpl. intros [_ H]. lia.
      * replace (n + Z.of_nat (S k)) with (n + 1 + Z.of_nat k) by lia.
        rewrite IH by lia. simpl length.
        change (nth (S (S k)) (e :: t :: ts) 0) with (nth (S k) (t :: ts) 0).
        change (nth (S k) (e :: t :: ts) 0) with (nth k (t :: ts) 0).
        split; intros [H1 H2]; split; auto; lia.
Qed.

Lemma segment_boundary T u ts k :
  boundary_after (1 + Z.of_nat k) (segment T u ts)
  <-> (S k < length ts)%nat /\ T < nth (S k) ts 0 - nth k ts 0.
Proof.
  destruct ts as [|t ts].
  - split.
    + intros (pre & post & E & Hpre & _). exfalso.
      simpl in E. symmetry in E. apply app_eq_nil in E as [E _]. congruence.
    + simpl. intros [H _]. lia.
  - simpl segment. rewrite close_from_boundary by lia.
    simpl length. split; intros [H1 H2]; split; auto; lia.
Qed.

(** Rows of one owner that are each exactly one threshold after the one
    before end up in a single chunk. *)
Lemma close_from_threshold_spaced T u n : forall s e c,
  close_from T u s e c (map (fun k => e + T * Z.of_nat k) (seq 1 n))
  = [make_chunk u s (e + T * Z.of_nat n) (c + Z.of_nat n) None].
Proof.
  induction n as [|n IH]; intros s e c.
  - simpl. do 2 f_equal; lia.
  - cbn [seq map close_from].
    replace (e + T * Z.of_nat 1 - e >? T) with false
      by (symmetry; rewrite Z.gtb_ltb; apply Z.ltb_ge; lia).
    rewrite <- seq_shift, map_map.
    erewrite map_ext; [rewrite (IH s (e + T * Z.of_nat 1) (c + 1))|].
    + f_equal. f_equal; lia.
    + intros k. simpl. lia.
Qed.

Lemma threshold_spaced_one_chunk df m u t0 n :
  user_times df u = map (fun k => t0 + 60 * m * Z.of_nat k) (seq 0 (S n)) ->
  chunks_of u (process_work_chunks df m)
  = [make_chunk u t0 (t0 + 60 * m * Z.of_nat n) (1 + Z.of_nat n) None].
Proof.
  intros E. rewrite chunks_of_process, E. cbn [seq map segment].
  replace (t0 + 60 * m * Z.of_nat 0) with t0 by lia.
  apply close_from_threshold_spaced.
Qed.

Lemma Zsum_flat_map_length {A} (f : A -> list WorkChunk) (g : A -> list Event) l :
  (forall k, Zsum (map Log_Count (f k)) = Z.of_nat (length (g k))) ->
  Zsum (map Log_Count (flat_map f l)) = Z.of_nat (length (flat_map g l)).
Proof.
  intros H. induction l as [|k l IH]; simpl; auto.
  rewrite map_app, Zsum_app, length_app, H, IH. lia.
Qed.

(** ** Segmentation: the settled properties *)

(** C1. For every owner and every two consecutive rows [a], [b] of the
    owner's sorted rows, a chunk boundary falls between them if and only if
    [b - a] is strictly greater than the threshold; when the gap equals the
    threshold the two rows stay in one chunk. *)
Theorem C1_new_chunk_iff_gap_exceeds_threshold :
  forall df m u l1 a b l2,
    user_times df u = l1 ++ a :: b :: l2 ->
    (boundary_after (1 + Z.of_nat (length l1))
                    (chunks_of u (process_work_chunks df m))
     <-> 60 * m < b - a)
    /\ (b - a = 60 * m ->
        ~ boundary_after (1 + Z.of_nat (length l1))
                         (chunks_of u (process_work_chunks df m))).
Proof.
  intros df m u l1 a b l2 E.
  assert (Hiff : boundary_after (1 + Z.of_nat (length l1))
                   (chunks_of u (process_work_chunks df m))
                 <-> 60 * m < b - a).
  { rewrite chunks_of_process, E, segment_boundary.
    rewrite nth_middle.
    replace (l1 ++ a :: b :: l2) with ((l1 ++ [a]) ++ b :: l2)
      by now rewrite <- app_assoc.
    replace (S (length l1)) with (length (l1 ++ [a]))
      by (rewrite length_app; simpl; lia).
    rewrite nth_middle. rewrite !length_app. simpl length.
    split; [tauto|]. intros H. split; [lia|exact H]. }
  split; [exact Hiff|].
  intros Heq Hb. apply Hiff in Hb. lia.
Qed.

Lemma C1_witness :
  user_times [row "a" 3601 ""; row "a" 0 ""; row "a" 1800 ""] "a"
  = [] ++ 0 :: 1800 :: [3601]
  /\ ((boundary_after (1 + Z.of_nat (length (@nil Z)))
         (chunks_of "a" (process_work_chunks
            [row "a" 3601 ""; row "a" 0 ""; row "a" 1800 ""] 30))
       <-> 60 * 30 < 1800 - 0)
      /\ (1800 - 0 = 60 * 30 ->
          ~ boundary_after (1 + Z.of_nat (length (@nil Z)))
              (chunks_of "a" (process_work_chunks
                 [row "a" 3601 ""; row "a" 0 ""; row "a" 1800 ""] 30)))).
Proof.
  split; [reflexivity|].
  apply (C1_new_chunk_iff_gap_exceeds_threshold
           [row "a" 3601 ""; row "a" 0 ""; row "a" 1800 ""] 30 "a"
           [] 0 1800 [3601]).
  reflexivity.
Defined.

(** A gap one second above the threshold does open a chunk. *)
Example boundary_after_example :
  boundary_after 2
    (chunks_of "a" (process_work_chunks
       [row "a" 3601 ""; row "a" 0 ""; row "a" 1800 ""] 30)).
Proof.
  exists [make_chunk "a" 0 1800 2 (Some (1801 # 60)%Q)],
         [make_chunk "a" 3601 3601 1 None].
  repeat split; discriminate.
Qed.

Lemma StronglySorted_middle {A} (R : A -> A -> Prop) pre : forall c post,
  StronglySorted R (pre ++ c :: post) ->
  Forall (fun p => R p c) pre /\ Forall (R c) post.
Proof.
  induction pre as [|p pre IH]; intros c post H; simpl in H.
  - inversion H; subst. split; [constructor|assumption].
  - inversion H as [|? ? Hs Hall]; subst.
    destruct (IH _ _ Hs) as [H1 H2]. split; [|exact H2].
    constructor; [|exact H1].
    rewrite Forall_forall in Hall. apply Hall.
    apply in_or_app. right. now left.
Qed.

(** With a threshold that is not negative, and chunks that do not end
    before they start, the chain of gaps puts the chunks in chronological
    order: a chunk ends before every later one starts. *)
Lemma gap_chain_chronological T l :
  0 <= T -> gap_chain T l ->
  Forall (fun c => Start c <= End_ c) l ->
  StronglySorted (fun c1 c2 => End_ c1 < Start c2) l.
Proof.
  intros HT. induction l as [|c rest IH]; intros Hg Hspan; [constructor|].
  cbn [gap_chain] in Hg. destruct Hg as [Hc Hg].
  inversion Hspan as [|? ? Hc0 Hrest]; subst.
  specialize (IH Hg Hrest). constructor; [exact IH|].
  destruct rest as [|c' rest']; [constructor|].
  destruct Hc as [_ Hlt].
  inversion IH as [|? ? _ Hall]; subst.
  inversion Hrest as [|? ? Hc' _]; subst.
  constructor; [lia|].
  eapply Forall_impl; [|exact Hall]. cbn beta. intros x Hx. lia.
Qed.

Lemma segment_span T u ts :
  StronglySorted Z.le ts ->
  Forall (fun c => Start c <= End_ c) (segment T u ts).
Proof.
  intros Hs. apply Forall_forall. intros c Hc.
  destruct ts as [|t ts]; [destruct Hc|]. simpl in Hc.
  eapply close_from_span; [|exact Hs|exact Hc]. lia.
Qed.

(** C2. With a positive threshold, the chunks of one owner come out in
    chronological order: a chunk does not end before it starts, every chunk
    before it in the output has ended before it starts, and every chunk
    after it starts after it has ended.  [Gap_to_Next] is missing exactly on
    the last chunk, which is the one no other chunk of the owner starts
    after; on every other chunk it is the time from that chunk's [End] to
    the [Start] of the next chunk (in minutes, as the column is), the next
    chunk being the first to start after this one, and the gap is strictly
    greater than the threshold. *)
Theorem C2_gap_to_next :
  forall df m u pre c post,
    0 < m ->
    chunks_of u (process_work_chunks df m) = pre ++ c :: post ->
    Start c <= End_ c
    /\ Forall (fun p => End_ p < Start c) pre
    /\ Forall (fun c' => End_ c < Start c') post
    /\ (Gap_to_Next c = None <-> post = [])
    /\ (Gap_to_Next c = None <->
        forall c2, In c2 (chunks_of u (process_work_chunks df m)) ->
                   Start c2 <= Start c)
    /\ (forall c' post', post = c' :: post' ->
          Gap_to_Next c = Some (total_seconds_div (Start c' - End_ c) 60)
          /\ End_ c < Start c'
          /\ (forall c2, In c2 (chunks_of u (process_work_chunks df m)) ->
                         Start c < Start c2 -> Start c' <= Start c2)
          /\ (inject_Z m < total_seconds_div (Start c' - End_ c) 60)%Q).
Proof.
  intros df m u pre c post Hm E.
  assert (H : gap_chain (60 * m) (pre ++ c :: post)).
  { rewrite <- E, chunks_of_process.
    destruct (user_times df u) as [|t ts]; simpl; auto.
    apply close_from_gap_chain. }
  assert (Hspan : Forall (fun c => Start c <= End_ c) (pre ++ c :: post)).
  { rewrite <- E, chunks_of_process.
    apply segment_span, user_times_sorted. }
  assert (Hord : StronglySorted (fun c1 c2 => End_ c1 < Start c2)
                                (pre ++ c :: post))
    by (apply (gap_chain_chronological (60 * m)); auto; lia).
  destruct (StronglySorted_middle _ _ _ _ Hord) as [Hpre Hpost].
  assert (Hc : Start c <= End_ c).
  { rewrite Forall_forall in Hspan. apply Hspan.
    apply in_or_app. right. now left. }
  assert (Hnone : Gap_to_Next c = None <-> post = []).
  { pose proof (gap_chain_split _ _ _ _ H) as G.
    destruct post as [|c' post']; [tauto|].
    destruct G as [G _]. rewrite G. split; discriminate. }
  rewrite E.
  refine (conj Hc (conj Hpre (conj Hpost (conj Hnone (conj _ _))))).
  - rewrite Hnone. split.
    + intros -> c2 Hc2. apply in_app_or in Hc2 as [Hc2|[<-|[]]]; [|lia].
      rewrite Forall_forall in Hpre, Hspan.
      specialize (Hpre _ Hc2).
      assert (Start c2 <= End_ c2)
        by (apply Hspan, in_or_app; now left).
      lia.
    + intros Hlast. destruct post as [|c' post']; [reflexivity|].
      exfalso. inversion Hpost as [|? ? Hlt _]; subst.
      assert (Start c' <= Start c).
      { apply Hlast. apply in_or_app. right. right. now left. }
      lia.
  - intros c' post' ->.
    pose proof (gap_chain_split _ _ _ _ H) as [Hg Hlt].
    inversion Hpost as [|? ? Hcc' Hpost']; subst.
    refine (conj Hg (conj Hcc' (conj _ _))).
    + intros c2 Hc2 Hafter.
      replace (pre ++ c :: c' :: post') with ((pre ++ [c]) ++ c' :: post')
        in Hord, Hspan, Hc2 by now rewrite <- app_assoc.
      destruct (StronglySorted_middle _ _ _ _ Hord) as [_ Hpost2].
      rewrite Forall_forall in Hpre, Hpost2, Hspan.
      apply in_app_or in Hc2 as [Hc2|[<-|Hc2]].
      * apply in_app_or in Hc2 as [Hc2|[<-|[]]]; [|lia].
        specialize (Hpre _ Hc2).
        assert (Start c2 <= End_ c2).
        { apply Hspan, in_or_app. left. apply in_or_app. now left. }
        lia.
      * lia.
      * specialize (Hpost2 _ Hc2).
        assert (Start c' <= End_ c').
        { apply Hspan, in_or_app. right. now left. }
        lia.
    + unfold total_seconds_div, Qlt. simpl. lia.
Qed.

Lemma C2_witness :
  0 < 30
  /\ chunks_of "a" (process_work_chunks
       [row "a" 36300 ""; row "a" 32400 ""; row "a" 33000 ""] 30)
     = [] ++ make_chunk "a" 32400 33000 2 (Some (3300 # 60)%Q)
          :: [make_chunk "a" 36300 36300 1 None]
  /\ Gap_to_Next (make_chunk "a" 32400 33000 2 (Some (3300 # 60)%Q))
     = Some (total_seconds_div (36300 - 33000) 60)
  /\ (inject_Z 30 < total_seconds_div (36300 - 33000) 60)%Q.
Proof.
  split; [lia|]. split; [reflexivity|].
  pose proof (C2_gap_to_next
                [row "a" 36300 ""; row "a" 32400 ""; row "a" 33000 ""] 30 "a"
                [] (make_chunk "a" 32400 33000 2 (Some (3300 # 60)%Q))
                [make_chunk "a" 36300 36300 1 None]
                ltac:(lia) eq_refl) as (_ & _ & _ & _ & _ & Hnext).
  destruct (Hnext _ _ eq_refl) as (Hg & _ & _ & Hlt).
  split; [exact Hg|exact Hlt].
Defined.

(** C7. Two frames with the same rows in a different order, rows with
    equal timestamps included, give the same chunks. *)
Theorem C7_row_order_is_irrelevant :
  forall df1 df2 m,
    Permutation df1 df2 ->
    process_work_chunks df1 m = process_work_chunks df2 m.
Proof.
  intros df1 df2 m P.
  rewrite !process_work_chunks_flat, (owners_perm _ _ P).
  apply flat_map_ext. intros u. now rewrite (user_times_perm _ _ u P).
Qed.

Lemma C7_witness :
  Permutation [row "a" 0 "x.txt"; row "a" 0 "y.txt"; row "b" 5 "x.txt"]
              [row "b" 5 "x.txt"; row "a" 0 "y.txt"; row "a" 0 "x.txt"]
  /\ process_work_chunks
       [row "a" 0 "x.txt"; row "a" 0 "y.txt"; row "b" 5 "x.txt"] 30
     = process_work_chunks
         [row "b" 5 "x.txt"; row "a" 0 "y.txt"; row "a" 0 "x.txt"] 30.
Proof.
  assert (P : Permutation
                [row "a" 0 "x.txt"; row "a" 0 "y.txt"; row "b" 5 "x.txt"]
                [row "b" 5 "x.txt"; row "a" 0 "y.txt"; row "a" 0 "x.txt"]).
  { apply (Permutation_rev [row "a" 0 "x.txt"; row "a" 0 "y.txt";
                            row "b" 5 "x.txt"]). }
  split; [exact P|].
  apply (C7_row_order_is_irrelevant _ _ 30 P).
Defined.

Lemma filter_filter_andb {A} (f g : A -> bool) l :
  filter f (filter g l) = filter (fun x => g x && f x) l.
Proof.
  induction l as [|x l IH]; simpl; auto.
  destruct (g x); simpl; [destruct (f x)|]; now rewrite IH.
Qed.

(** C9. The [Log_Count]s of the chunks add up to the number of rows with a
    present, non-empty user; and owner by owner, the [Log_Count]s of the
    owner's chunks add up to the number of such rows of that owner, so a row
    without a valid user is counted nowhere. *)
Theorem C9_log_counts_add_up_to_valid_rows :
  forall df m,
    Zsum (map Log_Count (process_work_chunks df m))
    = Z.of_nat (length (filter valid_User df))
    /\ forall u,
         Zsum (map Log_Count (chunks_of u (process_work_chunks df m)))
         = Z.of_nat (length (filter (fun e => valid_User e && has_User u e) df)).
Proof.
  intros df m. split.
  - rewrite process_work_chunks_flat.
    rewrite (Zsum_flat_map_length _
               (fun u => filter (has_User u) (sorted_valid df))).
    + rewrite (Permutation_length (user_groups_partition df)).
      unfold sorted_valid, sort_values_User_DateTime.
      now rewrite stable_sort_length.
    + intros u. rewrite segment_counts. unfold user_times.
      now rewrite length_map.
  - intros u. rewrite chunks_of_process, segment_counts.
    unfold user_times. rewrite length_map.
    rewrite <- (Permutation_length
                  (filter_perm (has_User u) _ _ (sorted_valid_perm df))).
    now rewrite filter_filter_andb.
Qed.

(** C10, as stated, fails on the floats that are stored: a chunk of five
    seconds.  [5 / 60] is stored as 0.083333333333333329 and [5 / 3600] as
    0.0013888888888888889, and 60 times the latter is 0.083333333333333343:
    the two duration columns differ in the last bit. *)
Lemma C10_counterexample :
  process_work_chunks [row "a" 5 ""; row "a" 0 ""] 30
  = [make_chunk "a" 0 5 2 None]
  /\ PrimFloat.eqb
       (binary64 (Duration_min (make_chunk "a" 0 5 2 None)))
       (60 * binary64 (Duration_hours (make_chunk "a" 0 5 2 None)))%float
     = false
  /\ ~ (forall df m c,
          In c (process_work_chunks df m) ->
          PrimFloat.eqb (binary64 (Duration_min c))
                        (60 * binary64 (Duration_hours c))%float = true).
Proof.
  split; [reflexivity|]. split; [vm_compute; reflexivity|].
  intros H.
  specialize (H [row "a" 5 ""; row "a" 0 ""] 30 (make_chunk "a" 0 5 2 None)
                (or_introl eq_refl)).
  revert H. vm_compute. discriminate.
Qed.

(** C10, amended. Every chunk has [Start <= End], and its two duration
    columns are quotients of the same [End - Start]: [Duration (min)] is
    [(End - Start) / 60] and [Duration (hours)] is [(End - Start) / 3600],
    and what is stored of each is the float division of that whole number
    of seconds by 60 and by 3600; so neither is negative.  That the first
    is 60 times the second holds of the quotients, not of the floats. *)
Theorem C10_duration_fields_consistent :
  forall df m c,
    In c (process_work_chunks df m) ->
    Start c <= End_ c
    /\ (Duration_min c == inject_Z (End_ c - Start c) / 60)%Q
    /\ (Duration_hours c == inject_Z (End_ c - Start c) / 3600)%Q
    /\ binary64 (Duration_min c)
       = (binary64_of_Z (End_ c - Start c) / 60)%float
    /\ binary64 (Duration_hours c)
       = (binary64_of_Z (End_ c - Start c) / 3600)%float
    /\ (0 <= Duration_hours c)%Q
    /\ (0 <= Duration_min c)%Q.
Proof.
  intros df m c Hc. apply process_work_chunks_In in Hc.
  pose proof (user_times_sorted df (Developer c)) as Hs.
  destruct (user_times df (Developer c)) as [|t ts]; [destruct Hc|].
  simpl in Hc.
  destruct (close_from_fields _ _ _ _ _ _ _ Hc) as [Hmin Hhours].
  assert (Hse : Start c <= End_ c).
  { eapply close_from_span; [|exact Hs|exact Hc]. lia. }
  rewrite Hmin, Hhours. unfold total_seconds_div.
  refine (conj Hse (conj _ (conj _ (conj eq_refl (conj eq_refl _)))));
    try split;
    unfold Qeq, Qle, Qdiv, Qinv, Qmult, inject_Z; cbn [Qnum Qden]; lia.
Qed.

Lemma C10_witness :
  In (make_chunk "b" 32400 35880 3 None)
     (process_work_chunks
        [row "b" 35880 ""; row "b" 32400 ""; row "b" 34140 ""] 30)
  /\ (Start (make_chunk "b" 32400 35880 3 None)
      <= End_ (make_chunk "b" 32400 35880 3 None)
      /\ (Duration_min (make_chunk "b" 32400 35880 3 None)
          == inject_Z (35880 - 32400) / 60)%Q
      /\ (Duration_hours (make_chunk "b" 32400 35880 3 None)
          == inject_Z (35880 - 32400) / 3600)%Q
      /\ binary64 (Duration_min (make_chunk "b" 32400 35880 3 None))
         = (binary64_of_Z (35880 - 32400) / 60)%float
      /\ binary64 (Duration_hours (make_chunk "b" 32400 35880 3 None))
         = (binary64_of_Z (35880 - 32400) / 3600)%float
      /\ (0 <= Duration_hours (make_chunk "b" 32400 35880 3 None))%Q
      /\ (0 <= Duration_min (make_chunk "b" 32400 35880 3 None))%Q).
Proof.
  assert (H : In (make_chunk "b" 32400 35880 3 None)
                 (process_work_chunks
                    [row "b" 35880 ""; row "b" 32400 ""; row "b" 34140 ""] 30)).
  { left. reflexivity. }
  split; [exact H|].
  apply (C10_duration_fields_consistent _ 30 _ H).
Defined.

(** ** The minimum-hours filter: the settled properties *)

Lemma existsb_eqb_In u l : existsb (String.eqb u) l = true <-> In u l.
Proof.
  rewrite existsb_exists. split.
  - intros (v & Hv & E). apply String.eqb_eq in E. now subst.
  - intros H. exists u. split; auto. apply String.eqb_refl.
Qed.

Lemma passes_true chunks_df h c :
  passes chunks_df h c = true
  <-> In (Developer c) (map Developer chunks_df)
      /\ Qle_bool h (dev_hours chunks_df (Developer c)) = true.
Proof.
  unfold passes. now rewrite existsb_eqb_In, filter_In, unique_sorted_In.
Qed.

Lemma dev_hours_kept chunks_df h c :
  passes chunks_df h c = true ->
  dev_hours (filter (passes chunks_df h) chunks_df) (Developer c)
  = dev_hours chunks_df (Developer c).
Proof.
  intros Hc. unfold dev_hours, chunks_of. rewrite filter_filter_sub; auto.
  intros x Hx. apply String.eqb_eq in Hx.
  apply passes_true in Hc as [Hin Hle]. apply passes_true.
  rewrite Hx. split; assumption.
Qed.

Lemma min_hours_filter_unfold chunks_df h :
  min_hours_filter chunks_df h
  = if Qgtb h 0
    then (filter (passes chunks_df h) chunks_df,
          nunique_Developer chunks_df
          - nunique_Developer (filter (passes chunks_df h) chunks_df))
    else (chunks_df, 0).
Proof. reflexivity. Qed.

Lemma passes_again chunks_df h c :
  In c (filter (passes chunks_df h) chunks_df) ->
  passes (filter (passes chunks_df h) chunks_df) h c = true.
Proof.
  intros Hc. pose proof Hc as Hc'. apply filter_In in Hc' as [_ Hp].
  apply passes_true. split.
  - now apply in_map.
  - rewrite (dev_hours_kept _ _ _ Hp). now apply passes_true in Hp.
Qed.

Lemma min_hours_filter_noop chunks_df h :
  (h <= 0)%Q -> min_hours_filter chunks_df h = (chunks_df, 0).
Proof.
  intros Hle. rewrite min_hours_filter_unfold. unfold Qgtb.
  apply Qle_bool_iff in Hle. now rewrite Hle.
Qed.

(** C6. With [min_hours <= 0] the filter returns the chunk frame as it is
    and removes no owner; and for every [min_hours], filtering the filtered
    frame again returns it unchanged and removes no owner. *)
Theorem C6_filter_identity_and_idempotent :
  forall chunks_df h,
    ((h <= 0)%Q -> min_hours_filter chunks_df h = (chunks_df, 0))
    /\ min_hours_filter (fst (min_hours_filter chunks_df h)) h
       = (fst (min_hours_filter chunks_df h), 0).
Proof.
  intros chunks_df h. split.
  - apply min_hours_filter_noop.
  - rewrite (min_hours_filter_unfold chunks_df).
    destruct (Qgtb h 0) eqn:G; cbn [fst]; rewrite min_hours_filter_unfold, G.
    + rewrite (filter_all (passes (filter (passes chunks_df h) chunks_df) h))
        by apply passes_again.
      f_equal. lia.
    + reflexivity.
Qed.

Lemma C6_witness :
  (- (1 # 2) <= 0)%Q
  /\ min_hours_filter [make_chunk "a" 0 600 3 None] (- (1 # 2))
     = ([make_chunk "a" 0 600 3 None], 0).
Proof.
  split; [discriminate|].
  apply (proj1 (C6_filter_identity_and_idempotent
                  [make_chunk "a" 0 600 3 None] (- (1 # 2)))).
  discriminate.
Defined.

(** ** main: the settled properties *)




(** ** generate_summary: the settled properties *)

Lemma hours_desc_leb_total r1 r2 :
  hours_desc_leb r1 r2 = true \/ hours_desc_leb r2 r1 = true.
Proof.
  unfold hours_desc_leb. rewrite !Qle_bool_iff.
  destruct (Qlt_le_dec (sm_Duration_hours r1) (sm_Duration_hours r2)) as [H|H].
  - right. now apply Qlt_le_weak.
  - now left.
Qed.

Lemma hours_desc_leb_trans r1 r2 r3 :
  hours_desc_leb r1 r2 = true -> hours_desc_leb r2 r3 = true ->
  hours_desc_leb r1 r3 = true.
Proof.
  unfold hours_desc_leb. rewrite !Qle_bool_iff. intros H1 H2.
  now apply Qle_trans with (sm_Duration_hours r2).
Qed.

(** [generate_summary] always has a result. *)
Lemma generate_summary_total chunks_df :
  generate_summary chunks_df (generate_summary_stable chunks_df).
Proof.
  split; [apply stable_sort_perm|].
  apply StronglySorted_impl with (R := fun x y => hours_desc_leb x y = true).
  - intros x y. apply Qle_bool_iff.
  - apply stable_sort_sorted;
      [apply hours_desc_leb_total|apply hours_desc_leb_trans].
Qed.

Lemma summary_rows_Developer chunks_df :
  map sm_Developer (map round_summary (groupby_Developer_agg chunks_df))
  = unique_sorted (map Developer chunks_df).
Proof.
  unfold groupby_Developer_agg. rewrite !map_map. simpl. apply map_id.
Qed.

Lemma summary_rows_hours chunks_df :
  map sm_Duration_hours (map round_summary (groupby_Developer_agg chunks_df))
  = map (fun u => round2 (dev_hours chunks_df u))
        (unique_sorted (map Developer chunks_df)).
Proof.
  unfold groupby_Developer_agg. rewrite !map_map. reflexivity.
Qed.

Lemma summary_row_hours chunks_df r :
  In r (map round_summary (groupby_Developer_agg chunks_df)) ->
  sm_Duration_hours r = round2 (dev_hours chunks_df (sm_Developer r)).
Proof.
  unfold groupby_Developer_agg. rewrite map_map, in_map_iff.
  intros (u & <- & _). reflexivity.
Qed.

Lemma chunks_partition chunks_df :
  Permutation
    (flat_map (fun u => chunks_of u chunks_df)
              (unique_sorted (map Developer chunks_df)))
    chunks_df.
Proof.
  apply (groups_partition Developer String.eqb String.eqb_spec).
  - apply unique_sorted_NoDup.
  - intros c Hc. apply unique_sorted_In. now apply in_map.
Qed.

(** The owners' full-precision totals add up to the total of the chunks. *)
Lemma dev_hours_total chunks_df :
  (Qsum (map (dev_hours chunks_df) (unique_sorted (map Developer chunks_df)))
   == Qsum (map Duration_hours chunks_df))%Q.
Proof.
  rewrite <- (Qsum_perm _ _ (Permutation_map Duration_hours
                                             (chunks_partition chunks_df))).
  now rewrite Qsum_map_flat_map.
Qed.

Lemma StronglySorted_impl_In {A} (R R' : A -> A -> Prop) l :
  (forall x y, In x l -> In y l -> R x y -> R' x y) ->
  StronglySorted R l -> StronglySorted R' l.
Proof.
  intros H Hs. induction Hs as [|a l Hs IH Hall]; constructor.
  - apply IH. intros x y Hx Hy. apply H; now right.
  - rewrite Forall_forall in *. intros y Hy.
    apply H; [now left|now right|now apply Hall].
Qed.

(** C4, as stated, fails.  The total hours of an owner are, as the
    specification has them, the sum of the hours of the owner's chunks; the
    summary is sorted on the hours column after that column has been
    rounded, so its order is not that of the totals.  In the first frame
    [a] has worked 3600 seconds and [b] 3610; in the second it is the other
    way round.  Both totals round to 1.00, so the frame that is sorted is
    the same for the two, and whatever the sort returns on it has the owner
    of fewer hours above the other for one of the two.  With ties left as
    they stand it returns [a] above [b]: the first frame is shown with [b],
    who worked more, below [a].  Both frames are what [process_work_chunks]
    makes of three rows for each owner, with a threshold of 31 minutes. *)
Lemma C4_counterexample :
  process_work_chunks
    [row "a" 0 ""; row "a" 1800 ""; row "a" 3600 "";
     row "b" 0 ""; row "b" 1800 ""; row "b" 3610 ""] 31
  = [make_chunk "a" 0 3600 3 None; make_chunk "b" 0 3610 3 None]
  /\ process_work_chunks
       [row "a" 0 ""; row "a" 1800 ""; row "a" 3610 "";
        row "b" 0 ""; row "b" 1800 ""; row "b" 3600 ""] 31
     = [make_chunk "a" 0 3610 3 None; make_chunk "b" 0 3600 3 None]
  /\ map round_summary
      (groupby_Developer_agg
         [make_chunk "a" 0 3600 3 None; make_chunk "b" 0 3610 3 None])
  = map round_summary
        (groupby_Developer_agg
           [make_chunk "a" 0 3610 3 None; make_chunk "b" 0 3600 3 None])
  /\ (forall summary,
        generate_summary
          [make_chunk "a" 0 3600 3 None; make_chunk "b" 0 3610 3 None]
          summary ->
        generate_summary
          [make_chunk "a" 0 3610 3 None; make_chunk "b" 0 3600 3 None]
          summary
        /\ (~ StronglySorted
                (total_hours_desc_owner_asc
                   [make_chunk "a" 0 3600 3 None; make_chunk "b" 0 3610 3 None])
                summary
            \/ ~ StronglySorted
                   (total_hours_desc_owner_asc
                      [make_chunk "a" 0 3610 3 None;
                       make_chunk "b" 0 3600 3 None])
                   summary))
  /\ generate_summary_stable
       [make_chunk "a" 0 3600 3 None; make_chunk "b" 0 3610 3 None]
     = [ {| sm_Developer := "a"; sm_Duration_hours := 100 # 100;
            sm_Log_Count := 3; sm_Chunk_Count := 1 |};
         {| sm_Developer := "b"; sm_Duration_hours := 100 # 100;
            sm_Log_Count := 3; sm_Chunk_Count := 1 |} ]
  /\ (dev_hours [make_chunk "a" 0 3600 3 None; make_chunk "b" 0 3610 3 None]
                "a"
      < dev_hours [make_chunk "a" 0 3600 3 None; make_chunk "b" 0 3610 3 None]
                  "b")%Q
  /\ ~ (forall chunks_df summary,
          generate_summary chunks_df summary ->
          StronglySorted (total_hours_desc_owner_asc chunks_df) summary).
Proof.
  assert (Hab : ~ StronglySorted
                    (total_hours_desc_owner_asc
                       [make_chunk "a" 0 3600 3 None;
                        make_chunk "b" 0 3610 3 None])
                    [ {| sm_Developer := "a"; sm_Duration_hours := 100 # 100;
                         sm_Log_Count := 3; sm_Chunk_Count := 1 |};
                      {| sm_Developer := "b"; sm_Duration_hours := 100 # 100;
                         sm_Log_Count := 3; sm_Chunk_Count := 1 |} ]).
  { intros H. inversion H as [|? ? _ Hall]; subst.
    inversion Hall as [|? ? Hord _]; subst.
    destruct Hord as [Hlt|[Heq _]]; revert Hlt || revert Heq;
      vm_compute; discriminate. }
  assert (Hba : ~ StronglySorted
                    (total_hours_desc_owner_asc
                       [make_chunk "a" 0 3610 3 None;
                        make_chunk "b" 0 3600 3 None])
                    [ {| sm_Developer := "b"; sm_Duration_hours := 100 # 100;
                         sm_Log_Count := 3; sm_Chunk_Count := 1 |};
                      {| sm_Developer := "a"; sm_Duration_hours := 100 # 100;
                         sm_Log_Count := 3; sm_Chunk_Count := 1 |} ]).
  { intros H. inversion H as [|? ? _ Hall]; subst.
    inversion Hall as [|? ? Hord _]; subst.
    destruct Hord as [Hlt|[Heq _]]; revert Hlt || revert Heq;
      vm_compute; discriminate. }
  split; [reflexivity|]. split; [reflexivity|].
  split; [reflexivity|]. split; [|split; [reflexivity|split]].
  - intros summary [P Hs]. split; [split; [exact P|exact Hs]|].
    change (map round_summary
              (groupby_Developer_agg
                 [make_chunk "a" 0 3600 3 None; make_chunk "b" 0 3610 3 None]))
      with [ {| sm_Developer := "a"; sm_Duration_hours := 100 # 100;
                sm_Log_Count := 3; sm_Chunk_Count := 1 |};
             {| sm_Developer := "b"; sm_Duration_hours := 100 # 100;
                sm_Log_Count := 3; sm_Chunk_Count := 1 |} ] in P.
    apply Permutation_length_2_inv in P as [->| ->]; [now left|now right].
  - vm_compute. reflexivity.
  - intros H. apply Hab.
    apply (H [make_chunk "a" 0 3600 3 None; make_chunk "b" 0 3610 3 None]).
    change [ {| sm_Developer := "a"; sm_Duration_hours := 100 # 100;
                sm_Log_Count := 3; sm_Chunk_Count := 1 |};
             {| sm_Developer := "b"; sm_Duration_hours := 100 # 100;
                sm_Log_Count := 3; sm_Chunk_Count := 1 |} ]
      with (generate_summary_stable
              [make_chunk "a" 0 3600 3 None; make_chunk "b" 0 3610 3 None]).
    apply generate_summary_total.
Qed.

(** C4, amended. [generate_summary] returns a summary for every chunk
    set, and every summary it may return has one row for each distinct
    owner, holding the owner's total hours rounded to 2 decimals, in
    descending order of these rounded figures.  In terms of the totals
    themselves: an owner stands above another only if its total is no more
    than a hundredth of an hour less.  Of the order among owners of equal
    rounded hours nothing is said: the sort is given no second key, and
    what it does with equal keys is the library's affair. *)
Theorem C4_summary_by_descending_hours :
  forall chunks_df,
    generate_summary chunks_df (generate_summary_stable chunks_df)
    /\ forall summary,
         generate_summary chunks_df summary ->
         StronglySorted hours_desc summary
         /\ Permutation (unique_sorted (map Developer chunks_df))
                        (map sm_Developer summary)
         /\ Forall (fun r => rounded_to_2
                               (dev_hours chunks_df (sm_Developer r))
                               (sm_Duration_hours r))
                   summary
         /\ StronglySorted
              (fun r1 r2 =>
                 (dev_hours chunks_df (sm_Developer r2)
                  <= dev_hours chunks_df (sm_Developer r1) + (1 # 100))%Q)
              summary.
Proof.
  intros chunks_df. split; [apply generate_summary_total|].
  intros summary [P Hs].
  assert (Hrow : forall r, In r summary ->
                   rounded_to_2 (dev_hours chunks_df (sm_Developer r))
                                (sm_Duration_hours r)).
  { intros r Hr.
    apply (Permutation_in _ (Permutation_sym P)) in Hr.
    rewrite (summary_row_hours _ _ Hr). apply round2_rounded. }
  split; [exact Hs|]. split; [|split].
  - rewrite <- summary_rows_Developer. now apply Permutation_map.
  - now apply Forall_forall.
  - apply StronglySorted_impl_In with (R := hours_desc); [|exact Hs].
    intros r1 r2 H1 H2 Hd. unfold hours_desc in Hd.
    destruct (Hrow _ H1) as [_ E1]. destruct (Hrow _ H2) as [_ E2].
    apply Qabs_Qle_condition in E1, E2. lra.
Qed.

Lemma C4_witness :
  generate_summary
    [make_chunk "a" 0 12 2 None; make_chunk "b" 0 3600 3 None;
     make_chunk "a" 5000 5012 2 None]
    [ {| sm_Developer := "b"; sm_Duration_hours := 100 # 100;
         sm_Log_Count := 3; sm_Chunk_Count := 1 |};
      {| sm_Developer := "a"; sm_Duration_hours := 1 # 100;
         sm_Log_Count := 4; sm_Chunk_Count := 2 |} ]
  /\ StronglySorted hours_desc
       [ {| sm_Developer := "b"; sm_Duration_hours := 100 # 100;
            sm_Log_Count := 3; sm_Chunk_Count := 1 |};
         {| sm_Developer := "a"; sm_Duration_hours := 1 # 100;
            sm_Log_Count := 4; sm_Chunk_Count := 2 |} ]
  /\ Forall
       (fun r =>
          rounded_to_2
            (dev_hours [make_chunk "a" 0 12 2 None;
                        make_chunk "b" 0 3600 3 None;
                        make_chunk "a" 5000 5012 2 None]
                       (sm_Developer r))
            (sm_Duration_hours r))
       [ {| sm_Developer := "b"; sm_Duration_hours := 100 # 100;
            sm_Log_Count := 3; sm_Chunk_Count := 1 |};
         {| sm_Developer := "a"; sm_Duration_hours := 1 # 100;
            sm_Log_Count := 4; sm_Chunk_Count := 2 |} ].
Proof.
  assert (G : generate_summary
                [make_chunk "a" 0 12 2 None; make_chunk "b" 0 3600 3 None;
                 make_chunk "a" 5000 5012 2 None]
                [ {| sm_Developer := "b"; sm_Duration_hours := 100 # 100;
                     sm_Log_Count := 3; sm_Chunk_Count := 1 |};
                  {| sm_Developer := "a"; sm_Duration_hours := 1 # 100;
                     sm_Log_Count := 4; sm_Chunk_Count := 2 |} ]).
  { split.
    - apply perm_swap.
    - repeat constructor. unfold hours_desc. simpl. discriminate. }
  split; [exact G|].
  destruct (proj2 (C4_summary_by_descending_hours _) _ G)
    as (Hs & _ & Hr & _).
  split; [exact Hs|exact Hr].
Defined.

(** C8. [generate_summary] returns a summary for every chunk set, and
    the total hours of the rows of any summary it may return differ from the
    sum of the chunks' hours by no more than the rounding of the rows
    allows: half a hundredth for each row.  Before the rows are rounded the
    two sums are equal ([dev_hours_total]). *)
Theorem C8_summation_invariant :
  forall chunks_df,
    generate_summary chunks_df (generate_summary_stable chunks_df)
    /\ forall summary,
         generate_summary chunks_df summary ->
         (Qabs (Qsum (map sm_Duration_hours summary)
                - Qsum (map Duration_hours chunks_df))
          <= inject_Z (Z.of_nat (length summary)) * (1 # 200))%Q.
Proof.
  intros chunks_df. split; [apply generate_summary_total|].
  intros summary [P _].
  rewrite <- (Qsum_perm _ _ (Permutation_map sm_Duration_hours P)).
  rewrite <- (Permutation_length P).
  rewrite summary_rows_hours, <- dev_hours_total.
  unfold groupby_Developer_agg. rewrite !length_map.
  apply (round_error_sum (dev_hours chunks_df)).
Qed.

Lemma C8_witness :
  generate_summary
    [make_chunk "a" 0 12 2 None; make_chunk "b" 0 3600 3 None;
     make_chunk "a" 5000 5012 2 None]
    [ {| sm_Developer := "b"; sm_Duration_hours := 100 # 100;
         sm_Log_Count := 3; sm_Chunk_Count := 1 |};
      {| sm_Developer := "a"; sm_Duration_hours := 1 # 100;
         sm_Log_Count := 4; sm_Chunk_Count := 2 |} ]
  /\ (Qabs (Qsum (map sm_Duration_hours
                      [ {| sm_Developer := "b"; sm_Duration_hours := 100 # 100;
                           sm_Log_Count := 3; sm_Chunk_Count := 1 |};
                        {| sm_Developer := "a"; sm_Duration_hours := 1 # 100;
                           sm_Log_Count := 4; sm_Chunk_Count := 2 |} ])
            - Qsum (map Duration_hours
                        [make_chunk "a" 0 12 2 None;
                         make_chunk "b" 0 3600 3 None;
                         make_chunk "a" 5000 5012 2 None]))
      <= inject_Z (Z.of_nat (length
                      [ {| sm_Developer := "b"; sm_Duration_hours := 100 # 100;
                           sm_Log_Count := 3; sm_Chunk_Count := 1 |};
                        {| sm_Developer := "a"; sm_Duration_hours := 1 # 100;
                           sm_Log_Count := 4; sm_Chunk_Count := 2 |} ]))
         * (1 # 200))%Q.
Proof.
  assert (G : generate_summary
                [make_chunk "a" 0 12 2 None; make_chunk "b" 0 3600 3 None;
                 make_chunk "a" 5000 5012 2 None]
                [ {| sm_Developer := "b"; sm_Duration_hours := 100 # 100;
                     sm_Log_Count := 3; sm_Chunk_Count := 1 |};
                  {| sm_Developer := "a"; sm_Duration_hours := 1 # 100;
                     sm_Log_Count := 4; sm_Chunk_Count := 2 |} ]).
  { split.
    - apply perm_swap.
    - repeat constructor. unfold hours_desc. simpl. discriminate. }
  split; [exact G|].
  apply (proj2 (C8_summation_invariant _) _ G).
Defined.

(** The tolerance is needed: the two sums of the frame above differ. *)
Example summary_sum_is_not_exact :
  ~ (Qsum (map sm_Duration_hours
               (generate_summary_stable
                  [make_chunk "a" 0 12 2 None; make_chunk "b" 0 3600 3 None;
                   make_chunk "a" 5000 5012 2 None]))
     == Qsum (map Duration_hours
                  [make_chunk "a" 0 12 2 None; make_chunk "b" 0 3600 3 None;
                   make_chunk "a" 5000 5012 2 None]))%Q.
Proof. vm_compute. discriminate. Qed.

(** ** The daily pivot: the settled properties *)

Lemma day_key_eqb_spec k1 k2 : reflect (k1 = k2) (day_key_eqb k1 k2).
Proof.
  destruct k1 as [d1 u1], k2 as [d2 u2]. unfold day_key_eqb. simpl.
  destruct (Z.eqb_spec d1 d2) as [->|N]; simpl.
  - destruct (String.eqb_spec u1 u2) as [->|N]; constructor; congruence.
  - constructor. congruence.
Qed.

Lemma filter_key_NoDup k keys :
  NoDup keys ->
  filter (fun k' => day_key_eqb k' k) keys
  = if in_dec day_key_dec k keys then [k] else [].
Proof.
  induction 1 as [|k' keys Hk Hnd IH]; simpl; auto.
  rewrite IH. destruct (day_key_eqb_spec k' k) as [->|N].
  - destruct (day_key_dec k k); [|congruence].
    destruct (in_dec day_key_dec k keys); [contradiction|reflexivity].
  - destruct (day_key_dec k' k); [congruence|].
    destruct (in_dec day_key_dec k keys); reflexivity.
Qed.

Lemma day_keys_In k chunks_df :
  In k (day_keys chunks_df)
  <-> In k (map (fun c => (Date c, Developer c)) chunks_df).
Proof. unfold day_keys. now rewrite stable_sort_In, nodup_In. Qed.

Lemma day_keys_NoDup chunks_df : NoDup (day_keys chunks_df).
Proof.
  unfold day_keys.
  eapply Permutation_NoDup; [apply stable_sort_perm|apply NoDup_nodup].
Qed.

Lemma pivot_by_day_perm chunks_df :
  Permutation (map round_day (groupby_Date_Developer_agg chunks_df))
              (pivot_by_day chunks_df).
Proof. apply stable_sort_perm. Qed.

Lemma pivot_by_day_lookup chunks_df d u :
  filter (fun r => day_key_eqb (d_Date r, d_Developer r) (d, u))
         (pivot_by_day chunks_df)
  = if in_dec day_key_dec (d, u) (day_keys chunks_df)
    then [ {| d_Date := d; d_Developer := u;
              d_Duration_hours := day_cell chunks_df d u;
              d_Log_Count :=
                Zsum (map Log_Count (filter (in_day (d, u)) chunks_df));
              d_Chunk_Count :=
                Z.of_nat (length (filter (in_day (d, u)) chunks_df)) |} ]
    else [].
Proof.
  pose proof (filter_perm
                (fun r => day_key_eqb (d_Date r, d_Developer r) (d, u)) _ _
                (pivot_by_day_perm chunks_df)) as P.
  unfold groupby_Date_Developer_agg in P. fold (day_keys chunks_df) in P.
  rewrite map_map, filter_map_comm in P. cbn [d_Date d_Developer round_day] in P.
  rewrite (filter_ext _ (fun k' => day_key_eqb k' (d, u))) in P
    by (intros [d' u']; reflexivity).
  rewrite (filter_key_NoDup _ _ (day_keys_NoDup chunks_df)) in P.
  destruct (in_dec day_key_dec (d, u) (day_keys chunks_df)).
  - simpl in P. apply Permutation_length_1_inv in P. exact P.
  - simpl in P. now apply Permutation_nil in P.
Qed.

Lemma in_day_absent chunks_df k :
  ~ In k (day_keys chunks_df) -> filter (in_day k) chunks_df = [].
Proof.
  rewrite day_keys_In. intros H.
  apply (group_absent (fun c => (Date c, Developer c)) day_key_eqb
                      day_key_eqb_spec k chunks_df H).
Qed.

Lemma pivot_table_value chunks_df d u :
  value (pivot_table (pivot_by_day chunks_df)) d u = day_cell chunks_df d u.
Proof.
  cbn [value pivot_table]. rewrite pivot_by_day_lookup.
  destruct (in_dec day_key_dec (d, u) (day_keys chunks_df)) as [H|H].
  - cbn [map d_Duration_hours Qsum fold_right].
    rewrite (round2_comp _ (day_cell chunks_df d u)) by apply Qplus_0_r.
    apply round2_idem.
  - unfold day_cell. now rewrite (in_day_absent _ _ H).
Qed.

Lemma pivot_by_day_keys chunks_df :
  Permutation (map (fun r => (d_Date r, d_Developer r)) (pivot_by_day chunks_df))
              (day_keys chunks_df).
Proof.
  rewrite <- (Permutation_map _ (pivot_by_day_perm chunks_df)).
  unfold groupby_Date_Developer_agg. fold (day_keys chunks_df).
  rewrite !map_map. cbn [d_Date d_Developer round_day].
  erewrite map_ext; [rewrite map_id; reflexivity|].
  intros [d u]. reflexivity.
Qed.

Lemma pivot_by_day_Developers chunks_df u :
  In u (map d_Developer (pivot_by_day chunks_df))
  <-> In u (map Developer chunks_df).
Proof.
  rewrite !in_map_iff. split.
  - intros (r & <- & Hr).
    assert (Hk : In (d_Date r, d_Developer r) (day_keys chunks_df)).
    { eapply Permutation_in; [apply pivot_by_day_keys|].
      apply (in_map (fun r => (d_Date r, d_Developer r))), Hr. }
    apply day_keys_In, in_map_iff in Hk as (c & E & Hc).
    exists c. split; [congruence|exact Hc].
  - intros (c & <- & Hc).
    assert (Hk : In (Date c, Developer c)
                    (map (fun r => (d_Date r, d_Developer r))
                         (pivot_by_day chunks_df))).
    { eapply Permutation_in;
        [apply Permutation_sym, pivot_by_day_keys|].
      apply day_keys_In. apply (in_map (fun c => (Date c, Developer c))), Hc. }
    apply in_map_iff in Hk as (r & E & Hr).
    exists r. split; [congruence|exact Hr].
Qed.

Lemma pivot_by_day_Dates chunks_df d :
  In d (map d_Date (pivot_by_day chunks_df)) <-> In d (map Date chunks_df).
Proof.
  rewrite !in_map_iff. split.
  - intros (r & <- & Hr).
    assert (Hk : In (d_Date r, d_Developer r) (day_keys chunks_df)).
    { eapply Permutation_in; [apply pivot_by_day_keys|].
      apply (in_map (fun r => (d_Date r, d_Developer r))), Hr. }
    apply day_keys_In, in_map_iff in Hk as (c & E & Hc).
    exists c. split; [congruence|exact Hc].
  - intros (c & <- & Hc).
    assert (Hk : In (Date c, Developer c)
                    (map (fun r => (d_Date r, d_Developer r))
                         (pivot_by_day chunks_df))).
    { eapply Permutation_in;
        [apply Permutation_sym, pivot_by_day_keys|].
      apply day_keys_In. apply (in_map (fun c => (Date c, Developer c))), Hc. }
    apply in_map_iff in Hk as (r & E & Hr).
    exists r. split; [congruence|exact Hr].
Qed.

Lemma pivot_table_columns chunks_df :
  columns (pivot_table (pivot_by_day chunks_df))
  = unique_sorted (map Developer chunks_df).
Proof.
  cbn [columns pivot_table]. apply unique_sorted_same.
  apply pivot_by_day_Developers.
Qed.

Lemma pivot_table_index chunks_df :
  index (pivot_table (pivot_by_day chunks_df))
  = unique_sorted_Z (map Date chunks_df).
Proof.
  cbn [index pivot_table]. apply unique_sorted_Z_same.
  apply pivot_by_day_Dates.
Qed.

(** C3, as stated, fails: [a] works 12 seconds on day 0 and 12 seconds on
    day 1, [b] works 12 seconds on day 0.  Every cell rounds to 0.00, so the
    TOTAL column of day 0 and the TOTAL row of [a] are 0.00, where the
    full-precision sums, 24 seconds each, round to 0.01. *)
Lemma C3_counterexample :
  process_work_chunks
    [row "a" 0 ""; row "a" 12 ""; row "b" 0 ""; row "b" 12 "";
     row "a" 86400 ""; row "a" 86412 ""] 30
  = [make_chunk "a" 0 12 2 (Some (86388 # 60)%Q);
     make_chunk "a" 86400 86412 2 None;
     make_chunk "b" 0 12 2 None]
  /\ value (pivot_hours_by_day
              [make_chunk "a" 0 12 2 (Some (86388 # 60)%Q);
               make_chunk "a" 86400 86412 2 None;
               make_chunk "b" 0 12 2 None])
           (Day 0) TOTAL_column = (0 # 100)%Q
  /\ full_precision_day_total
       [make_chunk "a" 0 12 2 (Some (86388 # 60)%Q);
        make_chunk "a" 86400 86412 2 None;
        make_chunk "b" 0 12 2 None] 0 = (1 # 100)%Q
  /\ value (pivot_hours_by_day
              [make_chunk "a" 0 12 2 (Some (86388 # 60)%Q);
               make_chunk "a" 86400 86412 2 None;
               make_chunk "b" 0 12 2 None])
           TOTAL_row (Dev "a") = (0 # 100)%Q
  /\ full_precision_developer_total
       [make_chunk "a" 0 12 2 (Some (86388 # 60)%Q);
        make_chunk "a" 86400 86412 2 None;
        make_chunk "b" 0 12 2 None] "a" = (1 # 100)%Q
  /\ ~ (forall chunks_df d,
          (value (pivot_hours_by_day chunks_df) (Day d) TOTAL_column
           == full_precision_day_total chunks_df d)%Q).
Proof.
  split; [reflexivity|]. split; [reflexivity|]. split; [reflexivity|].
  split; [reflexivity|]. split; [reflexivity|].
  intros H.
  specialize (H [make_chunk "a" 0 12 2 (Some (86388 # 60)%Q);
                 make_chunk "a" 86400 86412 2 None;
                 make_chunk "b" 0 12 2 None] 0).
  revert H. vm_compute. discriminate.
Qed.

Lemma pivot_by_day_row chunks_df r :
  In r (pivot_by_day chunks_df) ->
  d_Duration_hours r
  = round2 (Qsum (map Duration_hours
                      (filter (in_day (d_Date r, d_Developer r)) chunks_df))).
Proof.
  intros Hr.
  apply (Permutation_in _ (Permutation_sym (pivot_by_day_perm chunks_df)))
    in Hr.
  unfold groupby_Date_Developer_agg in Hr. rewrite map_map in Hr.
  apply in_map_iff in Hr as ([d u] & <- & _). reflexivity.
Qed.

(** A cell of the pivot table is the sum of the rows of [pivot_by_day] that
    fall in it: one row, or none. *)
Lemma pivot_cell_row_sum chunks_df d u :
  (value (pivot_table (pivot_by_day chunks_df)) d u
   == Qsum (map d_Duration_hours
                (filter (fun r => day_key_eqb (d_Date r, d_Developer r) (d, u))
                        (pivot_by_day chunks_df))))%Q.
Proof.
  rewrite pivot_table_value, pivot_by_day_lookup.
  destruct (in_dec day_key_dec (d, u) (day_keys chunks_df)) as [H|H].
  - cbn [map d_Duration_hours Qsum fold_right]. now rewrite Qplus_0_r.
  - unfold day_cell. rewrite (in_day_absent _ _ H). reflexivity.
Qed.

Lemma pivot_cell_hundredths rows d u : hundredths (value (pivot_table rows) d u).
Proof. cbn [value pivot_table]. apply hundredths_round2. Qed.

(** The rows of [pivot_by_day] of one date, taken developer by developer. *)
Lemma day_rows_by_developer chunks_df d :
  (Qsum (map (fun u =>
                Qsum (map d_Duration_hours
                          (filter (fun r => day_key_eqb
                                              (d_Date r, d_Developer r) (d, u))
                                  (pivot_by_day chunks_df))))
             (unique_sorted (map Developer chunks_df)))
   == Qsum (map d_Duration_hours
                (filter (fun r => d_Date r =? d) (pivot_by_day chunks_df))))%Q.
Proof.
  assert (E : map (fun u =>
                     Qsum (map d_Duration_hours
                               (filter (fun r => day_key_eqb
                                                   (d_Date r, d_Developer r)
                                                   (d, u))
                                       (pivot_by_day chunks_df))))
                  (unique_sorted (map Developer chunks_df))
              = map (fun u =>
                       Qsum (map d_Duration_hours
                                 (group d_Developer String.eqb u
                                        (filter (fun r => d_Date r =? d)
                                                (pivot_by_day chunks_df)))))
                    (unique_sorted (map Developer chunks_df))).
  { apply map_ext. intros u. unfold group.
    rewrite filter_filter_andb. reflexivity. }
  rewrite E.
  rewrite <- (Qsum_map_flat_map d_Duration_hours
                (fun u => group d_Developer String.eqb u
                                (filter (fun r => d_Date r =? d)
                                        (pivot_by_day chunks_df)))).
  apply Qsum_perm, Permutation_map.
  apply (groups_partition d_Developer String.eqb String.eqb_spec).
  - apply unique_sorted_NoDup.
  - intros r Hr. apply filter_In in Hr as [Hr _].
    apply unique_sorted_In, pivot_by_day_Developers. now apply in_map.
Qed.

(** C3, amended. Hours are rounded to 2 decimals at every table, not
    once.  Each summary row, each row of [pivot_by_day] and each developer's
    cell of the daily pivot is a full-precision sum over chunks, rounded to
    2 decimals.  The totals of the pivot are sums of figures that are
    already rounded: the TOTAL of a date is the sum of the rounded rows of
    that date, the TOTAL of a developer is the sum of the developer's
    rounded cells, and the corner is the sum of the TOTALs of the dates.
    The column of the totals bears the name TOTAL among the developers'
    names: it comes last when no developer is called TOTAL, and takes the
    place of such a developer's column otherwise. *)
Theorem C3_rounding_at_every_table :
  forall chunks_df,
    let S := sheet_hours_by_day chunks_df in
    let devs := unique_sorted (map Developer chunks_df) in
    let days := unique_sorted_Z (map Date chunks_df) in
    Forall (fun r => rounded_to_2 (dev_hours chunks_df (sm_Developer r))
                                  (sm_Duration_hours r))
           (map round_summary (groupby_Developer_agg chunks_df))
    /\ Forall (fun r =>
                 rounded_to_2
                   (Qsum (map Duration_hours
                              (filter (in_day (d_Date r, d_Developer r))
                                      chunks_df)))
                   (d_Duration_hours r))
              (pivot_by_day chunks_df)
    /\ index S = map Day days ++ [TOTAL_row]
    /\ columns S = (if in_dec string_dec "TOTAL"%string devs
                    then devs else devs ++ ["TOTAL"%string])
    /\ (forall d u,
          u <> "TOTAL"%string ->
          rounded_to_2
            (Qsum (map Duration_hours (filter (in_day (d, u)) chunks_df)))
            (value S (Day d) u))
    /\ (forall d,
          (value S (Day d) "TOTAL"%string
           == Qsum (map d_Duration_hours
                        (filter (fun r => d_Date r =? d)
                                (pivot_by_day chunks_df))))%Q)
    /\ (forall u,
          u <> "TOTAL"%string ->
          (value S TOTAL_row u
           == Qsum (map (fun d => value S (Day d) u) days))%Q)
    /\ (value S TOTAL_row "TOTAL"%string
        == Qsum (map (fun d => value S (Day d) "TOTAL"%string) days))%Q.
Proof.
  intros chunks_df S devs days. subst S devs days.
  unfold sheet_hours_by_day, with_totals.
  cbn [index columns value set_TOTAL_row set_column].
  rewrite pivot_table_index, pivot_table_columns.
  rewrite String.eqb_refl.
  split; [|split; [|split; [|split; [|split; [|split; [|split]]]]]].
  - apply Forall_forall. intros r Hr.
    rewrite (summary_row_hours _ _ Hr). apply round2_rounded.
  - apply Forall_forall. intros r Hr.
    rewrite (pivot_by_day_row _ _ Hr). apply round2_rounded.
  - reflexivity.
  - destruct (in_dec string_dec "TOTAL"%string
                     (unique_sorted (map Developer chunks_df))) as [H|H].
    + apply existsb_eqb_In in H. now rewrite H.
    + destruct (existsb (String.eqb "TOTAL"%string)
                        (unique_sorted (map Developer chunks_df))) eqn:E;
        [|reflexivity].
      apply existsb_eqb_In in E. contradiction.
  - intros d u Hu. apply String.eqb_neq in Hu. rewrite Hu.
    rewrite pivot_table_value. apply round2_rounded.
  - intros d. rewrite round2_hundredths.
    + rewrite <- day_rows_by_developer.
      apply Qsum_map_Qeq. intros u _. apply pivot_cell_row_sum.
    + apply hundredths_Qsum, Forall_forall. intros y Hy.
      apply in_map_iff in Hy as (u & <- & _). apply pivot_cell_hundredths.
  - intros u Hu. apply String.eqb_neq in Hu. rewrite Hu.
    apply round2_hundredths, hundredths_Qsum, Forall_forall.
    intros y Hy. apply in_map_iff in Hy as (d & <- & _).
    apply pivot_cell_hundredths.
  - apply round2_hundredths, hundredths_Qsum, Forall_forall.
    intros y Hy. apply in_map_iff in Hy as (d & <- & _).
    apply hundredths_round2.
Qed.

(** The frame with the labels kept apart is the sheet as it is held, read
    at the labels it has: the column TOTAL holds the totals, every other
    column the hours of the developer of that name. *)
Lemma sheet_hours_by_day_labelled chunks_df r :
  value (sheet_hours_by_day chunks_df) r "TOTAL"%string
  = value (pivot_hours_by_day chunks_df) r TOTAL_column
  /\ forall u, u <> "TOTAL"%string ->
       value (sheet_hours_by_day chunks_df) r u
       = value (pivot_hours_by_day chunks_df) r (Dev u).
Proof.
  unfold sheet_hours_by_day, with_totals, pivot_hours_by_day.
  split.
  - destruct r; cbn [index columns value set_TOTAL_row set_column
                     add_TOTAL_row add_TOTAL_column];
      rewrite String.eqb_refl; reflexivity.
  - intros u Hu. apply String.eqb_neq in Hu.
    destruct r; cbn [index columns value set_TOTAL_row set_column
                     add_TOTAL_row add_TOTAL_column];
      rewrite Hu; reflexivity.
Qed.


(** * Part III: further properties of the program *)

(** ** process_work_chunks *)

Lemma close_from_span_bound T u ts : forall s e n c,
  e - s <= (n - 1) * T ->
  In c (close_from T u s e n ts) ->
  End_ c - Start c <= (Log_Count c - 1) * T.
Proof.
  induction ts as [|t ts IH]; intros s e n c Hb; simpl.
  - intros [<-|[]]. exact Hb.
  - destruct (t - e >? T) eqn:G; simpl.
    + intros [<-|H]; [exact Hb|]. apply (IH t t 1); auto. lia.
    + apply IH. assert (t - e <= T).
      { destruct (Z.gtb_spec (t - e) T); [discriminate|lia]. }
      nia.
Qed.

(** X1. Every chunk counts at least one row, and spans no more than its
    number of rows less one, times the threshold; so a chunk of a single
    row has zero duration. *)
Theorem X1_chunk_count_and_span :
  forall df m c,
    In c (process_work_chunks df m) ->
    1 <= Log_Count c
    /\ End_ c - Start c <= (Log_Count c - 1) * (60 * m).
Proof.
  intros df m c Hc. apply process_work_chunks_In in Hc.
  destruct (user_times df (Developer c)) as [|t ts]; [destruct Hc|].
  cbn [segment] in Hc. split.
  - assert (0 < Log_Count c); [|lia].
    apply (close_from_count_pos _ _ _ _ _ _ _ Z.lt_0_1 Hc).
  - eapply close_from_span_bound; [|exact Hc]. lia.
Qed.

Lemma X1_witness :
  In (make_chunk "b" 32400 35880 3 None)
     (process_work_chunks
        [row "b" 35880 ""; row "b" 32400 ""; row "b" 34140 ""] 30)
  /\ (1 <= Log_Count (make_chunk "b" 32400 35880 3 None)
      /\ End_ (make_chunk "b" 32400 35880 3 None)
         - Start (make_chunk "b" 32400 35880 3 None)
         <= (Log_Count (make_chunk "b" 32400 35880 3 None) - 1) * (60 * 30)).
Proof.
  assert (H : In (make_chunk "b" 32400 35880 3 None)
                 (process_work_chunks
                    [row "b" 35880 ""; row "b" 32400 ""; row "b" 34140 ""] 30)).
  { left. reflexivity. }
  split; [exact H|].
  apply (X1_chunk_count_and_span _ 30 _ H).
Defined.

Lemma StronglySorted_app {A} (R : A -> A -> Prop) l1 l2 :
  StronglySorted R l1 -> StronglySorted R l2 ->
  (forall x y, In x l1 -> In y l2 -> R x y) ->
  StronglySorted R (l1 ++ l2).
Proof.
  induction 1 as [|a l1 Hs IH Hall]; intros H2 Hc; simpl; auto.
  constructor.
  - apply IH; auto. intros; apply Hc; simpl; auto.
  - apply Forall_app. split; auto.
    apply Forall_forall. intros y Hy. apply Hc; simpl; auto.
Qed.

Lemma StronglySorted_flat_map {A B} (Q : A -> A -> Prop) (R : B -> B -> Prop)
      (f : A -> list B) keys :
  StronglySorted Q keys ->
  (forall k, StronglySorted R (f k)) ->
  (forall k k' x y, Q k k' -> In x (f k) -> In y (f k') -> R x y) ->
  StronglySorted R (flat_map f keys).
Proof.
  intros Hk Hf Hc. induction Hk as [|k keys Hs IH Hall]; simpl.
  - constructor.
  - apply StronglySorted_app; auto.
    intros x y Hx Hy. apply in_flat_map in Hy as (k' & Hk' & Hy).
    rewrite Forall_forall in Hall. eapply Hc; eauto.
Qed.

Lemma StronglySorted_NoDup_strict {A} (R : A -> A -> Prop) l :
  StronglySorted R l -> NoDup l ->
  StronglySorted (fun a b => R a b /\ a <> b) l.
Proof.
  induction 1 as [|a l Hs IH Hall]; intros Hnd; constructor.
  - apply IH. now inversion Hnd.
  - inversion Hnd as [|? ? Ha _]; subst.
    rewrite Forall_forall in *. intros b Hb. split; auto.
    intros ->. contradiction.
Qed.

Lemma String_leb_neq_ltb a b :
  String.leb a b = true -> a <> b -> String.ltb a b = true.
Proof.
  unfold String.leb, String.ltb. intros H N.
  destruct (String.compare a b) eqn:E; auto.
  apply String.compare_eq_iff in E. contradiction.
Qed.

Lemma unique_sorted_strict l :
  StronglySorted (fun a b => String.ltb a b = true) (unique_sorted l).
Proof.
  eapply StronglySorted_impl;
    [|apply StronglySorted_NoDup_strict;
      [apply unique_sorted_sorted|apply unique_sorted_NoDup]].
  intros a b [H N]. now apply String_leb_neq_ltb.
Qed.

Lemma close_from_Start_ge T u ts : forall s e n c,
  s <= e -> StronglySorted Z.le (e :: ts) ->
  In c (close_from T u s e n ts) -> s <= Start c.
Proof.
  induction ts as [|t ts IH]; intros s e n c Hse Hs; simpl.
  - intros [<-|[]]. simpl. lia.
  - inversion Hs as [|? ? Hs' Hall]; subst.
    inversion Hall as [|? ? Het _]; subst.
    destruct (t - e >? T); simpl.
    + intros [<-|H]; [simpl; lia|].
      assert (t <= Start c) by (apply (IH t t 1); auto; lia). lia.
    + apply IH; auto. lia.
Qed.

Lemma close_from_in_order T u ts : forall s e n,
  s <= e -> StronglySorted Z.le (e :: ts) ->
  StronglySorted (fun c1 c2 => End_ c1 <= Start c2) (close_from T u s e n ts).
Proof.
  induction ts as [|t ts IH]; intros s e n Hse Hs; simpl.
  - repeat constructor.
  - inversion Hs as [|? ? Hs' Hall]; subst.
    inversion Hall as [|? ? Het _]; subst.
    destruct (t - e >? T).
    + constructor; [apply IH; auto; lia|].
      apply Forall_forall. intros c Hc. simpl.
      assert (t <= Start c)
        by (apply (close_from_Start_ge T u ts t t 1); auto; lia).
      lia.
    + apply IH; auto. lia.
Qed.

Lemma segment_in_order T u ts :
  StronglySorted Z.le ts ->
  StronglySorted chunk_order (segment T u ts).
Proof.
  intros Hs. destruct ts as [|t ts]; simpl; [constructor|].
  assert (H : forall l, (forall c, In c l -> Developer c = u) ->
                        StronglySorted (fun c1 c2 => End_ c1 <= Start c2) l ->
                        StronglySorted chunk_order l).
  { intros l Hd Hl. induction Hl as [|c l Hl IH Hall]; constructor.
    - apply IH. intros; apply Hd; now right.
    - rewrite Forall_forall in *. intros c' Hc'. right. split.
      + rewrite (Hd c), (Hd c'); simpl; auto.
      + now apply Hall. }
  apply H.
  - intros c. apply close_from_Developer.
  - apply close_from_in_order; auto. lia.
Qed.

(** X2. The chunk frame comes out ordered: developers ascending, and for one
    developer each chunk ends no later than the next one starts. *)
Theorem X2_chunks_in_order :
  forall df m, StronglySorted chunk_order (process_work_chunks df m).
Proof.
  intros df m. rewrite process_work_chunks_flat.
  apply StronglySorted_flat_map
    with (Q := fun a b => String.ltb a b = true).
  - apply unique_sorted_strict.
  - intros u. apply segment_in_order, user_times_sorted.
  - intros k k' x y Hlt Hx Hy. left.
    now rewrite (segment_Developer _ _ _ _ Hx), (segment_Developer _ _ _ _ Hy).
Qed.

Lemma close_from_endpoints T u ts : forall s e n c,
  In c (close_from T u s e n ts) ->
  (Start c = s \/ In (Start c) ts) /\ (End_ c = e \/ In (End_ c) ts).
Proof.
  induction ts as [|t ts IH]; intros s e n c; simpl.
  - intros [<-|[]]. simpl. auto.
  - destruct (t - e >? T); simpl.
    + intros [<-|H]; [simpl; auto|].
      destruct (IH _ _ _ _ H) as [[->|H1] [->|H2]]; auto.
    + intros H. destruct (IH _ _ _ _ H) as [[->|H1] [->|H2]]; auto.
Qed.

Lemma user_times_In df u t :
  In t (user_times df u)
  <-> exists e, In e df /\ valid_User e = true
                /\ User e = Some u /\ DateTime e = t.
Proof.
  unfold user_times. rewrite in_map_iff. split.
  - intros (e & Ht & He). apply filter_In in He as [He Hu].
    apply has_User_true in Hu.
    apply (Permutation_in _ (Permutation_sym (sorted_valid_perm df))) in He.
    apply filter_In in He as [He Hv]. exists e. auto.
  - intros (e & He & Hv & Hu & Ht). exists e. split; auto.
    apply filter_In. split; [|now apply has_User_true].
    apply (Permutation_in _ (sorted_valid_perm df)).
    apply filter_In. auto.
Qed.

(** X3. Every chunk starts at the timestamp of a valid row of its developer
    and ends at the timestamp of one. *)
Theorem X3_chunk_endpoints_are_row_times :
  forall df m c,
    In c (process_work_chunks df m) ->
    exists e1 e2,
      In e1 df /\ In e2 df
      /\ valid_User e1 = true /\ valid_User e2 = true
      /\ User e1 = Some (Developer c) /\ User e2 = Some (Developer c)
      /\ DateTime e1 = Start c /\ DateTime e2 = End_ c.
Proof.
  intros df m c Hc. apply process_work_chunks_In in Hc.
  destruct (user_times df (Developer c)) as [|t ts] eqn:E; [destruct Hc|].
  cbn [segment] in Hc. apply close_from_endpoints in Hc as [H1 H2].
  assert (Hs : In (Start c) (user_times df (Developer c)))
    by (rewrite E; simpl; destruct H1; [left; congruence|now right]).
  assert (He : In (End_ c) (user_times df (Developer c)))
    by (rewrite E; simpl; destruct H2; [left; congruence|now right]).
  apply user_times_In in Hs as (e1 & ? & ? & ? & ?).
  apply user_times_In in He as (e2 & ? & ? & ? & ?).
  exists e1, e2. auto 10.
Qed.

Lemma X3_witness :
  In (make_chunk "b" 32400 35880 3 None)
     (process_work_chunks
        [row "b" 35880 ""; row "b" 32400 ""; row "b" 34140 ""] 30)
  /\ exists e1 e2,
       In e1 [row "b" 35880 ""; row "b" 32400 ""; row "b" 34140 ""]
       /\ In e2 [row "b" 35880 ""; row "b" 32400 ""; row "b" 34140 ""]
       /\ valid_User e1 = true /\ valid_User e2 = true
       /\ User e1 = Some (Developer (make_chunk "b" 32400 35880 3 None))
       /\ User e2 = Some (Developer (make_chunk "b" 32400 35880 3 None))
       /\ DateTime e1 = Start (make_chunk "b" 32400 35880 3 None)
       /\ DateTime e2 = End_ (make_chunk "b" 32400 35880 3 None).
Proof.
  assert (H : In (make_chunk "b" 32400 35880 3 None)
                 (process_work_chunks
                    [row "b" 35880 ""; row "b" 32400 ""; row "b" 34140 ""] 30)).
  { left. reflexivity. }
  split; [exact H|].
  apply (X3_chunk_endpoints_are_row_times _ 30 _ H).
Defined.

(** X4. The developers of the chunk frame are exactly the users of the
    valid rows: each of them has a chunk, and nobody else has. *)
Theorem X4_developers_are_the_valid_users :
  forall df m u,
    In u (map Developer (process_work_chunks df m))
    <-> exists e, In e df /\ valid_User e = true /\ User e = Some u.
Proof.
  intros df m u. split.
  - intros Hu. apply in_map_iff in Hu as (c & <- & Hc).
    apply process_work_chunks_In in Hc.
    destruct (user_times df (Developer c)) as [|t ts] eqn:E; [destruct Hc|].
    assert (Ht : In t (user_times df (Developer c))) by (rewrite E; now left).
    apply user_times_In in Ht as (e & ? & ? & ? & ?). exists e. auto.
  - intros (e & He & Hv & Hu).
    assert (Ht : In (DateTime e) (user_times df u)).
    { apply user_times_In. exists e. auto. }
    pose proof (chunks_of_process df m u) as Hp.
    destruct (user_times df u) as [|t ts]; [destruct Ht|].
    cbn [segment] in Hp.
    destruct (close_from_head (60 * m) u ts t t 1) as (c & rest & Ec & _).
    rewrite Ec in Hp.
    assert (Hc : In c (chunks_of u (process_work_chunks df m)))
      by (rewrite Hp; now left).
    apply filter_In in Hc as [Hc Hd]. apply String.eqb_eq in Hd.
    apply in_map_iff. exists c. auto.
Qed.

Lemma close_from_length_mono T T' u ts :
  T <= T' ->
  forall s e n s' n',
    (length (close_from T' u s e n ts)
     <= length (close_from T u s' e n' ts))%nat.
Proof.
  intros HT. induction ts as [|t ts IH]; intros s e n s' n'; simpl; auto.
  destruct (Z.gtb_spec (t - e) T'), (Z.gtb_spec (t - e) T); simpl.
  - apply le_n_S, IH.
  - lia.
  - apply Nat.le_trans with (length (close_from T u t t 1 ts)); [apply IH|lia].
  - apply IH.
Qed.

Lemma length_flat_map_le {A B} (f g : A -> list B) l :
  (forall k, (length (f k) <= length (g k))%nat) ->
  (length (flat_map f l) <= length (flat_map g l))%nat.
Proof.
  intros H. induction l as [|k l IH]; simpl; auto.
  rewrite !length_app. specialize (H k). lia.
Qed.

(** X5. A larger inactivity threshold never gives more chunks. *)
Theorem X5_larger_threshold_fewer_chunks :
  forall df m m',
    m <= m' ->
    (length (process_work_chunks df m')
     <= length (process_work_chunks df m))%nat.
Proof.
  intros df m m' Hm. rewrite !process_work_chunks_flat.
  apply length_flat_map_le. intros u.
  destruct (user_times df u) as [|t ts]; cbn [segment]; auto.
  apply close_from_length_mono. lia.
Qed.

Lemma X5_witness :
  10 <= 30
  /\ (length (process_work_chunks
                [row "a" 0 ""; row "a" 900 ""; row "a" 4000 ""] 30)
      <= length (process_work_chunks
                   [row "a" 0 ""; row "a" 900 ""; row "a" 4000 ""] 10))%nat.
Proof.
  split; [lia|].
  apply (X5_larger_threshold_fewer_chunks
           [row "a" 0 ""; row "a" 900 ""; row "a" 4000 ""] 10 30).
  lia.
Defined.

Lemma close_from_negative T u ts : forall s e n c,
  T < 0 -> StronglySorted Z.le (e :: ts) ->
  In c (close_from T u s e n ts) ->
  (Log_Count c = n /\ Start c = s /\ End_ c = e)
  \/ (Log_Count c = 1 /\ End_ c = Start c).
Proof.
  induction ts as [|t ts IH]; intros s e n c HT Hs; simpl.
  - intros [<-|[]]. left. auto.
  - inversion Hs as [|? ? Hs' Hall]; subst.
    inversion Hall as [|? ? Het _]; subst.
    destruct (Z.gtb_spec (t - e) T) as [G|G]; [|lia]. simpl.
    intros [<-|Hc]; [left; auto|]. right.
    destruct (IH t t 1 c HT Hs' Hc) as [(? & ? & ?)|?]; [split; congruence|auto].
Qed.

Lemma process_work_chunks_log_total df m :
  Zsum (map Log_Count (process_work_chunks df m))
  = Z.of_nat (length (filter valid_User df)).
Proof.
  rewrite process_work_chunks_flat.
  rewrite (Zsum_flat_map_length _
             (fun u => filter (has_User u) (sorted_valid df))).
  - rewrite (Permutation_length (user_groups_partition df)).
    unfold sorted_valid, sort_values_User_DateTime.
    now rewrite stable_sort_length.
  - intros u. rewrite segment_counts. unfold user_times.
    now rewrite length_map.
Qed.

Lemma Zsum_all_ones (l : list WorkChunk) :
  (forall c, In c l -> Log_Count c = 1) ->
  Zsum (map Log_Count l) = Z.of_nat (length l).
Proof.
  induction l as [|c l IH]; intros H; [reflexivity|].
  cbn [map Zsum fold_right length].
  fold (Zsum (map Log_Count l)).
  rewrite (H c) by now left. rewrite IH by (intros; apply H; now right). lia.
Qed.

(** X6. A negative threshold is taken as it is: every valid row becomes a
    chunk of its own, of one row and zero duration. *)
Theorem X6_negative_threshold_one_chunk_per_row :
  forall df m,
    m < 0 ->
    (forall c, In c (process_work_chunks df m) ->
               Log_Count c = 1 /\ End_ c = Start c)
    /\ length (process_work_chunks df m) = length (filter valid_User df).
Proof.
  intros df m Hm.
  assert (H : forall c, In c (process_work_chunks df m) ->
                        Log_Count c = 1 /\ End_ c = Start c).
  { intros c Hc. apply process_work_chunks_In in Hc.
    pose proof (user_times_sorted df (Developer c)) as Hs.
    destruct (user_times df (Developer c)) as [|t ts]; [destruct Hc|].
    cbn [segment] in Hc.
    assert (HT : 60 * m < 0) by lia.
    destruct (close_from_negative _ _ _ _ _ _ _ HT Hs Hc)
      as [(? & ? & ?)|?]; [split; congruence|auto]. }
  split; [exact H|].
  apply Nat2Z.inj. rewrite <- process_work_chunks_log_total with (m := m).
  symmetry. apply Zsum_all_ones. intros c Hc. now apply H.
Qed.

Lemma X6_witness :
  -5 < 0
  /\ ((forall c,
         In c (process_work_chunks
                 [row "a" 0 ""; row "a" 0 ""; row "b" 7 ""] (-5)) ->
         Log_Count c = 1 /\ End_ c = Start c)
      /\ length (process_work_chunks
                   [row "a" 0 ""; row "a" 0 ""; row "b" 7 ""] (-5))
         = length (filter valid_User
                          [row "a" 0 ""; row "a" 0 ""; row "b" 7 ""])).
Proof.
  split; [lia|].
  apply (X6_negative_threshold_one_chunk_per_row
           [row "a" 0 ""; row "a" 0 ""; row "b" 7 ""] (-5)).
  lia.
Defined.

(** ** The minimum-hours filter *)

Lemma filter_none {A} (f : A -> bool) l :
  (forall x, In x l -> f x = false) -> filter f l = [].
Proof.
  induction l as [|x l IH]; simpl; intros H; auto.
  rewrite (H x) by now left. apply IH. intros; apply H; now right.
Qed.

Lemma filter_split_length {A} (f : A -> bool) l :
  (length (filter f l) + length (filter (fun x => negb (f x)) l))%nat
  = length l.
Proof.
  induction l as [|x l IH]; simpl; auto.
  destruct (f x); simpl; lia.
Qed.

Lemma passes_in chunks_df h c :
  In c chunks_df ->
  passes chunks_df h c = Qle_bool h (dev_hours chunks_df (Developer c)).
Proof.
  intros Hc. destruct (Qle_bool h (dev_hours chunks_df (Developer c))) eqn:E.
  - apply passes_true. split; auto. now apply in_map.
  - destruct (passes chunks_df h c) eqn:P; auto.
    apply passes_true in P. destruct P as [_ P]. congruence.
Qed.

Lemma Qgtb_false h : Qgtb h 0 = false <-> (h <= 0)%Q.
Proof.
  unfold Qgtb. rewrite negb_false_iff. apply Qle_bool_iff.
Qed.

Lemma min_hours_filter_In chunks_df h c :
  In c (fst (min_hours_filter chunks_df h))
  <-> In c chunks_df
      /\ (Qgtb h 0 = true -> (h <= dev_hours chunks_df (Developer c))%Q).
Proof.
  rewrite min_hours_filter_unfold. destruct (Qgtb h 0); cbn [fst].
  - rewrite filter_In. split.
    + intros [Hc Hp]. split; auto. intros _.
      rewrite (passes_in _ _ _ Hc) in Hp. now apply Qle_bool_iff.
    + intros [Hc Hle]. split; auto.
      rewrite (passes_in _ _ _ Hc). now apply Qle_bool_iff, Hle.
  - split; [intros H; split; [exact H|discriminate]|tauto].
Qed.

Lemma has_chunks_In chunks_df u :
  has_chunks chunks_df u = true <-> In u (map Developer chunks_df).
Proof. apply existsb_eqb_In. Qed.

(** Whether a chunk is kept depends on its owner alone. *)
Lemma kept_with_its_owner chunks_df h c :
  In c chunks_df ->
  has_chunks (fst (min_hours_filter chunks_df h)) (Developer c) = true ->
  In c (fst (min_hours_filter chunks_df h)).
Proof.
  intros Hc Hk. apply has_chunks_In, in_map_iff in Hk as (c' & E & Hc').
  apply min_hours_filter_In in Hc' as [_ Hle].
  apply min_hours_filter_In. split; [exact Hc|]. now rewrite <- E.
Qed.

Lemma min_hours_filter_as_filter chunks_df h :
  fst (min_hours_filter chunks_df h)
  = filter (fun c => has_chunks (fst (min_hours_filter chunks_df h))
                                (Developer c))
           chunks_df.
Proof.
  assert (H : forall c, In c chunks_df ->
                forall b, (b = true <-> In c (fst (min_hours_filter chunks_df h))) ->
                b = has_chunks (fst (min_hours_filter chunks_df h))
                               (Developer c)).
  { intros c Hc b Hb. apply eq_true_iff_eq. rewrite Hb. split.
    - intros Hin. apply has_chunks_In. now apply in_map.
    - now apply kept_with_its_owner. }
  rewrite min_hours_filter_unfold at 1.
  destruct (Qgtb h 0) eqn:G; cbn [fst].
  - apply filter_ext_in. intros c Hc. apply (H c Hc).
    rewrite min_hours_filter_unfold, G. cbn [fst].
    rewrite filter_In. tauto.
  - symmetry. apply filter_all. intros c Hc. symmetry. apply (H c Hc).
    rewrite min_hours_filter_unfold, G. cbn [fst]. tauto.
Qed.

Lemma chunks_of_filtered chunks_df h u :
  chunks_of u (fst (min_hours_filter chunks_df h))
  = if has_chunks (fst (min_hours_filter chunks_df h)) u
    then chunks_of u chunks_df else [].
Proof.
  rewrite min_hours_filter_as_filter at 1.
  unfold chunks_of at 1 2. rewrite filter_filter_andb.
  destruct (has_chunks (fst (min_hours_filter chunks_df h)) u) eqn:E.
  - apply filter_ext. intros c.
    destruct (String.eqb_spec (Developer c) u) as [->|N];
      [now rewrite E|apply andb_false_r].
  - apply filter_none. intros c _.
    destruct (String.eqb_spec (Developer c) u) as [->|N];
      [now rewrite E|apply andb_false_r].
Qed.

(** X7. The filter keeps or drops an owner as a whole, and does nothing
    else: the frame it leaves holds, in their order, all the chunks of the
    owners that still have one, and no other chunk; so an owner either keeps
    all chunks or loses all. *)
Theorem X7_filter_keeps_or_drops_whole_owners :
  forall chunks_df h,
    fst (min_hours_filter chunks_df h)
    = filter (fun c => has_chunks (fst (min_hours_filter chunks_df h))
                                  (Developer c))
             chunks_df
    /\ forall u,
         chunks_of u (fst (min_hours_filter chunks_df h))
         = chunks_of u chunks_df
         \/ chunks_of u (fst (min_hours_filter chunks_df h)) = [].
Proof.
  intros chunks_df h. split; [apply min_hours_filter_as_filter|].
  intros u. rewrite chunks_of_filtered.
  destruct (has_chunks (fst (min_hours_filter chunks_df h)) u);
    [now left|now right].
Qed.

(** X8. Raising [min_hours] never brings a chunk back, and never raises the
    number of owners kept. *)
Theorem X8_filter_is_monotone :
  forall chunks_df h1 h2,
    (h1 <= h2)%Q ->
    incl (fst (min_hours_filter chunks_df h2))
         (fst (min_hours_filter chunks_df h1))
    /\ nunique_Developer (fst (min_hours_filter chunks_df h2))
       <= nunique_Developer (fst (min_hours_filter chunks_df h1)).
Proof.
  intros chunks_df h1 h2 Hle.
  assert (Hincl : incl (fst (min_hours_filter chunks_df h2))
                       (fst (min_hours_filter chunks_df h1))).
  { intros c Hc. apply min_hours_filter_In in Hc as [Hc H2].
    apply min_hours_filter_In. split; auto. intros G1.
    apply Qle_trans with h2; auto. apply H2.
    destruct (Qgtb h2 0) eqn:G2; auto.
    apply Qgtb_false in G2.
    assert (G : (h1 <= 0)%Q) by (apply Qle_trans with h2; auto).
    apply Qgtb_false in G. congruence. }
  split; [exact Hincl|].
  unfold nunique_Developer. apply inj_le.
  apply NoDup_incl_length; [apply NoDup_nodup|].
  intros u Hu. apply nodup_In in Hu. apply nodup_In.
  apply in_map_iff in Hu as (c & <- & Hc). apply in_map. now apply Hincl.
Qed.

Lemma X8_witness :
  (1 # 2 <= 2 # 1)%Q
  /\ (incl (fst (min_hours_filter
                   [make_chunk "a" 0 3600 3 None; make_chunk "b" 0 12 2 None]
                   (2 # 1)))
           (fst (min_hours_filter
                   [make_chunk "a" 0 3600 3 None; make_chunk "b" 0 12 2 None]
                   (1 # 2)))
      /\ nunique_Developer
           (fst (min_hours_filter
                   [make_chunk "a" 0 3600 3 None; make_chunk "b" 0 12 2 None]
                   (2 # 1)))
         <= nunique_Developer
              (fst (min_hours_filter
                      [make_chunk "a" 0 3600 3 None; make_chunk "b" 0 12 2 None]
                      (1 # 2)))).
Proof.
  split; [discriminate|].
  apply (X8_filter_is_monotone
           [make_chunk "a" 0 3600 3 None; make_chunk "b" 0 12 2 None]
           (1 # 2) (2 # 1)).
  discriminate.
Defined.

Lemma filtered_count_is_a_difference chunks_df h :
  snd (min_hours_filter chunks_df h)
  = nunique_Developer chunks_df
    - nunique_Developer (fst (min_hours_filter chunks_df h)).
Proof.
  rewrite !min_hours_filter_unfold.
  destruct (Qgtb h 0); cbn [fst snd]; lia.
Qed.

(** The owners of the frame the filter leaves are those of the frame it was
    given that still have a chunk, in the same order. *)
Lemma kept_developers chunks_df h :
  unique_sorted (map Developer (fst (min_hours_filter chunks_df h)))
  = filter (has_chunks (fst (min_hours_filter chunks_df h)))
           (unique_sorted (map Developer chunks_df)).
Proof.
  apply (sorted_perm_unique (fun a b => String.leb a b = true)).
  - apply String.leb_antisym.
  - apply unique_sorted_sorted.
  - apply StronglySorted_filter, unique_sorted_sorted.
  - apply NoDup_Permutation.
    + apply unique_sorted_NoDup.
    + apply NoDup_filter, unique_sorted_NoDup.
    + intros u. rewrite unique_sorted_In, filter_In, unique_sorted_In.
      rewrite has_chunks_In. split; [|tauto].
      intros Hu. split; [|exact Hu].
      apply in_map_iff in Hu as (c & <- & Hc). apply in_map.
      now apply min_hours_filter_In in Hc.
Qed.

(** X9. [filtered_count] is the number of owners dropped: the distinct
    owners of the frame that have no chunk in the frame the filter leaves.
    It is never negative, and never more than the number of owners. *)
Theorem X9_filtered_count_is_the_number_of_dropped_owners :
  forall chunks_df h,
    snd (min_hours_filter chunks_df h)
    = Z.of_nat
        (length (filter (fun u => negb (has_chunks
                                          (fst (min_hours_filter chunks_df h))
                                          u))
                        (unique_sorted (map Developer chunks_df))))
    /\ 0 <= snd (min_hours_filter chunks_df h) <= nunique_Developer chunks_df.
Proof.
  intros chunks_df h.
  set (K := unique_sorted (map Developer chunks_df)).
  set (p := has_chunks (fst (min_hours_filter chunks_df h))).
  assert (H1 : nunique_Developer chunks_df = Z.of_nat (length K)).
  { unfold nunique_Developer, K, unique_sorted.
    now rewrite stable_sort_length. }
  assert (H2 : nunique_Developer (fst (min_hours_filter chunks_df h))
               = Z.of_nat (length (filter p K))).
  { unfold p, K. rewrite <- kept_developers.
    unfold nunique_Developer, unique_sorted.
    now rewrite stable_sort_length. }
  pose proof (filter_split_length p K) as HL.
  rewrite filtered_count_is_a_difference, H1, H2.
  split; lia.
Qed.

(** ** generate_summary *)

Lemma Zsum_perm l1 l2 : Permutation l1 l2 -> Zsum l1 = Zsum l2.
Proof.
  induction 1 as [|x l1 l2 P IH|x y l|l1 l2 l3 P1 IH1 P2 IH2]; simpl; lia.
Qed.

Lemma Zsum_map_flat_map {A B} (f : B -> Z) (g : A -> list B) l :
  Zsum (map f (flat_map g l)) = Zsum (map (fun k => Zsum (map f (g k))) l).
Proof.
  induction l as [|k l IH]; simpl; auto.
  rewrite map_app, Zsum_app, IH. reflexivity.
Qed.

Lemma Zsum_lengths {A B} (g : A -> list B) l :
  Zsum (map (fun k => Z.of_nat (length (g k))) l)
  = Z.of_nat (length (flat_map g l)).
Proof.
  induction l as [|k l IH]; simpl; auto.
  rewrite length_app. fold (Zsum (map (fun k => Z.of_nat (length (g k))) l)).
  rewrite IH. lia.
Qed.

Lemma summary_log_total chunks_df summary :
  generate_summary chunks_df summary ->
  Zsum (map sm_Log_Count summary) = Zsum (map Log_Count chunks_df).
Proof.
  intros [P _].
  rewrite <- (Zsum_perm _ _ (Permutation_map sm_Log_Count P)).
  unfold groupby_Developer_agg. rewrite !map_map.
  cbn [sm_Log_Count round_summary].
  rewrite <- Zsum_map_flat_map.
  apply Zsum_perm, Permutation_map, chunks_partition.
Qed.

(** X10. The summary loses nothing: its log counts add up to the log
    counts of the chunks, its chunk counts to the number of chunks, and it
    has as many rows as the chunk frame has distinct developers. *)
Theorem X10_summary_conserves_counts :
  forall chunks_df summary,
    generate_summary chunks_df summary ->
    Zsum (map sm_Log_Count summary) = Zsum (map Log_Count chunks_df)
    /\ Zsum (map sm_Chunk_Count summary) = Z.of_nat (length chunks_df)
    /\ Z.of_nat (length summary) = nunique_Developer chunks_df.
Proof.
  intros chunks_df summary G. split; [now apply summary_log_total|].
  destruct G as [P _]. split.
  - rewrite <- (Zsum_perm _ _ (Permutation_map sm_Chunk_Count P)).
    unfold groupby_Developer_agg. rewrite !map_map.
    cbn [sm_Chunk_Count round_summary].
    rewrite Zsum_lengths. f_equal.
    apply Permutation_length, chunks_partition.
  - rewrite <- (Permutation_length P).
    unfold groupby_Developer_agg, nunique_Developer, unique_sorted.
    now rewrite !length_map, stable_sort_length.
Qed.

Lemma X10_witness :
  generate_summary
    [make_chunk "a" 0 12 2 None; make_chunk "b" 0 3600 3 None;
     make_chunk "a" 5000 5012 2 None]
    [ {| sm_Developer := "b"; sm_Duration_hours := 100 # 100;
         sm_Log_Count := 3; sm_Chunk_Count := 1 |};
      {| sm_Developer := "a"; sm_Duration_hours := 1 # 100;
         sm_Log_Count := 4; sm_Chunk_Count := 2 |} ]
  /\ (Zsum (map sm_Log_Count
                [ {| sm_Developer := "b"; sm_Duration_hours := 100 # 100;
                     sm_Log_Count := 3; sm_Chunk_Count := 1 |};
                  {| sm_Developer := "a"; sm_Duration_hours := 1 # 100;
                     sm_Log_Count := 4; sm_Chunk_Count := 2 |} ])
      = Zsum (map Log_Count
                  [make_chunk "a" 0 12 2 None; make_chunk "b" 0 3600 3 None;
                   make_chunk "a" 5000 5012 2 None])
      /\ Zsum (map sm_Chunk_Count
                   [ {| sm_Developer := "b"; sm_Duration_hours := 100 # 100;
                        sm_Log_Count := 3; sm_Chunk_Count := 1 |};
                     {| sm_Developer := "a"; sm_Duration_hours := 1 # 100;
                        sm_Log_Count := 4; sm_Chunk_Count := 2 |} ])
         = Z.of_nat (length
                       [make_chunk "a" 0 12 2 None;
                        make_chunk "b" 0 3600 3 None;
                        make_chunk "a" 5000 5012 2 None])
      /\ Z.of_nat (length
                     [ {| sm_Developer := "b"; sm_Duration_hours := 100 # 100;
                          sm_Log_Count := 3; sm_Chunk_Count := 1 |};
                       {| sm_Developer := "a"; sm_Duration_hours := 1 # 100;
                          sm_Log_Count := 4; sm_Chunk_Count := 2 |} ])
         = nunique_Developer
             [make_chunk "a" 0 12 2 None; make_chunk "b" 0 3600 3 None;
              make_chunk "a" 5000 5012 2 None]).
Proof.
  assert (G : generate_summary
                [make_chunk "a" 0 12 2 None; make_chunk "b" 0 3600 3 None;
                 make_chunk "a" 5000 5012 2 None]
                [ {| sm_Developer := "b"; sm_Duration_hours := 100 # 100;
                     sm_Log_Count := 3; sm_Chunk_Count := 1 |};
                  {| sm_Developer := "a"; sm_Duration_hours := 1 # 100;
                     sm_Log_Count := 4; sm_Chunk_Count := 2 |} ]).
  { split.
    - apply perm_swap.
    - repeat constructor. unfold hours_desc. simpl. discriminate. }
  split; [exact G|].
  apply (X10_summary_conserves_counts _ _ G).
Defined.

(** X11. From the log to the summary: the log counts of the summary of the
    chunks of a frame add up to the number of its rows with a valid user,
    whatever the threshold. *)
Theorem X11_summary_of_the_chunks_counts_the_valid_rows :
  forall df m summary,
    generate_summary (process_work_chunks df m) summary ->
    Zsum (map sm_Log_Count summary)
    = Z.of_nat (length (filter valid_User df)).
Proof.
  intros df m summary G.
  now rewrite (summary_log_total _ _ G), process_work_chunks_log_total.
Qed.

Lemma X11_witness :
  generate_summary
    (process_work_chunks
       [row "b" 35880 ""; row "b" 32400 ""; row "b" 34140 ""] 30)
    [ {| sm_Developer := "b"; sm_Duration_hours := 97 # 100;
         sm_Log_Count := 3; sm_Chunk_Count := 1 |} ]
  /\ Zsum (map sm_Log_Count
               [ {| sm_Developer := "b"; sm_Duration_hours := 97 # 100;
                    sm_Log_Count := 3; sm_Chunk_Count := 1 |} ])
     = Z.of_nat (length (filter valid_User
                           [row "b" 35880 ""; row "b" 32400 "";
                            row "b" 34140 ""])).
Proof.
  assert (G : generate_summary
                (process_work_chunks
                   [row "b" 35880 ""; row "b" 32400 ""; row "b" 34140 ""] 30)
                [ {| sm_Developer := "b"; sm_Duration_hours := 97 # 100;
                     sm_Log_Count := 3; sm_Chunk_Count := 1 |} ]).
  { split.
    - apply Permutation_refl.
    - repeat constructor. }
  split; [exact G|].
  apply (X11_summary_of_the_chunks_counts_the_valid_rows _ 30 _ G).
Defined.

(** ** The daily pivot *)

Lemma agg_by_day_lookup chunks_df d u :
  filter (fun r => day_key_eqb (d_Date r, d_Developer r) (d, u))
         (groupby_Date_Developer_agg chunks_df)
  = if in_dec day_key_dec (d, u) (day_keys chunks_df)
    then [ {| d_Date := d; d_Developer := u;
              d_Duration_hours :=
                Qsum (map Duration_hours (filter (in_day (d, u)) chunks_df));
              d_Log_Count :=
                Zsum (map Log_Count (filter (in_day (d, u)) chunks_df));
              d_Chunk_Count :=
                Z.of_nat (length (filter (in_day (d, u)) chunks_df)) |} ]
    else [].
Proof.
  unfold groupby_Date_Developer_agg. fold (day_keys chunks_df).
  rewrite filter_map_comm. cbn [d_Date d_Developer].
  rewrite (filter_ext _ (fun k' => day_key_eqb k' (d, u)))
    by (intros [d' u']; reflexivity).
  rewrite (filter_key_NoDup _ _ (day_keys_NoDup chunks_df)).
  destruct (in_dec day_key_dec (d, u) (day_keys chunks_df)); reflexivity.
Qed.

Lemma agg_by_day_keys chunks_df :
  map (fun r => (d_Date r, d_Developer r))
      (groupby_Date_Developer_agg chunks_df)
  = day_keys chunks_df.
Proof.
  unfold groupby_Date_Developer_agg. fold (day_keys chunks_df).
  rewrite map_map. cbn [d_Date d_Developer].
  erewrite map_ext; [apply map_id|]. intros [d u]. reflexivity.
Qed.

Lemma app_pivot_index chunks_df :
  index (app_pivot_table_by_day chunks_df)
  = unique_sorted_Z (map Date chunks_df).
Proof.
  unfold app_pivot_table_by_day. cbn [index pivot_table].
  apply unique_sorted_Z_same. intros d.
  rewrite <- (map_map (fun r => (d_Date r, d_Developer r)) fst).
  rewrite agg_by_day_keys, !in_map_iff. split.
  - intros ([d' u] & <- & Hk). apply day_keys_In, in_map_iff in Hk.
    destruct Hk as (c & E & Hc). exists c. split; [|exact Hc].
    injection E as <- <-. reflexivity.
  - intros (c & <- & Hc). exists (Date c, Developer c). split; auto.
    apply day_keys_In. now apply (in_map (fun c => (Date c, Developer c))).
Qed.

Lemma app_pivot_columns chunks_df :
  columns (app_pivot_table_by_day chunks_df)
  = unique_sorted (map Developer chunks_df).
Proof.
  unfold app_pivot_table_by_day. cbn [columns pivot_table].
  apply unique_sorted_same. intros u.
  rewrite <- (map_map (fun r => (d_Date r, d_Developer r)) snd).
  rewrite agg_by_day_keys, !in_map_iff. split.
  - intros ([d u'] & <- & Hk). apply day_keys_In, in_map_iff in Hk.
    destruct Hk as (c & E & Hc). exists c. split; [|exact Hc].
    injection E as <- <-. reflexivity.
  - intros (c & <- & Hc). exists (Date c, Developer c). split; auto.
    apply day_keys_In. now apply (in_map (fun c => (Date c, Developer c))).
Qed.

Lemma app_pivot_value chunks_df d u :
  value (app_pivot_table_by_day chunks_df) d u = day_cell chunks_df d u.
Proof.
  unfold app_pivot_table_by_day. cbn [value pivot_table].
  rewrite agg_by_day_lookup.
  destruct (in_dec day_key_dec (d, u) (day_keys chunks_df)) as [H|H].
  - cbn [map d_Duration_hours Qsum fold_right].
    apply round2_comp, Qplus_0_r.
  - unfold day_cell. now rewrite (in_day_absent _ _ H).
Qed.

(** X12. The daily pivot shown by the app and the one written to the Excel
    sheet have the same dates and, in every column but TOTAL, the same
    cells: the second rounding of the Excel path changes nothing.  The
    sheet has the developer columns of the app's pivot, then TOTAL; with a
    developer named TOTAL it has the app's columns and no other, that
    developer's column holding the totals. *)
Theorem X12_app_and_excel_daily_pivot_agree :
  forall chunks_df,
    map Day (index (app_pivot_table_by_day chunks_df)) ++ [TOTAL_row]
    = index (sheet_hours_by_day chunks_df)
    /\ (forall d u,
          u <> "TOTAL"%string ->
          value (app_pivot_table_by_day chunks_df) d u
          = value (sheet_hours_by_day chunks_df) (Day d) u)
    /\ (~ In "TOTAL"%string (map Developer chunks_df) ->
        columns (sheet_hours_by_day chunks_df)
        = columns (app_pivot_table_by_day chunks_df) ++ ["TOTAL"%string])
    /\ (In "TOTAL"%string (map Developer chunks_df) ->
        columns (sheet_hours_by_day chunks_df)
        = columns (app_pivot_table_by_day chunks_df)).
Proof.
  intros chunks_df.
  rewrite app_pivot_index, app_pivot_columns.
  unfold sheet_hours_by_day, with_totals.
  cbn [index columns value set_TOTAL_row set_column].
  rewrite pivot_table_index, pivot_table_columns.
  split; [reflexivity|]. split; [|split].
  - intros d u Hu. apply String.eqb_neq in Hu. rewrite Hu.
    now rewrite app_pivot_value, pivot_table_value.
  - intros H.
    destruct (existsb (String.eqb "TOTAL")
                      (unique_sorted (map Developer chunks_df))) eqn:E;
      [|reflexivity].
    apply (proj1 (existsb_eqb_In _ _)) in E.
    apply (proj1 (unique_sorted_In _ _)) in E. contradiction.
  - intros H. apply (proj2 (unique_sorted_In _ _)) in H.
    apply (proj2 (existsb_eqb_In _ _)) in H. now rewrite H.
Qed.

(** A developer named TOTAL: the sheet shows the totals of the dates under
    that name, where the app shows the developer's hours. *)
Example sheet_with_a_developer_named_TOTAL :
  value (app_pivot_table_by_day
           [make_chunk "TOTAL" 0 3600 2 None; make_chunk "a" 0 7200 2 None])
        0 "TOTAL"%string
  = (100 # 100)%Q
  /\ value (sheet_hours_by_day
              [make_chunk "TOTAL" 0 3600 2 None; make_chunk "a" 0 7200 2 None])
           (Day 0) "TOTAL"%string
     = (300 # 100)%Q
  /\ columns (sheet_hours_by_day
                [make_chunk "TOTAL" 0 3600 2 None; make_chunk "a" 0 7200 2 None])
     = ["TOTAL"%string; "a"%string].
Proof. repeat split; reflexivity. Qed.

Lemma in_day_chunks_of chunks_df d u :
  filter (in_day (d, u)) chunks_df
  = chunks_of u (filter (fun c => Date c =? d) chunks_df).
Proof.
  unfold chunks_of. rewrite filter_filter_andb.
  apply filter_ext. intros c. reflexivity.
Qed.

Lemma day_hours_by_developer chunks_df d :
  (Qsum (map (fun u => Qsum (map Duration_hours
                                 (filter (in_day (d, u)) chunks_df)))
             (unique_sorted (map Developer chunks_df)))
   == Qsum (map Duration_hours (filter (fun c => Date c =? d) chunks_df)))%Q.
Proof.
  erewrite map_ext; [|intros u; rewrite in_day_chunks_of; reflexivity].
  rewrite <- Qsum_map_flat_map.
  apply Qsum_perm, Permutation_map.
  apply (groups_partition Developer String.eqb String.eqb_spec).
  - apply unique_sorted_NoDup.
  - intros c Hc. apply filter_In in Hc as [Hc _].
    apply unique_sorted_In. now apply in_map.
Qed.

(** X13. How far the TOTAL of a day may be from the truth: it differs from
    the full-precision sum of the day's hours by at most half a hundredth
    for each developer column, and half a hundredth more. *)
Theorem X13_day_total_error_bound :
  forall chunks_df d,
    (Qabs (value (pivot_hours_by_day chunks_df) (Day d) TOTAL_column
           - Qsum (map Duration_hours
                       (filter (fun c => Date c =? d) chunks_df)))
     <= inject_Z (Z.of_nat (length (unique_sorted (map Developer chunks_df)))
                  + 1) * (1 # 200))%Q.
Proof.
  intros chunks_df d. unfold pivot_hours_by_day.
  cbn [value add_TOTAL_row add_TOTAL_column].
  rewrite pivot_table_columns.
  erewrite map_ext; [|intros u; apply pivot_table_value].
  unfold day_cell.
  set (devs := unique_sorted (map Developer chunks_df)).
  set (f := fun u => Qsum (map Duration_hours
                               (filter (in_day (d, u)) chunks_df))).
  pose proof (round_error_sum f devs) as H1.
  pose proof (round2_error (Qsum (map (fun u => round2 (f u)) devs))) as H2.
  pose proof (day_hours_by_developer chunks_df d) as H3.
  fold devs in H3. fold f in H3.
  change (fun u => round2 (Qsum (map Duration_hours
                                     (filter (in_day (d, u)) chunks_df))))
    with (fun u => round2 (f u)).
  rewrite <- H3. rewrite inject_Z_plus. change (inject_Z 1) with 1%Q.
  apply Qabs_Qle_condition in H1, H2. apply Qabs_Qle_condition.
  revert H1 H2.
  generalize (round2 (Qsum (map (fun u => round2 (f u)) devs)))
             (Qsum (map (fun u => round2 (f u)) devs))
             (Qsum (map f devs))
             (inject_Z (Z.of_nat (length devs))).
  intros a b c n H1 H2. split; lra.
Qed.

(** X14. The sheet 'Work by Day' loses nothing: the chunk counts of its rows
    add up to the number of chunks, and its log counts to the log counts of
    the chunks. *)
Theorem X14_work_by_day_conserves_counts :
  forall chunks_df,
    Zsum (map d_Chunk_Count (pivot_by_day chunks_df))
    = Z.of_nat (length chunks_df)
    /\ Zsum (map d_Log_Count (pivot_by_day chunks_df))
       = Zsum (map Log_Count chunks_df).
Proof.
  intros chunks_df.
  assert (P : Permutation
                (flat_map (fun k => filter (in_day k) chunks_df)
                          (day_keys chunks_df))
                chunks_df).
  { apply (groups_partition (fun c => (Date c, Developer c)) day_key_eqb
                            day_key_eqb_spec).
    - apply day_keys_NoDup.
    - intros c Hc. apply day_keys_In.
      now apply (in_map (fun c => (Date c, Developer c))). }
  split.
  - rewrite <- (Zsum_perm _ _ (Permutation_map d_Chunk_Count
                                              (pivot_by_day_perm chunks_df))).
    unfold groupby_Date_Developer_agg. fold (day_keys chunks_df).
    rewrite !map_map. cbn [d_Chunk_Count round_day].
    rewrite Zsum_lengths. f_equal. now apply Permutation_length.
  - rewrite <- (Zsum_perm _ _ (Permutation_map d_Log_Count
                                              (pivot_by_day_perm chunks_df))).
    unfold groupby_Date_Developer_agg. fold (day_keys chunks_df).
    rewrite !map_map. cbn [d_Log_Count round_day].
    rewrite <- Zsum_map_flat_map.
    now apply Zsum_perm, Permutation_map.
Qed.

(** ** format_timedelta *)

Lemma int_of_float_nonneg x :
  (0 <= x)%Q ->
  (inject_Z (int_of_float x) <= x < inject_Z (int_of_float x) + 1)%Q.
Proof.
  destruct x as [n d]. unfold int_of_float, Qle, Qlt.
  cbn [Qnum Qden inject_Z Qplus].
  intros H. rewrite Z.quot_div_nonneg by lia.
  pose proof (Z.mul_div_le n (Zpos d) ltac:(lia)).
  pose proof (Z.mul_succ_div_gt n (Zpos d) ltac:(lia)).
  simpl. nia.
Qed.

Lemma int_of_float_neg x :
  (x < 0)%Q ->
  (inject_Z (int_of_float x) - 1 < x <= inject_Z (int_of_float x))%Q.
Proof.
  destruct x as [n d]. unfold int_of_float, Qle, Qlt, Qminus.
  cbn [Qnum Qden inject_Z Qplus Qopp].
  intros H.
  assert (E : n ÷ Zpos d = - ((- n) / Zpos d)).
  { rewrite <- (Z.opp_involutive n) at 1. rewrite Z.quot_opp_l by lia.
    rewrite Z.quot_div_nonneg by lia. reflexivity. }
  rewrite E.
  pose proof (Z.mul_div_le (- n) (Zpos d) ltac:(lia)).
  pose proof (Z.mul_succ_div_gt (- n) (Zpos d) ltac:(lia)).
  simpl. nia.
Qed.

(** X15. [format_timedelta] prints whole hours and minutes, of the seconds
    of the duration with their fraction cut off towards zero: the minutes
    printed are between 0 and 59, and hours and minutes together are these
    whole seconds rounded down to the minute.  So a duration that is not
    negative is rounded down to the minute; a negative one is first rounded
    up to the second and then down to the minute, and what is printed is
    less than a second above it. *)
Theorem X15_format_timedelta_floors_to_the_minute :
  forall x : Q,
    exists hours minutes,
      format_timedelta (Some x)
      = (str_of_int hours ++ "h " ++ str_of_int minutes ++ "min")%string
      /\ 0 <= minutes < 60
      /\ 60 * (60 * hours + minutes) <= int_of_float x
         < 60 * (60 * hours + minutes) + 60
      /\ ((0 <= x)%Q ->
          (inject_Z (60 * (60 * hours + minutes)) <= x
           < inject_Z (60 * (60 * hours + minutes) + 60))%Q)
      /\ ((x < 0)%Q ->
          (inject_Z (60 * (60 * hours + minutes)) - 1 < x
           < inject_Z (60 * (60 * hours + minutes) + 60))%Q).
Proof.
  intros x. set (td := int_of_float x).
  exists (td / 3600), ((td mod 3600) / 60).
  split; [reflexivity|].
  pose proof (Z.mod_pos_bound td 3600 ltac:(lia)) as Hm.
  pose proof (Z.div_mod td 3600 ltac:(lia)) as Hd.
  pose proof (Z.div_mod (td mod 3600) 60 ltac:(lia)) as Hd'.
  pose proof (Z.mod_pos_bound (td mod 3600) 60 ltac:(lia)) as Hm'.
  assert (Hmin : 0 <= (td mod 3600) / 60 < 60).
  { split; [apply Z.div_pos; lia|apply Z.div_lt_upper_bound; lia]. }
  assert (Hlo : 60 * (60 * (td / 3600) + (td mod 3600) / 60) <= td) by lia.
  assert (Hhi : td + 1 <= 60 * (60 * (td / 3600) + (td mod 3600) / 60) + 60)
    by lia.
  split; [exact Hmin|]. split; [lia|].
  rewrite Zle_Qle in Hlo, Hhi. rewrite inject_Z_plus in Hhi.
  change (inject_Z 1) with 1%Q in Hhi.
  split.
  - intros Hx. pose proof (int_of_float_nonneg x Hx) as Hi. fold td in Hi.
    revert Hlo Hhi Hi.
    generalize (inject_Z (60 * (60 * (td / 3600) + (td mod 3600) / 60)))
               (inject_Z (60 * (60 * (td / 3600) + (td mod 3600) / 60) + 60))
               (inject_Z td).
    intros a b c Hlo Hhi Hi. split; lra.
  - intros Hx. pose proof (int_of_float_neg x Hx) as Hi. fold td in Hi.
    revert Hlo Hhi Hi.
    generalize (inject_Z (60 * (60 * (td / 3600) + (td mod 3600) / 60)))
               (inject_Z (60 * (60 * (td / 3600) + (td mod 3600) / 60) + 60))
               (inject_Z td).
    intros a b c Hlo Hhi Hi. split; lra.
Qed.

(** Half a second under zero prints as nothing, a whole second under zero
    as an hour under zero and 59 minutes. *)
Example format_timedelta_below_zero :
  format_timedelta (Some (- (1 # 2))%Q) = "0h 0min"%string
  /\ format_timedelta (Some (- (1 # 1))%Q) = "-1h 59min"%string
  /\ format_timedelta (Some (7325 # 1)%Q) = "2h 2min"%string
  /\ format_timedelta None = ""%string.
Proof. repeat split; reflexivity. Qed.

(** ** The file names of export_csv *)

Lemma replace_from_absent old new s :
  str_in old s = false -> replace_from old new 0 s = s.
Proof.
  induction s as [|c s IH]; [reflexivity|].
  cbn [str_in replace_from]. intros H.
  apply orb_false_iff in H as [Hp Hs].
  rewrite Hp. f_equal. now apply IH.
Qed.

(** X16. When the path given to [export_csv] has no [.txt] in it (a [.csv]
    log, say), both files it writes have the path of the log itself: the
    chunks overwrite the log, and the summary overwrites the chunks. *)
Theorem X16_export_csv_without_txt_writes_onto_the_input :
  forall base_filename,
    str_in ".txt" base_filename = false ->
    chunks_file base_filename = base_filename
    /\ summary_file base_filename = base_filename.
Proof.
  intros base H. unfold chunks_file, summary_file, str_replace.
  split; now apply replace_from_absent.
Qed.

Lemma X16_witness :
  str_in ".txt" "logs/activity.csv" = false
  /\ (chunks_file "logs/activity.csv" = "logs/activity.csv"%string
      /\ summary_file "logs/activity.csv" = "logs/activity.csv"%string).
Proof.
  split; [reflexivity|].
  apply (X16_export_csv_without_txt_writes_onto_the_input "logs/activity.csv").
  reflexivity.
Defined.

Lemma prefix_cons a p b s :
  String.prefix (String a p) (String b s) = true
  <-> a = b /\ String.prefix p s = true.
Proof.
  cbn [String.prefix]. destruct (ascii_dec a b) as [E|E].
  - tauto.
  - split; [discriminate|tauto].
Qed.

Lemma prefix_nil s : String.prefix EmptyString s = true.
Proof. destruct s; reflexivity. Qed.

Lemma prefix_txt_app s :
  String.prefix ".txt" (s ++ ".txt") = true ->
  s = EmptyString \/ String.prefix ".txt" s = true.
Proof.
  destruct s as [|a [|b [|c [|d s]]]]; auto; intros H; right;
    cbn [append] in H;
    repeat (apply prefix_cons in H; destruct H as [? H]);
    try discriminate.
  subst. repeat (apply prefix_cons; split; [reflexivity|]).
  apply prefix_nil.
Qed.

Lemma str_app_nil_r (s : string) : (s ++ "")%string = s.
Proof. induction s as [|c s IH]; simpl; congruence. Qed.

Lemma replace_from_stem new stem :
  str_in ".txt" stem = false ->
  replace_from ".txt" new 0 (stem ++ ".txt") = (stem ++ new)%string.
Proof.
  induction stem as [|c stem IH]; intros H.
  - cbn. apply str_app_nil_r.
  - cbn [str_in] in H. apply orb_false_iff in H as [Hp Hs].
    change (String c stem ++ ".txt")%string
      with (String c (stem ++ ".txt")).
    cbn [replace_from].
    destruct (String.prefix ".txt" (String c (stem ++ ".txt"))) eqn:E.
    + change (String c (stem ++ ".txt"))
        with (String c stem ++ ".txt")%string in E.
      apply prefix_txt_app in E as [E|E]; [discriminate|congruence].
    + change (String c stem ++ new)%string with (String c (stem ++ new)).
      f_equal. now apply IH.
Qed.

(** X17. For a path that ends in [.txt] and has no other [.txt] in it,
    [export_csv] writes the chunks next to it as [..._chunks.csv] and the
    summary as [..._summary.csv]. *)
Theorem X17_export_csv_names_for_a_txt_log :
  forall stem,
    str_in ".txt" stem = false ->
    chunks_file (stem ++ ".txt") = (stem ++ "_chunks.csv")%string
    /\ summary_file (stem ++ ".txt") = (stem ++ "_summary.csv")%string.
Proof.
  intros stem H. unfold chunks_file, summary_file, str_replace.
  split; now apply replace_from_stem.
Qed.

Lemma X17_witness :
  str_in ".txt" "./logs/day1" = false
  /\ (chunks_file ("./logs/day1" ++ ".txt") = ("./logs/day1" ++ "_chunks.csv")%string
      /\ summary_file ("./logs/day1" ++ ".txt")
         = ("./logs/day1" ++ "_summary.csv")%string).
Proof.
  split; [reflexivity|].
  apply (X17_export_csv_names_for_a_txt_log "./logs/day1").
  reflexivity.
Defined.

(** ** The sheet names of export_excel *)

Lemma prefix_cons_false a p b s :
  a <> b -> String.prefix (String a p) (String b s) = false.
Proof.
  intros N. destruct (String.prefix (String a p) (String b s)) eqn:E; auto.
  apply prefix_cons in E. tauto.
Qed.

Lemma str_in_at_cons c s :
  str_in "@" (String c s) = Ascii.eqb c "@" || str_in "@" s.
Proof.
  cbn [str_in]. f_equal.
  destruct (Ascii.eqb_spec c "@") as [->|N].
  - apply prefix_cons. split; [reflexivity|apply prefix_nil].
  - apply prefix_cons_false. congruence.
Qed.

Lemma str_in_at_nil : str_in "@" EmptyString = false.
Proof. reflexivity. Qed.

Lemma before_at_no_at s : str_in "@" (before_at s) = false.
Proof.
  induction s as [|c s IH]; [reflexivity|]. cbn [before_at].
  destruct (Ascii.eqb c "@") eqn:E; [reflexivity|].
  now rewrite str_in_at_cons, E, IH.
Qed.

Lemma str_take_no_at n : forall s,
  str_in "@" s = false -> str_in "@" (str_take n s) = false.
Proof.
  induction n as [|n IH]; intros [|c s] H; try reflexivity.
  rewrite str_in_at_cons in H. apply orb_false_iff in H as [Hc Hs].
  cbn [str_take]. now rewrite str_in_at_cons, Hc, IH.
Qed.

Lemma str_take_length n : forall s, (String.length (str_take n s) <= n)%nat.
Proof.
  induction n as [|n IH]; intros [|c s]; simpl; try lia.
  specialize (IH s). lia.
Qed.

Lemma prefix_trans p : forall q s,
  String.prefix p q = true -> String.prefix q s = true ->
  String.prefix p s = true.
Proof.
  induction p as [|a p IH]; intros q s H1 H2; [apply prefix_nil|].
  destruct q as [|b q]; [discriminate|].
  destruct s as [|c s]; [discriminate|].
  apply prefix_cons in H1 as [-> H1]. apply prefix_cons in H2 as [-> H2].
  apply prefix_cons. split; [reflexivity|]. now apply IH with q.
Qed.

Lemma str_take_prefix n : forall s, String.prefix (str_take n s) s = true.
Proof.
  induction n as [|n IH]; intros [|c s]; try reflexivity.
  cbn [str_take]. apply prefix_cons. split; [reflexivity|apply IH].
Qed.

Lemma before_at_prefix s : String.prefix (before_at s) s = true.
Proof.
  induction s as [|c s IH]; [reflexivity|]. cbn [before_at].
  destruct (Ascii.eqb c "@"); [reflexivity|].
  apply prefix_cons. split; [reflexivity|exact IH].
Qed.

(** X18. A sheet name has at most 31 characters and no [@], and is the
    beginning of the developer's name. *)
Theorem X18_sheet_name_is_a_short_prefix :
  forall developer,
    (String.length (sheet_name developer) <= 31)%nat
    /\ str_in "@" (sheet_name developer) = false
    /\ String.prefix (sheet_name developer) developer = true.
Proof.
  intros developer. unfold sheet_name. split; [apply str_take_length|]. split.
  - apply str_take_no_at, before_at_no_at.
  - apply prefix_trans with (before_at developer);
      [apply str_take_prefix|apply before_at_prefix].
Qed.

Lemma before_at_app p q :
  str_in "@" p = false -> before_at (p ++ q) = (p ++ before_at q)%string.
Proof.
  induction p as [|c p IH]; intros H; [reflexivity|].
  rewrite str_in_at_cons in H. apply orb_false_iff in H as [Hc Hp].
  cbn [append before_at]. rewrite Hc. f_equal. now apply IH.
Qed.

Lemma before_at_id p : str_in "@" p = false -> before_at p = p.
Proof.
  induction p as [|c p IH]; intros H; [reflexivity|].
  rewrite str_in_at_cons in H. apply orb_false_iff in H as [Hc Hp].
  cbn [before_at]. rewrite Hc. f_equal. now apply IH.
Qed.

Lemma str_take_app n : forall p r,
  (n <= String.length p)%nat -> str_take n (p ++ r) = str_take n p.
Proof.
  induction n as [|n IH]; intros p r H.
  - destruct p, r; reflexivity.
  - destruct p as [|c p]; [simpl in H; lia|].
    cbn [append str_take]. f_equal. apply IH. simpl in H. lia.
Qed.

(** X19. Sheet names collide: what follows the first [@] of a developer's
    name does not count, and neither does what follows the first 31
    characters; two developers that differ only there get the same
    sheet. *)
Theorem X19_sheet_names_collide :
  forall p,
    str_in "@" p = false ->
    (forall d, sheet_name (p ++ "@" ++ d) = sheet_name p)
    /\ ((31 <= String.length p)%nat ->
        forall q, sheet_name (p ++ q) = sheet_name p).
Proof.
  intros p Hp. unfold sheet_name. split.
  - intros d. rewrite (before_at_app _ _ Hp), (before_at_id _ Hp).
    cbn [append before_at]. cbn. now rewrite str_app_nil_r.
  - intros Hlen q.
    rewrite (before_at_app _ _ Hp), (before_at_id _ Hp).
    now apply str_take_app.
Qed.

Lemma X19_witness :
  str_in "@" "ana.silva" = false
  /\ ((forall d, sheet_name ("ana.silva" ++ "@" ++ d) = sheet_name "ana.silva")
      /\ ((31 <= String.length "ana.silva")%nat ->
          forall q, sheet_name ("ana.silva" ++ q) = sheet_name "ana.silva")).
Proof.
  split; [reflexivity|].
  apply (X19_sheet_names_collide "ana.silva").
  reflexivity.
Defined.

(** ** find_log_files, load_logs and the files of main *)

(** X20. [find_log_files] stops the run exactly when the folder is missing,
    is not a folder, or holds no [.txt] and no [.csv] file; otherwise it
    returns all those files, each once, in ascending order, and never an
    empty list. *)
Theorem X20_find_log_files_result :
  forall path_exists path_is_dir txt_files csv_files,
    match find_log_files path_exists path_is_dir txt_files csv_files with
    | inr all_files =>
        path_exists = true /\ path_is_dir = true
        /\ all_files <> []
        /\ Permutation (txt_files ++ csv_files) all_files
        /\ StronglySorted (fun a b => String.leb a b = true) all_files
    | inl stop =>
        stop = SystemExit 1
        /\ (path_exists = false \/ path_is_dir = false
            \/ txt_files ++ csv_files = [])
    end.
Proof.
  intros [|] [|] txt csv; cbn [find_log_files negb]; auto.
  destruct (txt ++ csv) as [|f l] eqn:E; auto.
  repeat split.
  - intros H.
    pose proof (stable_sort_length String.leb (f :: l)) as HL.
    rewrite H in HL. discriminate.
  - apply stable_sort_perm.
  - apply stable_sort_sorted; [apply String.leb_total|apply String_leb_trans].
Qed.

Lemma load_each_result {R} (read_csv : string -> option (list R))
      (Path_name : string -> string) file_paths :
  match load_each read_csv Path_name file_paths with
  | inr all_dfs =>
      length all_dfs = length file_paths
      /\ Forall (fun p => read_csv p <> None) file_paths
      /\ concat all_dfs
         = flat_map (fun p => match read_csv p with
                              | Some df => map (fun r => (r, Path_name p)) df
                              | None => []
                              end) file_paths
  | inl stop =>
      stop = SystemExit 1 /\ Exists (fun p => read_csv p = None) file_paths
  end.
Proof.
  induction file_paths as [|p rest IH]; cbn [load_each].
  - repeat split. constructor.
  - destruct (read_csv p) as [df|] eqn:E.
    + destruct (load_each read_csv Path_name rest) as [stop|all_dfs].
      * destruct IH as [-> IH]. split; auto.
      * destruct IH as (HL & HF & HC). cbn [length concat flat_map].
        rewrite E, HC, HL. repeat split. constructor; auto. congruence.
    + split; auto.
Qed.

(** X21. [load_logs] gives the rows of all the files, in the order of the
    files, each row tagged with the name of its file; one file that cannot
    be read stops the run, and so does an empty list of files, with an
    [IndexError]. *)
Theorem X21_load_logs_result :
  forall (R : Type) (read_csv : string -> option (list R))
         (Path_name : string -> string) (file_paths : list string),
    match load_logs read_csv Path_name (inr file_paths) with
    | inr df =>
        file_paths <> []
        /\ Forall (fun p => read_csv p <> None) file_paths
        /\ df = flat_map (fun p => match read_csv p with
                                   | Some d => map (fun r => (r, Path_name p)) d
                                   | None => []
                                   end) file_paths
    | inl IndexError => file_paths = []
    | inl (SystemExit code) =>
        code = 1 /\ Exists (fun p => read_csv p = None) file_paths
    end.
Proof.
  intros R read_csv Path_name file_paths. unfold load_logs.
  pose proof (load_each_result read_csv Path_name file_paths) as H.
  destruct (load_each read_csv Path_name file_paths) as [stop|all_dfs].
  - destruct H as [-> H]. auto.
  - destruct H as (HL & HF & HC).
    destruct all_dfs as [|df [|df' rest]].
    + destruct file_paths; [reflexivity|discriminate].
    + split; [intros ->; discriminate|]. split; auto.
      rewrite <- HC. cbn [concat]. now rewrite app_nil_r.
    + split; [intros ->; discriminate|]. split; auto.
Qed.

(** X22. [main] never meets the [IndexError] of [load_logs]: the files it
    loads are those of the command line when there are any, and else those
    [find_log_files] found, which are never none. *)
Theorem X22_main_never_loads_an_empty_list :
  forall (R : Type) (read_csv : string -> option (list R))
         (Path_name : string -> string)
         input_files path_exists path_is_dir txt_files csv_files files,
    files_to_process input_files
      (find_log_files path_exists path_is_dir txt_files csv_files)
    = inr files ->
    load_logs read_csv Path_name (inr files) <> inl IndexError.
Proof.
  intros R read_csv Path_name input_files ex dir txt csv files H.
  assert (Hne : files <> []).
  { unfold files_to_process in H. destruct input_files as [|f l].
    - unfold find_log_files in H.
      destruct (negb ex); [discriminate|].
      destruct (negb dir); [discriminate|].
      destruct (txt ++ csv) as [|f l] eqn:E; [discriminate|].
      assert (HL : length files = length (f :: l)).
      { injection H as <-. apply (stable_sort_length String.leb (f :: l)). }
      intros N. rewrite N in HL. discriminate.
    - injection H as <-. discriminate. }
  unfold load_logs.
  pose proof (load_each_result read_csv Path_name files) as HR.
  destruct (load_each read_csv Path_name files) as [stop|all_dfs].
  - destruct HR as [-> _]. discriminate.
  - destruct HR as (HL & _).
    destruct all_dfs as [|df [|df' rest]]; try discriminate.
    destruct files; [contradiction|discriminate].
Qed.

Lemma X22_witness :
  files_to_process []
    (find_log_files true true ["logs/b.txt"%string] ["logs/a.csv"%string])
  = inr ["logs/a.csv"%string; "logs/b.txt"%string]
  /\ load_logs (fun _ : string => Some [1; 2]) (fun p => p)
               (inr ["logs/a.csv"%string; "logs/b.txt"%string])
     <> inl IndexError.
Proof.
  split; [reflexivity|].
  apply (X22_main_never_loads_an_empty_list
           Z (fun _ => Some [1; 2]) (fun p => p)
           [] true true ["logs/b.txt"%string] ["logs/a.csv"%string]).
  reflexivity.
Defined.

(** ** More on process_work_chunks, and on how the stages compose *)

Lemma last_cons_default {A} (l : list A) a d d' :
  last (a :: l) d = last (a :: l) d'.
Proof.
  revert a. induction l as [|b l IH]; intros a; [reflexivity|].
  change (last (a :: b :: l) d) with (last (b :: l) d).
  change (last (a :: b :: l) d') with (last (b :: l) d').
  apply IH.
Qed.

Lemma last_cons_shift {A} (l : list A) a d : last (a :: l) d = last l a.
Proof.
  destruct l as [|b l]; [reflexivity|].
  change (last (a :: b :: l) d) with (last (b :: l) d).
  apply last_cons_default.
Qed.

Lemma close_from_last_End T u ts : forall s e n d,
  End_ (last (close_from T u s e n ts) d) = last ts e.
Proof.
  induction ts as [|t ts IH]; intros s e n d; [reflexivity|].
  cbn [close_from]. rewrite last_cons_shift. destruct (t - e >? T).
  - destruct (close_from_head T u ts t t 1) as (c & rest & E & _).
    assert (H : last (make_chunk u s e n
                        (Some (total_seconds_div (t - e) 60))
                        :: close_from T u t t 1 ts) d
                = last (close_from T u t t 1 ts) d).
    { rewrite E. reflexivity. }
    rewrite H. apply IH.
  - apply IH.
Qed.

Lemma sorted_last_max ts : forall t x,
  StronglySorted Z.le (t :: ts) -> In x (t :: ts) -> t <= x <= last ts t.
Proof.
  induction ts as [|b ts IH]; intros t x Hs Hx.
  - destruct Hx as [<-|[]]. simpl. lia.
  - inversion Hs as [|? ? Hs' Hall]; subst.
    inversion Hall as [|? ? Hb _]; subst.
    rewrite last_cons_shift.
    destruct Hx as [<-|Hx].
    + pose proof (IH b b Hs' (or_introl eq_refl)). lia.
    + pose proof (IH b x Hs' Hx). lia.
Qed.

(** X23. The chunks of an owner reach from the owner's first row to the
    last: the first chunk starts at the earliest timestamp and the last
    chunk ends at the latest. *)
Theorem X23_chunks_span_first_to_last_row :
  forall df m u t ts,
    user_times df u = t :: ts ->
    exists c rest,
      chunks_of u (process_work_chunks df m) = c :: rest
      /\ Start c = t
      /\ End_ (last rest c) = last ts t
      /\ Forall (fun x => t <= x <= last ts t) (t :: ts).
Proof.
  intros df m u t ts E.
  pose proof (user_times_sorted df u) as Hs. rewrite E in Hs.
  rewrite chunks_of_process, E. cbn [segment].
  destruct (close_from_head (60 * m) u ts t t 1) as (c & rest & Ec & Hst & _).
  exists c, rest. split; [exact Ec|]. split; [exact Hst|]. split.
  - pose proof (close_from_last_End (60 * m) u ts t t 1 c) as HL.
    rewrite Ec, last_cons_shift in HL. exact HL.
  - apply Forall_forall. intros x Hx. now apply sorted_last_max.
Qed.

Lemma X23_witness :
  user_times [row "a" 3601 ""; row "a" 0 ""; row "a" 1800 ""] "a"
  = 0 :: [1800; 3601]
  /\ exists c rest,
       chunks_of "a" (process_work_chunks
                        [row "a" 3601 ""; row "a" 0 ""; row "a" 1800 ""] 30)
       = c :: rest
       /\ Start c = 0
       /\ End_ (last rest c) = last [1800; 3601] 0
       /\ Forall (fun x => 0 <= x <= last [1800; 3601] 0) (0 :: [1800; 3601]).
Proof.
  split; [reflexivity|].
  apply (X23_chunks_span_first_to_last_row
           [row "a" 3601 ""; row "a" 0 ""; row "a" 1800 ""] 30 "a"
           0 [1800; 3601]).
  reflexivity.
Defined.

Lemma rint_mono x y : (x <= y)%Q -> rint x <= rint y.
Proof.
  intros Hxy.
  destruct (Z.le_gt_cases (rint x) (rint y)) as [H|H]; [exact H|].
  exfalso.
  pose proof (rint_error x) as Hx. pose proof (rint_error y) as Hy.
  apply Qabs_Qle_condition in Hx, Hy.
  assert (Hz : (inject_Z (rint y + 1) <= inject_Z (rint x))%Q)
    by (rewrite <- Zle_Qle; lia).
  rewrite inject_Z_plus in Hz. change (inject_Z 1) with 1%Q in Hz.
  revert Hx Hy Hz.
  generalize (inject_Z (rint x)) (inject_Z (rint y)). intros a b Hx Hy Hz.
  assert (E : (x == y)%Q) by lra.
  apply rint_comp in E. lia.
Qed.

Lemma round2_mono x y : (x <= y)%Q -> (round2 x <= round2 y)%Q.
Proof.
  intros H. unfold round2, Qle. cbn [Qnum Qden].
  apply Z.mul_le_mono_nonneg_r; [lia|].
  apply rint_mono. lra.
Qed.

(** X24. After the filter, the summary shows nobody a hundredth under the
    threshold: with [min_hours > 0], every row of the summary of the
    filtered chunks has hours above [min_hours] less 0.01.  (Rounding may
    bring a row under [min_hours] itself, by half a hundredth.) *)
Theorem X24_summary_after_filter_is_above_min_hours :
  forall chunks_df h summary,
    (0 < h)%Q ->
    generate_summary (fst (min_hours_filter chunks_df h)) summary ->
    Forall (fun r => (h - (1 # 100) < sm_Duration_hours r)%Q) summary.
Proof.
  intros chunks_df h summary Hh [P _].
  apply Forall_forall. intros r Hr.
  apply (Permutation_in _ (Permutation_sym P)) in Hr.
  pose proof (summary_row_hours _ _ Hr) as Hrow.
  unfold groupby_Developer_agg in Hr. rewrite map_map in Hr.
  apply in_map_iff in Hr as (u & <- & Hu).
  apply unique_sorted_In, in_map_iff in Hu as (c & <- & Hc).
  cbn [sm_Developer round_summary] in Hrow. rewrite Hrow.
  assert (G : Qgtb h 0 = true).
  { unfold Qgtb. apply negb_true_iff.
    destruct (Qle_bool h 0) eqn:E; auto.
    apply Qle_bool_iff in E. lra. }
  assert (Hle : (h <= dev_hours (fst (min_hours_filter chunks_df h))
                                (Developer c))%Q).
  { rewrite min_hours_filter_unfold, G in Hc |- *. cbn [fst] in Hc |- *.
    apply filter_In in Hc as [Hc Hp].
    rewrite (dev_hours_kept _ _ _ Hp).
    rewrite (passes_in _ _ _ Hc) in Hp. now apply Qle_bool_iff. }
  pose proof (round2_error
                (dev_hours (fst (min_hours_filter chunks_df h))
                           (Developer c))) as He.
  apply Qabs_Qle_condition in He. lra.
Qed.

Lemma X24_witness :
  (0 < 1 # 2)%Q
  /\ generate_summary
       (fst (min_hours_filter
               [make_chunk "a" 0 3600 3 None; make_chunk "b" 0 12 2 None]
               (1 # 2)))
       [ {| sm_Developer := "a"; sm_Duration_hours := 100 # 100;
            sm_Log_Count := 3; sm_Chunk_Count := 1 |} ]
  /\ Forall (fun r => ((1 # 2) - (1 # 100) < sm_Duration_hours r)%Q)
            [ {| sm_Developer := "a"; sm_Duration_hours := 100 # 100;
                 sm_Log_Count := 3; sm_Chunk_Count := 1 |} ].
Proof.
  assert (G : generate_summary
                (fst (min_hours_filter
                        [make_chunk "a" 0 3600 3 None;
                         make_chunk "b" 0 12 2 None]
                        (1 # 2)))
                [ {| sm_Developer := "a"; sm_Duration_hours := 100 # 100;
                     sm_Log_Count := 3; sm_Chunk_Count := 1 |} ]).
  { split.
    - apply Permutation_refl.
    - repeat constructor. }
  split; [reflexivity|]. split; [exact G|].
  apply (X24_summary_after_filter_is_above_min_hours _ (1 # 2) _
           (eq_refl : (0 < 1 # 2)%Q) G).
Defined.

Lemma unique_sorted_Z_NoDup l : NoDup (unique_sorted_Z l).
Proof.
  unfold unique_sorted_Z.
  eapply Permutation_NoDup; [apply stable_sort_perm|apply NoDup_nodup].
Qed.

Lemma developer_hours_by_day chunks_df u :
  (Qsum (map (fun d => Qsum (map Duration_hours
                                 (filter (in_day (d, u)) chunks_df)))
             (unique_sorted_Z (map Date chunks_df)))
   == dev_hours chunks_df u)%Q.
Proof.
  unfold dev_hours.
  assert (E : map (fun d => Qsum (map Duration_hours
                                     (filter (in_day (d, u)) chunks_df)))
                  (unique_sorted_Z (map Date chunks_df))
              = map (fun d => Qsum (map Duration_hours
                                        (group Date Z.eqb d
                                               (chunks_of u chunks_df))))
                    (unique_sorted_Z (map Date chunks_df))).
  { apply map_ext. intros d. unfold group, chunks_of.
    rewrite filter_filter_andb. do 2 f_equal.
    apply filter_ext. intros c. unfold in_day, day_key_eqb. simpl.
    apply andb_comm. }
  rewrite E.
  rewrite <- (Qsum_map_flat_map Duration_hours
                (fun d => group Date Z.eqb d (chunks_of u chunks_df))).
  apply Qsum_perm, Permutation_map.
  apply (groups_partition Date Z.eqb Z.eqb_spec).
  - apply unique_sorted_Z_NoDup.
  - intros c Hc. apply filter_In in Hc as [Hc _].
    apply unique_sorted_Z_In. now apply in_map.
Qed.

(** X25. The TOTAL row of the daily pivot and the summary may disagree on
    a developer, by rounding alone: the figure of the TOTAL row differs from
    the developer's total rounded to 2 decimals, which is what the summary
    shows, by at most half a hundredth for each date of the pivot, and a
    hundredth more. *)
Theorem X25_total_row_against_the_summary :
  forall chunks_df u y,
    u <> "TOTAL"%string ->
    rounded_to_2 (dev_hours chunks_df u) y ->
    (Qabs (value (sheet_hours_by_day chunks_df) TOTAL_row u - y)
     <= inject_Z (Z.of_nat (length (unique_sorted_Z (map Date chunks_df)))
                  + 2) * (1 # 200))%Q.
Proof.
  intros chunks_df u y Hu [_ H4].
  unfold sheet_hours_by_day, with_totals.
  cbn [index columns value set_TOTAL_row set_column].
  apply String.eqb_neq in Hu. rewrite Hu.
  rewrite pivot_table_index.
  erewrite map_ext; [|intros d; apply pivot_table_value].
  unfold day_cell.
  set (days := unique_sorted_Z (map Date chunks_df)).
  set (f := fun d => Qsum (map Duration_hours
                               (filter (in_day (d, u)) chunks_df))).
  pose proof (round_error_sum f days) as H1.
  pose proof (round2_error (Qsum (map (fun d => round2 (f d)) days))) as H2.
  pose proof (developer_hours_by_day chunks_df u) as H3.
  fold days in H3. fold f in H3.
  change (fun d => round2 (Qsum (map Duration_hours
                                     (filter (in_day (d, u)) chunks_df))))
    with (fun d => round2 (f d)).
  rewrite inject_Z_plus. change (inject_Z 2) with 2%Q.
  apply Qabs_Qle_condition in H1, H2, H4. apply Qabs_Qle_condition.
  revert H1 H2 H3 H4.
  generalize (round2 (Qsum (map (fun d => round2 (f d)) days)))
             (Qsum (map (fun d => round2 (f d)) days))
             (Qsum (map f days))
             (dev_hours chunks_df u)
             (inject_Z (Z.of_nat (length days))).
  intros a b c x n H1 H2 H3 H4. split; lra.
Qed.

Lemma X25_witness :
  "a"%string <> "TOTAL"%string
  /\ rounded_to_2
       (dev_hours [make_chunk "a" 0 12 2 None;
                   make_chunk "a" 86400 86412 2 None] "a")
       (1 # 100)
  /\ (Qabs (value (sheet_hours_by_day
                     [make_chunk "a" 0 12 2 None;
                      make_chunk "a" 86400 86412 2 None])
                  TOTAL_row "a"%string
            - (1 # 100))
      <= inject_Z (Z.of_nat (length (unique_sorted_Z
                                       (map Date
                                            [make_chunk "a" 0 12 2 None;
                                             make_chunk "a" 86400 86412 2
                                                        None])))
                   + 2) * (1 # 200))%Q.
Proof.
  assert (N : "a"%string <> "TOTAL"%string) by discriminate.
  assert (R : rounded_to_2
                (dev_hours [make_chunk "a" 0 12 2 None;
                            make_chunk "a" 86400 86412 2 None] "a")
                (1 # 100)).
  { split; [exists 1; reflexivity|]. vm_compute. discriminate. }
  split; [exact N|]. split; [exact R|].
  apply (X25_total_row_against_the_summary _ _ _ N R).
Defined.

(** ** The weekly pivot *)

Lemma Week_Start_is_the_Monday c :
  (Week_Start c + 3) mod 7 = 0
  /\ Week_Start c <= Date c <= Week_Start c + 6.
Proof.
  unfold Week_Start.
  pose proof (Z.mod_pos_bound (Date c + 3) 7 ltac:(lia)) as H.
  split; [|lia].
  replace (Date c - (Date c + 3) mod 7 + 3)
    with ((Date c + 3) - (Date c + 3) mod 7) by lia.
  rewrite Zminus_mod, Z.mod_mod, Z.sub_diag by lia. reflexivity.
Qed.

Lemma week_keys_NoDup Week chunks_df : NoDup (week_keys Week chunks_df).
Proof.
  unfold week_keys.
  eapply Permutation_NoDup; [apply stable_sort_perm|apply NoDup_nodup].
Qed.

Lemma week_keys_In Week chunks_df k :
  In k (week_keys Week chunks_df) <-> In k (map (week_key Week) chunks_df).
Proof. unfold week_keys. now rewrite stable_sort_In, nodup_In. Qed.

Lemma week_cell_rows Week chunks_df ws u :
  map w_Duration_hours
      (filter (in_week_cell ws u) (pivot_by_week Week chunks_df))
  = map (fun k => round2 (Qsum (map Duration_hours
                                    (filter (in_week Week k) chunks_df))))
        (filter (keys_of_week_cell ws u) (week_keys Week chunks_df)).
Proof.
  unfold pivot_by_week, groupby_Week_agg. fold (week_keys Week chunks_df).
  rewrite map_map, filter_map_comm, map_map.
  reflexivity.
Qed.

Lemma NoDup_all_equal {A} (l : list A) a :
  NoDup l -> (forall x, In x l -> x = a) -> In a l -> l = [a].
Proof.
  intros Hnd Hall Hin. destruct l as [|x [|y l]].
  - destruct Hin.
  - now rewrite (Hall x (or_introl eq_refl)).
  - exfalso. inversion Hnd as [|? ? Hx _]; subst. apply Hx.
    rewrite (Hall x), (Hall y); simpl; auto.
Qed.

Lemma week_key_eqb_spec k1 k2 : reflect (k1 = k2) (week_key_eqb k1 k2).
Proof.
  destruct k1 as [[w1 s1] u1], k2 as [[w2 s2] u2].
  unfold week_key_eqb. cbn [fst snd].
  destruct (String.eqb_spec w1 w2) as [->|N]; cbn [andb];
    [|constructor; congruence].
  destruct (Z.eqb_spec s1 s2) as [->|N]; cbn [andb];
    [|constructor; congruence].
  destruct (String.eqb_spec u1 u2) as [->|N]; constructor; congruence.
Qed.

Lemma pivot_by_week_row Week chunks_df r :
  In r (pivot_by_week Week chunks_df) ->
  w_Duration_hours r
  = round2 (Qsum (map Duration_hours
                      (filter (in_week Week
                                       (w_Week r, w_Week_Start r, w_Developer r))
                              chunks_df))).
Proof.
  unfold pivot_by_week, groupby_Week_agg. rewrite map_map, in_map_iff.
  intros ([[w s] v] & <- & _). reflexivity.
Qed.

(** A cell of the weekly pivot table is the sum of the rows of
    [pivot_by_week] that fall in it: one for each week label. *)
Lemma week_cell_row_sum Week chunks_df ws u :
  (value (pivot_table_week (pivot_by_week Week chunks_df)) ws u
   == Qsum (map w_Duration_hours
                (filter (in_week_cell ws u) (pivot_by_week Week chunks_df))))%Q.
Proof.
  cbn [value pivot_table_week].
  destruct (filter (in_week_cell ws u) (pivot_by_week Week chunks_df))
    as [|r g] eqn:E; [reflexivity|].
  apply round2_hundredths, hundredths_Qsum, Forall_forall.
  intros y Hy. apply in_map_iff in Hy as (r' & <- & Hr').
  rewrite <- E in Hr'. apply filter_In in Hr' as [Hr' _].
  rewrite (pivot_by_week_row _ _ _ Hr'). apply hundredths_round2.
Qed.

(** The chunks of a week and developer, taken week label by week label. *)
Lemma week_cell_partition Week chunks_df ws u :
  (Qsum (map (fun k => Qsum (map Duration_hours
                                 (filter (in_week Week k) chunks_df)))
             (filter (keys_of_week_cell ws u) (week_keys Week chunks_df)))
   == Qsum (map Duration_hours (filter (in_week_of ws u) chunks_df)))%Q.
Proof.
  set (L := filter (in_week_of ws u) chunks_df).
  set (K := filter (keys_of_week_cell ws u) (week_keys Week chunks_df)).
  transitivity
    (Qsum (map (fun k => Qsum (map Duration_hours
                                   (group (week_key Week) week_key_eqb k L)))
               K)).
  - apply Qsum_map_Qeq. intros k Hk.
    apply filter_In in Hk as [_ Hk].
    unfold group, L. rewrite filter_filter_sub; [reflexivity|].
    intros c Hc.
    destruct (week_key_eqb_spec (week_key Week c) k) as [<-|]; [|discriminate].
    exact Hk.
  - rewrite <- (Qsum_map_flat_map Duration_hours
                  (fun k => group (week_key Week) week_key_eqb k L)).
    apply Qsum_perm, Permutation_map.
    apply (groups_partition (week_key Week) week_key_eqb week_key_eqb_spec).
    + apply NoDup_filter, week_keys_NoDup.
    + intros c Hc. apply filter_In in Hc as [Hc Hin].
      apply filter_In. split; [|exact Hin].
      apply week_keys_In. now apply in_map.
Qed.

(** X26. A developer's cell of the weekly pivot is not a full-precision
    sum: the chunks of the week and developer are first summed week label
    by week label, each such sum is rounded to 2 decimals (these are the
    rows of [pivot_by_week]), and the cell is the sum of the rounded
    figures.  It may differ from the full-precision sum of the week by half
    a hundredth for each week label. *)
Theorem X26_weekly_cell_is_a_sum_of_rounded_sums :
  forall Week chunks_df ws u,
    u <> "TOTAL"%string ->
    let rows := filter (in_week_cell ws u) (pivot_by_week Week chunks_df) in
    (value (sheet_hours_by_week Week chunks_df) (Day ws) u
     == Qsum (map w_Duration_hours rows))%Q
    /\ Forall (fun r =>
                 rounded_to_2
                   (Qsum (map Duration_hours
                              (filter (in_week Week (w_Week r, w_Week_Start r,
                                                     w_Developer r))
                                      chunks_df)))
                   (w_Duration_hours r))
              rows
    /\ (Qabs (value (sheet_hours_by_week Week chunks_df) (Day ws) u
              - Qsum (map Duration_hours
                          (filter (in_week_of ws u) chunks_df)))
        <= inject_Z (Z.of_nat (length rows)) * (1 # 200))%Q.
Proof.
  intros Week chunks_df ws u Hu rows. subst rows.
  assert (Hcell : (value (sheet_hours_by_week Week chunks_df) (Day ws) u
                   == Qsum (map w_Duration_hours
                                (filter (in_week_cell ws u)
                                        (pivot_by_week Week chunks_df))))%Q).
  { unfold sheet_hours_by_week, with_totals.
    cbn [index columns value set_TOTAL_row set_column].
    apply String.eqb_neq in Hu. rewrite Hu. apply week_cell_row_sum. }
  split; [exact Hcell|]. split.
  - apply Forall_forall. intros r Hr. apply filter_In in Hr as [Hr _].
    rewrite (pivot_by_week_row _ _ _ Hr). apply round2_rounded.
  - rewrite Hcell, <- week_cell_partition.
    rewrite <- (length_map w_Duration_hours), week_cell_rows, length_map.
    apply (round_error_sum
             (fun k => Qsum (map Duration_hours
                                 (filter (in_week Week k) chunks_df)))).
Qed.

(** Saturday 3 and Sunday 4 January 1970 lie in one week from Monday to
    Sunday, and bear two week labels. *)
Lemma X26_witness :
  "a"%string <> "TOTAL"%string
  /\ (value (sheet_hours_by_week
               (fun t : Z => if (t <? 259200)%Z
                             then "1970-W00"%string else "1970-W01"%string)
               [make_chunk "a" 172800 172812 2 None;
                make_chunk "a" 259200 259212 2 None])
            (Day (-3)) "a"%string
      == Qsum (map w_Duration_hours
                   (filter (in_week_cell (-3) "a")
                           (pivot_by_week
                              (fun t : Z =>
                                 if (t <? 259200)%Z
                                 then "1970-W00"%string else "1970-W01"%string)
                              [make_chunk "a" 172800 172812 2 None;
                               make_chunk "a" 259200 259212 2 None]))))%Q
  /\ length (filter (in_week_cell (-3) "a")
                    (pivot_by_week
                       (fun t : Z =>
                          if (t <? 259200)%Z
                          then "1970-W00"%string else "1970-W01"%string)
                       [make_chunk "a" 172800 172812 2 None;
                        make_chunk "a" 259200 259212 2 None]))
     = 2%nat.
Proof.
  assert (N : "a"%string <> "TOTAL"%string) by discriminate.
  split; [exact N|]. split; [|reflexivity].
  apply (X26_weekly_cell_is_a_sum_of_rounded_sums
           (fun t : Z => if (t <? 259200)%Z
                         then "1970-W00"%string else "1970-W01"%string)
           [make_chunk "a" 172800 172812 2 None;
            make_chunk "a" 259200 259212 2 None]
           (-3) "a"%string N).
Defined.

(** With one week label in a week, the cell of the pivot table is the sum
    of the chunks of the week and developer, rounded. *)
Lemma weekly_cell_one_label :
  forall Week chunks_df ws u,
    (forall c1 c2,
        In c1 chunks_df -> In c2 chunks_df ->
        in_week_of ws u c1 = true -> in_week_of ws u c2 = true ->
        Week (Start c1) = Week (Start c2)) ->
    value (pivot_table_week (pivot_by_week Week chunks_df)) ws u
    = round2 (Qsum (map Duration_hours
                        (filter (in_week_of ws u) chunks_df))).
Proof.
  intros Week chunks_df ws u Hlab.
  cbn [value pivot_table_week].
  assert (Hkey : forall k,
             In k (filter (keys_of_week_cell ws u) (week_keys Week chunks_df))
             <-> exists c, In c chunks_df /\ in_week_of ws u c = true
                           /\ k = week_key Week c).
  { intros k. rewrite filter_In, week_keys_In, in_map_iff. split.
    - intros [(c & <- & Hc) Hk]. exists c. auto.
    - intros (c & Hc & Hin & ->). split; [exists c; auto|exact Hin]. }
  destruct (filter (in_week_of ws u) chunks_df) as [|c0 L] eqn:EL.
  - assert (EK : filter (keys_of_week_cell ws u) (week_keys Week chunks_df)
                 = []).
    { destruct (filter (keys_of_week_cell ws u) (week_keys Week chunks_df))
        as [|k K] eqn:EK; auto. exfalso.
      destruct (proj1 (Hkey k) (or_introl eq_refl)) as (c & Hc & Hin & _).
      assert (Hc' : In c (filter (in_week_of ws u) chunks_df))
        by (apply filter_In; auto).
      rewrite EL in Hc'. destruct Hc'. }
    pose proof (week_cell_rows Week chunks_df ws u) as HR.
    rewrite EK in HR. cbn [map] in HR. apply map_eq_nil in HR.
    now rewrite HR.
  - assert (Hc0 : In c0 chunks_df /\ in_week_of ws u c0 = true).
    { apply filter_In. rewrite EL. now left. }
    destruct Hc0 as [Hc0 Hin0].
    assert (EK : filter (keys_of_week_cell ws u) (week_keys Week chunks_df)
                 = [week_key Week c0]).
    { apply NoDup_all_equal.
      - apply NoDup_filter, week_keys_NoDup.
      - intros k Hk. apply Hkey in Hk as (c & Hc & Hin & ->).
        unfold week_key. rewrite (Hlab c c0 Hc Hc0 Hin Hin0).
        unfold in_week_of in Hin, Hin0.
        apply andb_true_iff in Hin as [H1 H2], Hin0 as [H3 H4].
        apply Z.eqb_eq in H1, H3. apply String.eqb_eq in H2, H4. congruence.
      - apply Hkey. exists c0. auto. }
    pose proof (week_cell_rows Week chunks_df ws u) as HR.
    rewrite EK in HR. cbn [map] in HR.
    assert (EF : filter (in_week Week (week_key Week c0)) chunks_df
                 = c0 :: L).
    { rewrite <- EL. apply filter_ext_in. intros c Hc.
      unfold in_week, in_week_of.
      destruct (week_key_eqb_spec (week_key Week c) (week_key Week c0))
        as [E|N].
      - unfold week_key in E. injection E as _ E2 E3.
        unfold in_week_of in Hin0.
        apply andb_true_iff in Hin0 as [H3 H4].
        apply Z.eqb_eq in H3. apply String.eqb_eq in H4.
        symmetry. apply andb_true_iff. split.
        + apply Z.eqb_eq. congruence.
        + apply String.eqb_eq. congruence.
      - destruct ((Week_Start c =? ws) && (Developer c =? u)%string) eqn:Ein;
          auto.
        exfalso. apply N. unfold week_key.
        rewrite (Hlab c c0 Hc Hc0 Ein Hin0).
        unfold in_week_of in Hin0.
        apply andb_true_iff in Ein as [H1 H2], Hin0 as [H3 H4].
        apply Z.eqb_eq in H1, H3. apply String.eqb_eq in H2, H4. congruence. }
    rewrite EF in HR.
    destruct (filter (in_week_cell ws u) (pivot_by_week Week chunks_df))
      as [|r [|r' R]]; try discriminate.
    cbn [map] in HR. injection HR as HR.
    cbn [map Qsum fold_right]. rewrite HR.
    rewrite (round2_comp _ (round2 (Qsum (map Duration_hours (c0 :: L)))))
      by apply Qplus_0_r.
    apply round2_idem.
Qed.

(** X27. When all the chunks of a week and developer bear the same week
    label, the developer's cell of the weekly pivot is the full-precision
    sum of their hours, rounded to 2 decimals once. *)
Theorem X27_weekly_cell_with_one_label :
  forall Week chunks_df ws u,
    u <> "TOTAL"%string ->
    (forall c1 c2,
        In c1 chunks_df -> In c2 chunks_df ->
        in_week_of ws u c1 = true -> in_week_of ws u c2 = true ->
        Week (Start c1) = Week (Start c2)) ->
    rounded_to_2
      (Qsum (map Duration_hours (filter (in_week_of ws u) chunks_df)))
      (value (sheet_hours_by_week Week chunks_df) (Day ws) u).
Proof.
  intros Week chunks_df ws u Hu Hlab.
  unfold sheet_hours_by_week, with_totals.
  cbn [index columns value set_TOTAL_row set_column].
  apply String.eqb_neq in Hu. rewrite Hu.
  rewrite (weekly_cell_one_label _ _ _ _ Hlab). apply round2_rounded.
Qed.

Lemma X27_witness :
  "a"%string <> "TOTAL"%string
  /\ (forall c1 c2,
        In c1 [make_chunk "a" 0 12 2 None; make_chunk "a" 86400 86412 2 None] ->
        In c2 [make_chunk "a" 0 12 2 None; make_chunk "a" 86400 86412 2 None] ->
        in_week_of (-3) "a" c1 = true -> in_week_of (-3) "a" c2 = true ->
        (fun _ : Z => "1970-W00"%string) (Start c1)
        = (fun _ : Z => "1970-W00"%string) (Start c2))
  /\ rounded_to_2
       (Qsum (map Duration_hours
                  (filter (in_week_of (-3) "a")
                          [make_chunk "a" 0 12 2 None;
                           make_chunk "a" 86400 86412 2 None])))
       (value (sheet_hours_by_week
                 (fun _ => "1970-W00"%string)
                 [make_chunk "a" 0 12 2 None; make_chunk "a" 86400 86412 2 None])
              (Day (-3)) "a"%string).
Proof.
  assert (N : "a"%string <> "TOTAL"%string) by discriminate.
  split; [exact N|]. split; [reflexivity|].
  apply (X27_weekly_cell_with_one_label
           (fun _ => "1970-W00"%string)
           [make_chunk "a" 0 12 2 None; make_chunk "a" 86400 86412 2 None]
           (-3) "a"%string N).
  reflexivity.
Defined.

(** ** The filter and the summary *)

Lemma summary_rows_after_filter chunks_df h :
  map round_summary
      (groupby_Developer_agg (fst (min_hours_filter chunks_df h)))
  = filter (fun r => has_chunks (fst (min_hours_filter chunks_df h))
                                (sm_Developer r))
           (map round_summary (groupby_Developer_agg chunks_df)).
Proof.
  unfold groupby_Developer_agg.
  rewrite kept_developers, !map_map, filter_map_comm.
  cbn [sm_Developer round_summary].
  apply map_ext_in. intros u Hu. apply filter_In in Hu as [_ Hk].
  rewrite chunks_of_filtered, Hk. reflexivity.
Qed.

(** X28. The filter leaves the figures of the owners that remain as they
    were: a summary of the filtered chunks holds the rows that a summary of
    all the chunks has for the owners that still have a chunk, and no other
    row. *)
Theorem X28_summary_after_filter_is_a_part_of_the_summary :
  forall chunks_df h summary summary',
    generate_summary chunks_df summary ->
    generate_summary (fst (min_hours_filter chunks_df h)) summary' ->
    Permutation
      summary'
      (filter (fun r => has_chunks (fst (min_hours_filter chunks_df h))
                                   (sm_Developer r))
              summary).
Proof.
  intros chunks_df h summary summary' [P _] [P' _].
  rewrite <- P'. rewrite summary_rows_after_filter.
  now apply filter_perm.
Qed.

Lemma X28_witness :
  generate_summary
    [make_chunk "a" 0 3600 3 None; make_chunk "b" 0 12 2 None]
    [ {| sm_Developer := "a"; sm_Duration_hours := 100 # 100;
         sm_Log_Count := 3; sm_Chunk_Count := 1 |};
      {| sm_Developer := "b"; sm_Duration_hours := 0 # 100;
         sm_Log_Count := 2; sm_Chunk_Count := 1 |} ]
  /\ generate_summary
       (fst (min_hours_filter
               [make_chunk "a" 0 3600 3 None; make_chunk "b" 0 12 2 None]
               (1 # 2)))
       [ {| sm_Developer := "a"; sm_Duration_hours := 100 # 100;
            sm_Log_Count := 3; sm_Chunk_Count := 1 |} ]
  /\ Permutation
       [ {| sm_Developer := "a"; sm_Duration_hours := 100 # 100;
            sm_Log_Count := 3; sm_Chunk_Count := 1 |} ]
       (filter (fun r =>
                  has_chunks
                    (fst (min_hours_filter
                            [make_chunk "a" 0 3600 3 None;
                             make_chunk "b" 0 12 2 None]
                            (1 # 2)))
                    (sm_Developer r))
               [ {| sm_Developer := "a"; sm_Duration_hours := 100 # 100;
                    sm_Log_Count := 3; sm_Chunk_Count := 1 |};
                 {| sm_Developer := "b"; sm_Duration_hours := 0 # 100;
                    sm_Log_Count := 2; sm_Chunk_Count := 1 |} ]).
Proof.
  assert (G : generate_summary
                [make_chunk "a" 0 3600 3 None; make_chunk "b" 0 12 2 None]
                [ {| sm_Developer := "a"; sm_Duration_hours := 100 # 100;
                     sm_Log_Count := 3; sm_Chunk_Count := 1 |};
                  {| sm_Developer := "b"; sm_Duration_hours := 0 # 100;
                     sm_Log_Count := 2; sm_Chunk_Count := 1 |} ]).
  { split.
    - apply Permutation_refl.
    - repeat constructor. unfold hours_desc. simpl. discriminate. }
  assert (G' : generate_summary
                 (fst (min_hours_filter
                         [make_chunk "a" 0 3600 3 None;
                          make_chunk "b" 0 12 2 None]
                         (1 # 2)))
                 [ {| sm_Developer := "a"; sm_Duration_hours := 100 # 100;
                      sm_Log_Count := 3; sm_Chunk_Count := 1 |} ]).
  { split.
    - apply Permutation_refl.
    - repeat constructor. }
  split; [exact G|]. split; [exact G'|].
  apply (X28_summary_after_filter_is_a_part_of_the_summary _ _ _ _ G G').
Defined.
